(** * Caesar cipher of [encryption.py]: a shallow embedding and its properties

    The module [encryption.py] defines one class, [CaesarCipher], whose
    methods are pure functions of their arguments and of the constant
    [self.charset].  Python strings are sequences of Unicode code points, so
    a text is a list of code points; Python integers are unbounded, so they
    are [Z]; an exception is a value of [exn] carried by [Raise]. *)

From Stdlib Require Import ZArith NArith List String Ascii Lia Bool.
From Stdlib Require Import DecimalString.
From Stdlib Require Import Floats.PrimFloat Floats.SpecFloat Floats.FloatOps.
From Stdlib Require Import Floats.FloatAxioms.
From Stdlib Require Import Rbase Rfunctions Lra.
From stdpp Require Import base option list gmap sets sorting.

Open Scope Z_scope.

(* Decimal literals stand for the nearest double, as they do in Python. *)
Set Warnings "-inexact-float".

(** ** Python values the module manipulates *)

(** A symbol is a Unicode code point. *)
Definition char := N.
Abbreviation pystr := (list char).

(** A string literal of the source, as a text. *)
Definition str (s : string) : pystr :=
  map N_of_ascii (list_ascii_of_string s).

(** [len(s)] *)
Definition len {A} (s : list A) : Z := Z.of_nat (length s).

(** Exceptions raised by the module or by the built-ins it calls. *)
Inductive exn :=
| ValueError (msg : string)
| IndexError (msg : string)
| TypeError (msg : string)
| ZeroDivisionError (msg : string)
| OverflowError (msg : string).

(** [str(e)] for an exception built from one message. *)
Definition exn_str (e : exn) : string :=
  match e with
  | ValueError m | IndexError m | TypeError m
  | ZeroDivisionError m | OverflowError m => m
  end.

(** The outcome of a call: a returned value or a raised exception. *)
Inductive result (A : Type) :=
| Ok (a : A)
| Raise (e : exn).
Arguments Ok {A} a.
Arguments Raise {A} e.

#[global] Instance result_ret : MRet result := fun _ a => Ok a.
#[global] Instance result_bind : MBind result := fun _ _ f m =>
  match m with
  | Ok a => f a
  | Raise e => Raise e
  end.

(** The truth value of a sequence: [if not s] holds of the empty one only. *)
Definition truthy {A} (s : list A) : bool :=
  match s with
  | [] => false
  | _ :: _ => true
  end.

(** [range(a, b)] *)
Definition py_range (a b : Z) : list Z :=
  map (fun i => a + Z.of_nat i) (seq 0 (Z.to_nat (b - a))).

(** [c in s] for a one-symbol string [c]. *)
Fixpoint str_contains (s : pystr) (c : char) : bool :=
  match s with
  | [] => false
  | x :: s' => if N.eqb x c then true else str_contains s' c
  end.

(** The lowest index of [c] in [s], when there is one. *)
Fixpoint str_find (s : pystr) (c : char) : option Z :=
  match s with
  | [] => None
  | x :: s' => if N.eqb x c then Some 0 else Z.succ <$> str_find s' c
  end.

(** [s.index(c)]: the lowest index, or [ValueError]. *)
Definition str_index (s : pystr) (c : char) : result Z :=
  match str_find s c with
  | Some i => Ok i
  | None => Raise (ValueError "substring not found")
  end.

(** [s[i]]: a negative index counts from the end, an index out of range
    raises [IndexError]. *)
Definition str_getitem (s : pystr) (i : Z) : result char :=
  let j := if i <? 0 then i + len s else i in
  if j <? 0 then Raise (IndexError "string index out of range")
  else match s !! Z.to_nat j with
       | Some c => Ok c
       | None => Raise (IndexError "string index out of range")
       end.

(** ** Floating point: [int / int], [float * int] and [round(x, 2)]

    A Python float is an IEEE 754 binary64 number, which is what [float]
    is.  The exact value of a finite one is read off its [spec_float]. *)

(** The double nearest to the ratio of [a >= 0] and [b > 0] (ties to even),
    negated when [neg].  The quotient is computed with at least 56 bits
    and a sticky bit, which is enough for one correct rounding to 53. *)
Definition ratio_to_SF (neg : bool) (a b : Z) : spec_float :=
  if a =? 0 then S754_zero neg
  else
    let k := Z.max 0 (Z.log2 b - Z.log2 a + 56) in
    let n := a * 2 ^ k in
    let q := n / b in
    let sticky := if n mod b =? 0 then 0 else 1 in
    let m := 2 * q + sticky in
    binary_normalize prec emax (if neg then - m else m) (- k - 1) neg.

(** The quotients that round to a double beyond the largest finite one are
    those of at least [2^1024 - 2^970], half a unit in the last place
    under [2^1024]. *)
Definition overflow_threshold : Z := 2 ^ 1025 - 2 ^ 971.

(** [a / b] on integers: the correctly rounded quotient;
    [ZeroDivisionError] when [b] is zero, [OverflowError] when the rounded
    quotient is beyond the doubles. *)
Definition int_truediv (a b : Z) : result float :=
  if b =? 0 then Raise (ZeroDivisionError "division by zero")
  else if overflow_threshold * Z.abs b <=? 2 * Z.abs a then
    Raise (OverflowError "integer division result too large for a float")
  else
    Ok (SF2Prim (ratio_to_SF (xorb (a <? 0) (b <? 0)) (Z.abs a) (Z.abs b))).

(** The integer nearest to [n / d] for [d > 0], a tie going to the even
    one. *)
Definition round_half_even (n d : Z) : Z :=
  let q := n / d in
  let r := n mod d in
  match Z.compare (2 * r) d with
  | Lt => q
  | Gt => q + 1
  | Eq => if Z.even q then q else q + 1
  end.

(** The number of hundredths nearest to the exact value [m * 2^e]. *)
Definition hundredths (m : positive) (e : Z) : Z :=
  if 0 <=? e then Zpos m * 100 * 2 ^ e
  else round_half_even (Zpos m * 100) (2 ^ (- e)).

(** [round(x, 2)]: the exact value of [x] is rounded to hundredths, half
    to even, and the double nearest to that decimal is returned; zeros,
    infinities and NaN are returned as they are. *)
Definition py_round2 (x : float) : float :=
  match Prim2SF x with
  | S754_finite s m e => SF2Prim (ratio_to_SF s (hundredths m e) 100)
  | _ => x
  end.

(** ** The real numbers the floats stand for

    The accuracy of the floating-point computations is stated over the
    reals: [bpow e] is [2^e], a finite float is its mantissa times the
    power of its exponent, and what is not finite counts as zero. *)
Definition bpow (e : Z) : R := powerRZ 2 e.
Definition F2R (m e : Z) : R := (IZR m * bpow e)%R.
Definition SF2R (f : spec_float) : R :=
  match f with
  | S754_finite s m e => F2R (if s then Zneg m else Zpos m) e
  | _ => 0%R
  end.
Definition float_value (x : float) : R := SF2R (Prim2SF x).

(** A float that is [+0] or positive and finite. *)
Definition SF_nonneg (f : spec_float) : Prop :=
  match f with
  | S754_zero false | S754_finite false _ _ => True
  | _ => False
  end.

(** The float of a natural mantissa. *)
Definition SF_of (m e : Z) : spec_float :=
  match m with
  | 0 => S754_zero false
  | Zpos q => S754_finite false q e
  | Zneg _ => S754_nan
  end.

(** What [n] steps of the rounding's right shift keep of a natural number
    [orig]: the quotient by [2^n], whether the remainder reaches the half,
    and whether the remainder is zero or exactly the half. *)
Definition shr_inv (orig : Z) (n : nat) (mrs : shr_record) : Prop :=
  shr_m mrs = orig / 2 ^ Z.of_nat n
  ∧ (shr_r mrs = false → 2 * (orig mod 2 ^ Z.of_nat n) < 2 ^ Z.of_nat n)
  ∧ (shr_r mrs = true → 2 ^ Z.of_nat n ≤ 2 * (orig mod 2 ^ Z.of_nat n))
  ∧ (shr_s mrs = false →
     orig mod 2 ^ Z.of_nat n = 0
     ∨ 2 * (orig mod 2 ^ Z.of_nat n) = 2 ^ Z.of_nat n).

(** ** Dynamically typed values, for the one method that inspects a type *)

Inductive pyval :=
| PyNone
| PyBool (b : bool)
| PyInt (n : Z)
| PyFloat (f : float)
| PyStr (s : pystr).

(** [isinstance(v, int)]: [bool] is a subclass of [int]. *)
Definition isinstance_int (v : pyval) : bool :=
  match v with
  | PyBool _ | PyInt _ => true
  | _ => false
  end.

(** The integer an instance of [int] stands for: [True] is 1 and [False]
    is 0. *)
Definition int_value (v : pyval) : option Z :=
  match v with
  | PyInt n => Some n
  | PyBool b => Some (if b then 1 else 0)
  | _ => None
  end.

(** [n <= f] and [f <= n] for an integer and a float, compared exactly. *)
Definition int_le_float (n : Z) (f : float) : bool :=
  match Prim2SF f with
  | S754_zero _ => n <=? 0
  | S754_infinity neg => negb neg
  | S754_nan => false
  | S754_finite neg m e =>
      let v := if neg then Zneg m else Zpos m in
      if 0 <=? e then n <=? v * 2 ^ e else n * 2 ^ (- e) <=? v
  end.

Definition float_le_int (f : float) (n : Z) : bool :=
  match Prim2SF f with
  | S754_zero _ => 0 <=? n
  | S754_infinity neg => neg
  | S754_nan => false
  | S754_finite neg m e =>
      let v := if neg then Zneg m else Zpos m in
      if 0 <=? e then v * 2 ^ e <=? n else v <=? n * 2 ^ (- e)
  end.

(** [a <= b]: defined between numbers; [TypeError] otherwise (strings
    compare among themselves, which no caller here needs). *)
Definition py_le (a b : pyval) : result bool :=
  match int_value a, int_value b with
  | Some x, Some y => Ok (x <=? y)
  | Some x, None =>
      match b with
      | PyFloat g => Ok (int_le_float x g)
      | _ => Raise (TypeError "'<=' not supported between these instances")
      end
  | None, Some y =>
      match a with
      | PyFloat f => Ok (float_le_int f y)
      | _ => Raise (TypeError "'<=' not supported between these instances")
      end
  | None, None =>
      match a, b with
      | PyFloat f, PyFloat g => Ok (PrimFloat.leb f g)
      | _, _ => Raise (TypeError "'<=' not supported between these instances")
      end
  end.

(** ** Dictionaries kept in insertion order

    [max] over [dict.items()] visits the keys in the order they were first
    inserted, so the frequency table is an association list. *)

Abbreviation dict := (list (char * Z)).

(** [d.get(k, default)] *)
Fixpoint dict_get (d : dict) (k : char) (default : Z) : Z :=
  match d with
  | [] => default
  | (k', v) :: d' => if N.eqb k' k then v else dict_get d' k default
  end.

(** [d[k] = v]: an existing key keeps its place, a new one goes last. *)
Fixpoint dict_set (d : dict) (k : char) (v : Z) : dict :=
  match d with
  | [] => [(k, v)]
  | (k', v') :: d' =>
      if N.eqb k' k then (k', v) :: d' else (k', v') :: dict_set d' k v
  end.

(** The scan of [max(items, key=lambda x: x[1])]: the running maximum is
    replaced only by an item whose key is strictly greater. *)
Fixpoint max_scan (items : dict) (best : char * Z) : char * Z :=
  match items with
  | [] => best
  | x :: rest => if snd best <? snd x then max_scan rest x else max_scan rest best
  end.

Definition py_max_by_value (items : dict) : result (char * Z) :=
  match items with
  | [] => Raise (ValueError "max() arg is an empty sequence")
  | x :: rest => Ok (max_scan rest x)
  end.

(** ** Substring search and sorting *)

Fixpoint is_prefix (p s : pystr) : bool :=
  match p, s with
  | [], _ => true
  | _ :: _, [] => false
  | x :: p', y :: s' => N.eqb x y && is_prefix p' s'
  end.

(** [p in s] for strings. *)
Fixpoint str_in (p s : pystr) : bool :=
  is_prefix p s ||
  match s with
  | [] => false
  | _ :: s' => str_in p s'
  end.

(** [sorted(list(set(l)))] on integers. *)
Definition sorted_set (l : list Z) : list Z :=
  merge_sort Z.le (elements (list_to_set l : gset Z)).

(** ** The constants of Python's [string] module used by the source *)

Module PyString.

Definition ascii_lowercase : pystr := str "abcdefghijklmnopqrstuvwxyz".
Definition ascii_uppercase : pystr := str "ABCDEFGHIJKLMNOPQRSTUVWXYZ".
Definition ascii_letters : pystr := ascii_lowercase ++ ascii_uppercase.
Definition digits : pystr := str "0123456789".
(** The double quote is code point 34. *)
Definition punctuation : pystr :=
  str "!" ++ [34%N] ++ str "#$%&'()*+,-./:;<=>?@[\]^_`{|}~".
(** Space, tab, newline, carriage return, vertical tab, form feed. *)
Definition whitespace : pystr := [32; 9; 10; 13; 11; 12]%N.
Definition printable : pystr :=
  digits ++ ascii_letters ++ punctuation ++ whitespace.

End PyString.

(** ** class CaesarCipher *)

Module CaesarCipher.

(** [self.charset], set once by [__init__]:
    [string.ascii_letters + string.digits + string.punctuation + ' \n\t'] *)
Definition charset : pystr :=
  PyString.ascii_letters ++ PyString.digits ++ PyString.punctuation
    ++ [32; 10; 9]%N.

Definition shift_error : exn := ValueError "Shift must be between 1 and 25".
Definition text_error : exn := ValueError "Text cannot be empty".
Definition encrypted_text_error : exn :=
  ValueError "Encrypted text cannot be empty".

(** The body of [for char in text] of [encrypt]; [encrypted_chars] is the
    list the loop appends to. *)
Fixpoint encrypt_loop (text : pystr) (shift : Z) (encrypted_chars : list char)
  : result (list char) :=
  match text with
  | [] => Ok encrypted_chars
  | char :: rest =>
      if str_contains charset char then
        old_index ← str_index charset char;
        let new_index := (old_index + shift) mod len charset in
        c ← str_getitem charset new_index;
        encrypt_loop rest shift (encrypted_chars ++ [c])
      else
        encrypt_loop rest shift (encrypted_chars ++ [char])
  end.

Definition encrypt (text : pystr) (shift : Z) : result pystr :=
  if negb ((1 <=? shift) && (shift <=? 25)) then Raise shift_error
  else if negb (truthy text) then Raise text_error
  else encrypt_loop text shift [].

(** The body of [for char in encrypted_text] of [decrypt]. *)
Fixpoint decrypt_loop (encrypted_text : pystr) (shift : Z)
    (decrypted_chars : list char) : result (list char) :=
  match encrypted_text with
  | [] => Ok decrypted_chars
  | char :: rest =>
      if str_contains charset char then
        old_index ← str_index charset char;
        let new_index := (old_index - shift) mod len charset in
        c ← str_getitem charset new_index;
        decrypt_loop rest shift (decrypted_chars ++ [c])
      else
        decrypt_loop rest shift (decrypted_chars ++ [char])
  end.

Definition decrypt (encrypted_text : pystr) (shift : Z) : result pystr :=
  if negb ((1 <=? shift) && (shift <=? 25)) then Raise shift_error
  else if negb (truthy encrypted_text) then Raise encrypted_text_error
  else decrypt_loop encrypted_text shift [].


(** [range(1, 26)] of [brute_force_decrypt], one shift after the other;
    [results] is the dictionary being filled. *)
Fixpoint brute_force_loop (shifts : list Z) (encrypted_text : pystr)
    (results : gmap Z pystr) : gmap Z pystr :=
  match shifts with
  | [] => results
  | shift :: rest =>
      match decrypt encrypted_text shift with
      | Ok decrypted =>
          brute_force_loop rest encrypted_text (<[shift := decrypted]> results)
      | Raise e =>
          brute_force_loop rest encrypted_text
            (<[shift := str "Error: " ++ str (exn_str e)]> results)
      end
  end.

Definition brute_force_decrypt (encrypted_text : pystr)
  : result (gmap Z pystr) :=
  if negb (truthy encrypted_text) then Raise encrypted_text_error
  else Ok (brute_force_loop (py_range 1 26) encrypted_text ∅).

(** The value of the key ["most_common_char"]. *)
Record most_common := {
  mc_char : char;
  mc_count : Z;
  mc_percentage : float
}.

(** The dictionary [analysis]. *)
Record analysis := {
  an_length : Z;
  an_unique_chars : Z;
  an_char_frequency : dict;
  an_most_common_char : option most_common;
  an_printable_chars : Z;
  an_non_printable_chars : Z
}.

(** What [analyze_encrypted_text] returns: the dictionary with the one
    key ["error"], or the analysis. *)
Inductive analysis_result :=
| AnalysisError (error : string)
| Analysis (a : analysis).

(** The loop that counts character frequencies, updating [analysis]. *)
Fixpoint count_loop (encrypted_text : pystr) (a : analysis) : analysis :=
  match encrypted_text with
  | [] => a
  | char :: rest =>
      let freq :=
        dict_set (an_char_frequency a) char
          (dict_get (an_char_frequency a) char 0 + 1) in
      let p := str_contains PyString.printable char in
      count_loop rest
        {| an_length := an_length a;
           an_unique_chars := an_unique_chars a;
           an_char_frequency := freq;
           an_most_common_char := an_most_common_char a;
           an_printable_chars :=
             if p then an_printable_chars a + 1 else an_printable_chars a;
           an_non_printable_chars :=
             if p then an_non_printable_chars a
             else an_non_printable_chars a + 1 |}
  end.

Definition analyze_encrypted_text (encrypted_text : pystr)
  : result analysis_result :=
  if negb (truthy encrypted_text) then
    Ok (AnalysisError "Empty text provided")
  else
    let a0 :=
      {| an_length := len encrypted_text;
         an_unique_chars :=
           Z.of_nat (size (list_to_set encrypted_text : gset char));
         an_char_frequency := [];
         an_most_common_char := None;
         an_printable_chars := 0;
         an_non_printable_chars := 0 |} in
    let a := count_loop encrypted_text a0 in
    if truthy (an_char_frequency a) then
      most_common ← py_max_by_value (an_char_frequency a);
      ratio ← int_truediv (snd most_common) (len encrypted_text);
      Ok (Analysis
            {| an_length := an_length a;
               an_unique_chars := an_unique_chars a;
               an_char_frequency := an_char_frequency a;
               an_most_common_char :=
                 Some {| mc_char := fst most_common;
                         mc_count := snd most_common;
                         mc_percentage :=
                           py_round2 (PrimFloat.mul ratio 100%float) |};
               an_printable_chars := an_printable_chars a;
               an_non_printable_chars := an_non_printable_chars a |})
    else Ok (Analysis a).

(** [isinstance(shift, int) and (1 <= shift <= 25)]: [and] and the chained
    comparison stop at the first false operand. *)
Definition validate_shift_body (shift : pyval) : result pyval :=
  if isinstance_int shift then
    lower ← py_le (PyInt 1) shift;
    if lower : bool then
      upper ← py_le shift (PyInt 25);
      Ok (PyBool upper)
    else Ok (PyBool false)
  else Ok (PyBool false).

(** The bare [except] turns every exception into [False]. *)
Definition validate_shift (shift : pyval) : result pyval :=
  match validate_shift_body shift with
  | Ok v => Ok v
  | Raise _ => Ok (PyBool false)
  end.

Definition common_patterns : list (pystr * Z) :=
  [ (str "def ", 3); (str "class ", 5); (str "print(", 7);
    (str "import ", 11); (str "if __name__", 13) ].

Section Suggestions.

(** [str.lower] is the built-in of the Unicode database; the method is
    modelled for any lower-casing function. *)
Variable str_lower : pystr -> pystr.

(** [for pattern, suggested_shift in common_patterns] *)
Fixpoint patterns_loop (patterns : list (pystr * Z)) (text_sample : pystr)
    (suggestions : list Z) : list Z :=
  match patterns with
  | [] => suggestions
  | (pattern, suggested_shift) :: rest =>
      if str_in (str_lower pattern) (str_lower text_sample) then
        patterns_loop rest text_sample (suggestions ++ [suggested_shift])
      else patterns_loop rest text_sample suggestions
  end.

Definition generate_shift_suggestions (text_sample : pystr) : list Z :=
  if negb (truthy text_sample) then [1; 3; 5; 13]
  else
    let suggestions := patterns_loop common_patterns text_sample [] in
    let suggestions :=
      if negb (truthy suggestions) then [1; 3; 5; 7; 13; 17; 21; 25]
      else suggestions in
    take 5 (sorted_set suggestions).

End Suggestions.

End CaesarCipher.

(** Lower-casing of the ASCII letters, every other symbol kept: what
    [str.lower] does on ASCII text. *)
Definition ascii_lower (s : pystr) : pystr :=
  map (fun c => if (65 <=? c)%N && (c <=? 90)%N then (c + 32)%N else c) s.

(** * [file_manager.py]: what is written to a saved file and what is
    read back from it

    The file system itself is outside the model; what is modelled is the
    text [save_code] writes and the text [load_code] returns for the
    content it has read. *)

(** ** More built-ins on strings and lists *)

(** [s.split(sep)] for a one-symbol separator. *)
Fixpoint str_split (sep : char) (s : pystr) : list pystr :=
  match s with
  | [] => [[]]
  | c :: s' =>
      if N.eqb c sep then [] :: str_split sep s'
      else match str_split sep s' with
           | w :: ws => (c :: w) :: ws
           | [] => [[c]]
           end
  end.

(** [sep.join(l)] *)
Fixpoint str_join (sep : pystr) (l : list pystr) : pystr :=
  match l with
  | [] => []
  | x :: l' =>
      match l' with
      | [] => x
      | _ :: _ => x ++ sep ++ str_join sep l'
      end
  end.

(** The bound a slice index stands for in a list: a negative index counts
    from the end, and both ends are clamped. *)
Definition slice_bound {A} (l : list A) (i : Z) : nat :=
  if i <? 0 then Z.to_nat (Z.max 0 (len l + i)) else Z.to_nat (Z.min i (len l)).

(** [l[:i]] and [l[i:]] *)
Definition slice_to {A} (l : list A) (i : Z) : list A := take (slice_bound l i) l.
Definition slice_from {A} (l : list A) (i : Z) : list A := drop (slice_bound l i) l.

(** [l[i]] on a list. *)
Definition list_getitem {A} (l : list A) (i : Z) : result A :=
  let j := if i <? 0 then i + len l else i in
  if j <? 0 then Raise (IndexError "list index out of range")
  else match l !! Z.to_nat j with
       | Some x => Ok x
       | None => Raise (IndexError "list index out of range")
       end.

(** [range(start, stop, -1)] *)
Definition py_range_down (start stop : Z) : list Z :=
  map (fun i => start - Z.of_nat i) (seq 0 (Z.to_nat (start - stop))).

(** The symbols [str.isspace] holds of, which [str.strip()] removes. *)
Definition py_isspace (c : char) : bool :=
  ((9 <=? c) && (c <=? 13) || (28 <=? c) && (c <=? 32)
   || (c =? 133) || (c =? 160) || (c =? 5760)
   || (8192 <=? c) && (c <=? 8202) || (c =? 8232) || (c =? 8233)
   || (c =? 8239) || (c =? 8287) || (c =? 12288))%N.

(** Title-casing of ASCII text: a letter that follows a letter is
    lower-cased, any other letter upper-cased; what [str.title] does on
    ASCII text. *)
Fixpoint ascii_title_from (after_letter : bool) (s : pystr) : pystr :=
  match s with
  | [] => []
  | c :: s' =>
      if ((65 <=? c) && (c <=? 90))%N then
        (if after_letter then (c + 32)%N else c) :: ascii_title_from true s'
      else if ((97 <=? c) && (c <=? 122))%N then
        (if after_letter then c else (c - 32)%N) :: ascii_title_from true s'
      else c :: ascii_title_from false s'
  end.

Definition ascii_title (s : pystr) : pystr := ascii_title_from false s.

Section Strip.

(** [str.strip()] removes the symbols of a whitespace class at both ends;
    the class is a parameter of the model. *)
Variable isspace : char -> bool.

Fixpoint str_lstrip (s : pystr) : pystr :=
  match s with
  | [] => []
  | c :: s' => if isspace c then str_lstrip s' else s
  end.

Definition str_rstrip (s : pystr) : pystr :=
  reverse (str_lstrip (reverse s)).

Definition str_strip (s : pystr) : pystr := str_rstrip (str_lstrip s).

(** [not line.strip()]: stripping the line leaves nothing. *)
Definition line_is_blank (line : pystr) : bool :=
  negb (truthy (str_strip line)).

End Strip.

(** ** class FileManager *)

(** ** Text files

    [save_code] and [load_code] open their file as a UTF-8 text file.
    What is written is translated first (every newline becomes
    [os.linesep]) and then encoded, and the bytes are what the file holds;
    what is read is decoded and then translated back by the universal
    newlines rule: a carriage return, alone or followed by a newline,
    becomes a newline.  A byte is a number below 256. *)

(** The code points UTF-8 encodes: all but the surrogates; a Python string
    holds none beyond [0x10FFFF]. *)
Definition utf8_encodable (c : char) : bool :=
  (((c <? 55296) || (57343 <? c)) && (c <? 1114112))%N.

Definition utf8_char (c : char) : list N :=
  (if c <? 128 then [c]
   else if c <? 2048 then [192 + c / 64; 128 + c mod 64]
   else if c <? 65536 then
     [224 + c / 4096; 128 + (c / 64) mod 64; 128 + c mod 64]
   else
     [240 + c / 262144; 128 + (c / 4096) mod 64; 128 + (c / 64) mod 64;
      128 + c mod 64])%N.

(** [s.encode('utf-8')]; [None] stands for [UnicodeEncodeError]. *)
Definition utf8_encode (s : pystr) : option (list N) :=
  if forallb utf8_encodable s then Some (concat (map utf8_char s)) else None.

Definition is_continuation (b : N) : bool := ((128 <=? b) && (b <? 192))%N.

(** [bytes.decode('utf-8')]; [None] stands for [UnicodeDecodeError], which
    is raised for a stray or missing continuation byte, an overlong form,
    a surrogate and a code point beyond the last one. *)
Fixpoint utf8_decode (bytes : list N) : option pystr :=
  match bytes with
  | [] => Some []
  | b0 :: r0 =>
      if (b0 <? 128)%N then cons b0 <$> utf8_decode r0
      else if (b0 <? 192)%N then None
      else if (b0 <? 224)%N then
        match r0 with
        | b1 :: r1 =>
            let c := ((b0 - 192) * 64 + (b1 - 128))%N in
            if is_continuation b1 && (128 <=? c)%N
            then cons c <$> utf8_decode r1 else None
        | _ => None
        end
      else if (b0 <? 240)%N then
        match r0 with
        | b1 :: b2 :: r2 =>
            let c := ((b0 - 224) * 4096 + (b1 - 128) * 64 + (b2 - 128))%N in
            if is_continuation b1 && is_continuation b2 && (2048 <=? c)%N
               && utf8_encodable c
            then cons c <$> utf8_decode r2 else None
        | _ => None
        end
      else if (b0 <? 248)%N then
        match r0 with
        | b1 :: b2 :: b3 :: r3 =>
            let c := ((b0 - 240) * 262144 + (b1 - 128) * 4096
                      + (b2 - 128) * 64 + (b3 - 128))%N in
            if is_continuation b1 && is_continuation b2 && is_continuation b3
               && (65536 <=? c)%N && utf8_encodable c
            then cons c <$> utf8_decode r3 else None
        | _ => None
        end
      else None
  end.

(** The translation of a text on its way to the file. *)
Definition newline_write (linesep s : pystr) : pystr :=
  concat (map (fun c => if (c =? 10)%N then linesep else [c]) s).

(** The translation of what was decoded from the file. *)
Fixpoint newline_read (s : pystr) : pystr :=
  match s with
  | [] => []
  | c :: r =>
      if (c =? 13)%N then
        match r with
        | d :: r' =>
            if (d =? 10)%N then 10%N :: newline_read r'
            else 10%N :: newline_read r
        | [] => [10%N]
        end
      else c :: newline_read r
  end.

(** [os.path.join] and [os.path.dirname] of [posixpath], for two
    arguments. *)
Definition is_slash (c : char) : bool := (c =? 47)%N.

Definition posix_join (a b : pystr) : pystr :=
  match b with
  | 47%N :: _ => b
  | _ =>
      match last a with
      | None => b
      | Some c => if is_slash c then a ++ b else a ++ [47%N] ++ b
      end
  end.

Fixpoint drop_name (reversed : pystr) : pystr :=
  match reversed with
  | [] => []
  | c :: r => if is_slash c then reversed else drop_name r
  end.

Definition posix_dirname (p : pystr) : pystr :=
  let head := reverse (drop_name (reverse p)) in
  if forallb is_slash head then head else str_rstrip is_slash head.

Module FileManager.

Definition triple_quote : pystr := [34; 34; 34]%N.

(** The text of a triple-quoted literal given line by line: every line is
    followed by a newline. *)
Definition text_of_lines (l : list pystr) : pystr :=
  concat (map (fun x => x ++ [10%N]) l).

(** What the two methods raise: [ValueError], [FileNotFoundError] and
    [Exception], each with its message. *)
Inductive file_exn :=
| Value_error (msg : pystr)
| File_not_found_error (msg : pystr)
| Exception (msg : pystr).

Inductive outcome (A : Type) :=
| Returned (a : A)
| Failed (e : file_exn).
Arguments Returned {A} a.
Arguments Failed {A} e.

(** The files: the bytes each existing path holds. *)
Abbreviation files := (gmap pystr (list N)).

Section Environment.

(** [str.strip]'s whitespace, [str.title], and the reading of the clock
    formatted by [strftime] are parameters. *)
Variable isspace : char -> bool.
Variable str_title : pystr -> pystr.
Variable timestamp : pystr.

(** So are the second reading of the clock, formatted for the file name,
    [os.linesep], [os.path.join] and [os.path.dirname], the message of the
    [OSError] with which the system refuses to open a path for writing, or
    for reading for another reason than that no such file exists ([None]
    when it does not refuse), and the messages of [UnicodeEncodeError] and
    [UnicodeDecodeError]. *)
Variable file_stamp : pystr.
Variable linesep : pystr.
Variable path_join : pystr -> pystr -> pystr.
Variable path_dirname : pystr -> pystr.
Variable open_refused : pystr -> option pystr.
Variable read_refused : pystr -> option pystr.
Variable encode_error : pystr -> pystr.
Variable decode_error : list N -> pystr.

Definition generate_file_header (code_type : pystr) : pystr :=
  text_of_lines
    [ triple_quote;
      str "Text to Code Generator - " ++ str_title code_type ++ str " Code";
      str "Generated on: " ++ timestamp;
      str "=====================================";
      [];
      str "This file was automatically generated by the Text to Code Generator";
      str "with Encryption tool. ";
      [];
      str "Code Type: " ++ str_title code_type;
      triple_quote;
      [];
      [] ].

Definition generate_file_footer : pystr :=
  text_of_lines
    [ [];
      [];
      [];
      triple_quote;
      str "End of generated code";
      str "=====================";
      [];
      str "This file was created by Text to Code Generator with Encryption.";
      str "For more information about this tool, check the main.py file.";
      triple_quote ].

(** The first loop of [_remove_file_headers_footers]: the indices of the
    first two lines that hold a triple quote. *)
Fixpoint header_scan (lines : list pystr) (i : Z)
    (start_remove end_remove quote_count : Z) : Z * Z :=
  match lines with
  | [] => (start_remove, end_remove)
  | line :: rest =>
      if str_in triple_quote line then
        let quote_count := quote_count + 1 in
        if quote_count =? 1 then
          header_scan rest (i + 1) i end_remove quote_count
        else if quote_count =? 2 then (start_remove, i)
        else header_scan rest (i + 1) start_remove end_remove quote_count
      else header_scan rest (i + 1) start_remove end_remove quote_count
  end.

(** The second loop, over the indices from the last to the first; it
    returns the lines it leaves. *)
Fixpoint footer_scan (indices : list Z) (lines : list pystr)
    (start_remove quote_count : Z) : result (list pystr) :=
  match indices with
  | [] => Ok lines
  | i :: rest =>
      line ← list_getitem lines i;
      if str_in triple_quote line then
        let quote_count := quote_count + 1 in
        if quote_count =? 1 then footer_scan rest lines i quote_count
        else if quote_count =? 2 then
          Ok (slice_to lines i ++ slice_from lines (start_remove + 1))
        else footer_scan rest lines start_remove quote_count
      else footer_scan rest lines start_remove quote_count
  end.

(** [while lines and not lines[0].strip(): lines.pop(0)] *)
Fixpoint pop_blank_front (lines : list pystr) : list pystr :=
  match lines with
  | [] => []
  | line :: rest =>
      if negb (truthy (str_strip isspace line)) then pop_blank_front rest
      else lines
  end.

(** [while lines and not lines[-1].strip(): lines.pop()]; the loop runs at
    most once per line. *)
Fixpoint pop_blank_back (fuel : nat) (lines : list pystr) : list pystr :=
  match fuel with
  | O => lines
  | S fuel' =>
      match last lines with
      | None => lines
      | Some line =>
          if negb (truthy (str_strip isspace line)) then
            pop_blank_back fuel' (removelast lines)
          else lines
      end
  end.

Definition remove_file_headers_footers (content : pystr) : result pystr :=
  let lines := str_split 10%N content in
  let '(start_remove, end_remove) := header_scan lines 0 (-1) (-1) 0 in
  let lines :=
    if negb (start_remove =? -1) && negb (end_remove =? -1) then
      slice_to lines start_remove ++ slice_from lines (end_remove + 1)
    else lines in
  lines ← footer_scan (py_range_down (len lines - 1) (-1)) lines (-1) 0;
  let lines := pop_blank_front lines in
  let lines := pop_blank_back (length lines) lines in
  Ok (str_join [10%N] lines).

(** [f"{code_type}_code_{timestamp}.py"] *)
Definition file_name (code_type : pystr) : pystr :=
  code_type ++ str "_code_" ++ file_stamp ++ str ".py".

(** The bytes one [file.write(text)] adds to the file. *)
Definition write_text (text : pystr) : option (list N) :=
  utf8_encode (newline_write linesep text).

(** [save_code]: the outcome and the files afterwards.  Opening the file
    empties it; a text that cannot be encoded raises in its [write], and
    what was written before stays in the file when the [with] statement
    closes it. *)
Definition save_code (base_directory code code_type : pystr) (fs : files)
  : outcome pystr * files :=
  if negb (truthy (str_strip isspace code)) then
    (Failed (Value_error (str "Cannot save empty code")), fs)
  else
    let filename := file_name code_type in
    let filepath := path_join base_directory filename in
    let failed (e : pystr) :=
      Failed (Exception (str "Failed to save file '" ++ filename
                           ++ str "': " ++ e)) in
    match open_refused filepath with
    | Some e => (failed e, fs)
    | None =>
        let header := generate_file_header code_type in
        match write_text header with
        | None =>
            (failed (encode_error (newline_write linesep header)),
             <[filepath := []]> fs)
        | Some b1 =>
            match write_text code with
            | None =>
                (failed (encode_error (newline_write linesep code)),
                 <[filepath := b1]> fs)
            | Some b2 =>
                let footer := generate_file_footer in
                match write_text footer with
                | None =>
                    (failed (encode_error (newline_write linesep footer)),
                     <[filepath := b1 ++ b2]> fs)
                | Some b3 =>
                    (Returned filename, <[filepath := b1 ++ b2 ++ b3]> fs)
                end
            end
        end
    end.

(** [load_code] *)
Definition load_code (base_directory filename : pystr) (fs : files)
  : outcome pystr :=
  if negb (truthy filename) then
    Failed (Value_error (str "Filename cannot be empty"))
  else
    let filepath :=
      if negb (truthy (path_dirname filename))
      then path_join base_directory filename else filename in
    let failed (e : pystr) :=
      Failed (Exception (str "Failed to read file '" ++ filename
                           ++ str "': " ++ e)) in
    match read_refused filepath with
    | Some e => failed e
    | None =>
        match fs !! filepath with
        | None =>
            Failed (File_not_found_error
                      (str "File '" ++ filename ++ str "' not found"))
        | Some bytes =>
            match utf8_decode bytes with
            | None => failed (decode_error bytes)
            | Some text =>
                match remove_file_headers_footers (newline_read text) with
                | Ok content => Returned content
                | Raise e => failed (str (exn_str e))
                end
            end
        end
    end.

End Environment.

End FileManager.

(** * [text_to_code.py]: the templates *)

(** ** Regular expressions and built-ins the templates use *)

(** [str(n)] for an integer, in decimal. *)
Definition int_str (n : Z) : string := NilZero.string_of_int (Z.to_int n).

(** The character classes of the patterns. *)
Definition is_ascii_upper (c : char) : bool := ((65 <=? c) && (c <=? 90))%N.
Definition is_ascii_lower (c : char) : bool := ((97 <=? c) && (c <=? 122))%N.
Definition is_ascii_digit (c : char) : bool := ((48 <=? c) && (c <=? 57))%N.

(** [[a-zA-Z0-9]] *)
Definition is_alnum (c : char) : bool :=
  is_ascii_lower c || is_ascii_upper c || is_ascii_digit c.

(** [[a-zA-Z0-9_]] *)
Definition is_word_char (c : char) : bool := is_alnum c || (c =? 95)%N.

(** [[.!?]] *)
Definition is_sentence_end (c : char) : bool :=
  ((c =? 46) || (c =? 33) || (c =? 63))%N.

(** [re.findall(r'[class]+', s)]: the maximal runs of symbols of the
    class, in order; [cur] is the run being read. *)
Fixpoint findall_runs (p : char -> bool) (s cur : pystr) : list pystr :=
  match s with
  | [] => if truthy cur then [cur] else []
  | c :: s' =>
      if p c then findall_runs p s' (cur ++ [c])
      else (if truthy cur then [cur] else []) ++ findall_runs p s' []
  end.

(** [re.split(r'[class]+', s)]: the pieces between the maximal runs of
    symbols of the class; [cur] is the piece being read and [in_run] tells
    that the last symbol read was of the class. *)
Fixpoint split_runs (p : char -> bool) (s cur : pystr) (in_run : bool)
  : list pystr :=
  match s with
  | [] => [cur]
  | c :: s' =>
      if p c then
        if in_run then split_runs p s' [] true
        else cur :: split_runs p s' [] true
      else split_runs p s' (cur ++ [c]) false
  end.

(** [re.sub(r'[^a-zA-Z0-9_]', '_', s)] *)
Definition sub_non_word (s : pystr) : pystr :=
  map (fun c => if is_word_char c then c else 95%N) s.

(** [re.sub(r'_+', '_', s)]: every run of underscores becomes one. *)
Fixpoint sub_underscore_runs (s : pystr) : pystr :=
  match s with
  | [] => []
  | c :: s' =>
      if (c =? 95)%N then
        match s' with
        | c' :: _ => if (c' =? 95)%N then sub_underscore_runs s'
                     else 95%N :: sub_underscore_runs s'
        | [] => [95%N]
        end
      else c :: sub_underscore_runs s'
  end.

(** [s.replace('"', '\\"')] *)
Definition escape_quotes (s : pystr) : pystr :=
  concat (map (fun c => if (c =? 34)%N then [92; 34]%N else [c]) s).

(** [s.capitalize()] on ASCII text: the first symbol upper-cased, the
    others lower-cased. *)
Definition ascii_capitalize (s : pystr) : pystr :=
  match s with
  | [] => []
  | c :: r =>
      (if is_ascii_lower c then (c - 32)%N else c)
        :: map (fun x => if is_ascii_upper x then (x + 32)%N else x) r
  end.

(** ** class TextToCodeConverter *)

Module TextToCodeConverter.

Section Environment.

(** The whitespace of [str.strip] and [str.split], [str.lower], what
    [str.capitalize], [str.isalpha] and [str.isdigit] do outside ASCII, and
    the reading of the clock formatted by [strftime], are parameters. *)
Variable isspace : char -> bool.
Variable str_lower : pystr -> pystr.
Variable unicode_capitalize : pystr -> pystr.
Variable unicode_isalpha : char -> bool.
Variable unicode_isdigit : char -> bool.
Variable now : pystr.

Definition str_capitalize (s : pystr) : pystr :=
  if forallb (fun c => (c <? 128)%N) s then ascii_capitalize s
  else unicode_capitalize s.

Definition char_isalpha (c : char) : bool :=
  if (c <? 128)%N then is_ascii_lower c || is_ascii_upper c
  else unicode_isalpha c.

Definition char_isdigit (c : char) : bool :=
  if (c <? 128)%N then is_ascii_digit c else unicode_isdigit c.

(** [s.split()] *)
Definition str_words (s : pystr) : list pystr :=
  findall_runs (fun c => negb (isspace c)) s [].

Definition split_into_sentences (text : pystr) : list pystr :=
  map (str_strip isspace)
    (List.filter (fun s => truthy (str_strip isspace s))
       (split_runs is_sentence_end text [] false)).

Definition create_identifier (text : pystr) : result pystr :=
  let identifier := sub_non_word (str_lower text) in
  starts_with_digit ←
    (if truthy identifier then
       c ← str_getitem identifier 0; Ok (char_isdigit c)
     else Ok false);
  let identifier :=
    if starts_with_digit : bool then str "func_" ++ identifier
    else identifier in
  let identifier := sub_underscore_runs identifier in
  let identifier := str_strip (fun c => (c =? 95)%N) identifier in
  let identifier :=
    if negb (truthy identifier) || (len identifier <? 3)
    then str "generated_item" else identifier in
  Ok identifier.

Definition create_class_name (text : pystr) : result pystr :=
  let words := findall_runs is_alnum text [] in
  if negb (truthy words) then Ok (str "GeneratedClass")
  else
    let class_name := str_join [] (map str_capitalize (slice_to words 3)) in
    not_valid ←
      (if negb (truthy class_name) then Ok true
       else c ← str_getitem class_name 0; Ok (negb (char_isalpha c)));
    Ok (if not_valid : bool then str "Generated" ++ class_name else class_name).

(** The loop of [_create_print_statements]; [i] is the number
    [enumerate] gives to the first sentence left. *)
Fixpoint print_statements_loop (sentences : list pystr) (i : Z)
    (code_lines : list pystr) : list pystr :=
  match sentences with
  | [] => code_lines
  | sentence :: rest =>
      if truthy (str_strip isspace sentence) then
        let clean_sentence := escape_quotes (str_strip isspace sentence) in
        print_statements_loop rest (i + 1)
          (code_lines ++
             [ str "print(" ++ [34%N] ++ str "Statement " ++ str (int_str i)
                 ++ str ": " ++ clean_sentence ++ [34%N] ++ str ")" ])
      else print_statements_loop rest (i + 1) code_lines
  end.

Definition create_print_statements (text : pystr) : result pystr :=
  let sentences := split_into_sentences text in
  let code_lines :=
    [ str "# Generated Print Statements"; str "# Created on: " ++ now; [] ] in
  let code_lines := print_statements_loop sentences 1 code_lines in
  let code_lines :=
    code_lines ++ [ []; str "# End of generated print statements" ] in
  Ok (str_join [10%N] code_lines).

(** The first [n] symbols of the text, followed by three dots when the
    text is longer: what the templates put between quotes. *)
Definition excerpt (text : pystr) (n : Z) : pystr :=
  slice_to text n ++ (if n <? len text then str "..." else []).

(** The loop of [_create_function_definition]. *)
Fixpoint function_body_loop (sentences : list pystr)
    (code_lines : list pystr) : list pystr :=
  match sentences with
  | [] => code_lines
  | sentence :: rest =>
      if truthy (str_strip isspace sentence) then
        let clean_sentence := escape_quotes (str_strip isspace sentence) in
        function_body_loop rest
          (code_lines ++
             [ str "    print(" ++ [34%N] ++ clean_sentence ++ [34%N] ++ str ")" ])
      else function_body_loop rest code_lines
  end.

Definition create_function_definition (text : pystr) : result pystr :=
  let words := slice_to (str_words text) 3 in
  function_name ← create_identifier (str_join (str "_") words);
  let sentences := split_into_sentences text in
  let code_lines :=
    [ str "# Generated Function Definition";
      str "# Created on: " ++ now;
      [];
      str "def " ++ function_name ++ str "():";
      str "    " ++ FileManager.triple_quote;
      str "    Function generated from user input:";
      str "    " ++ [34%N] ++ excerpt text 60 ++ [34%N];
      str "    " ++ FileManager.triple_quote ] in
  let code_lines := function_body_loop sentences code_lines in
  let code_lines :=
    code_lines ++
      [ []; []; str "# Example usage:"; str "if __name__ == '__main__':";
        str "    " ++ function_name ++ str "()" ] in
  Ok (str_join [10%N] code_lines).

(** The loop of [_create_class_definition] over [sentences[:3]]. *)
Fixpoint class_methods_loop (sentences : list pystr) (i : Z)
    (code_lines : list pystr) : result (list pystr) :=
  match sentences with
  | [] => Ok code_lines
  | sentence :: rest =>
      if truthy (str_strip isspace sentence) then
        method_name ← create_identifier (str "method_" ++ str (int_str i));
        let clean_sentence := escape_quotes (str_strip isspace sentence) in
        class_methods_loop rest (i + 1)
          (code_lines ++
             [ [];
               str "    def " ++ method_name ++ str "(self):";
               str "        " ++ FileManager.triple_quote ++ str "Method "
                 ++ str (int_str i) ++ str " generated from user input."
                 ++ FileManager.triple_quote;
               str "        print(" ++ [34%N] ++ clean_sentence ++ [34%N]
                 ++ str ")";
               str "        return " ++ [34%N] ++ clean_sentence ++ [34%N] ])
      else class_methods_loop rest (i + 1) code_lines
  end.

Definition create_class_definition (text : pystr) : result pystr :=
  let words := slice_to (str_words text) 2 in
  class_name ← create_class_name (str_join (str "_") words);
  let sentences := split_into_sentences text in
  let code_lines :=
    [ str "# Generated Class Definition";
      str "# Created on: " ++ now;
      [];
      str "class " ++ class_name ++ str ":";
      str "    " ++ FileManager.triple_quote;
      str "    Class generated from user input:";
      str "    " ++ [34%N] ++ excerpt text 60 ++ [34%N];
      str "    " ++ FileManager.triple_quote;
      [];
      str "    def __init__(self):";
      str "        " ++ FileManager.triple_quote
        ++ str "Initialize the class instance." ++ FileManager.triple_quote;
      str "        self.description = " ++ [34%N] ++ excerpt text 50 ++ [34%N];
      [];
      str "    def display_info(self):";
      str "        " ++ FileManager.triple_quote
        ++ str "Display information about this instance."
        ++ FileManager.triple_quote;
      str "        print(f" ++ [34%N] ++ str "Description: {self.description}"
        ++ [34%N] ++ str ")" ] in
  code_lines ← class_methods_loop (slice_to sentences 3) 1 code_lines;
  let code_lines :=
    code_lines ++
      [ []; []; str "# Example usage:"; str "if __name__ == '__main__':";
        str "    obj = " ++ class_name ++ str "()";
        str "    obj.display_info()";
        if 0 <? len sentences then str "    obj.method_1()" else [] ] in
  Ok (str_join [10%N] (List.filter (fun l => truthy l) code_lines)).

(** The inner loop of [_create_comment_block], which fills lines of at
    most [max_width] symbols with the words of one line of the text. *)
Fixpoint wrap_loop (max_width : Z) (words : list pystr)
    (current_line : pystr) (code_lines : list pystr)
  : pystr * list pystr :=
  match words with
  | [] => (current_line, code_lines)
  | word :: rest =>
      if len (current_line ++ str " " ++ word) <=? max_width then
        wrap_loop max_width rest
          (current_line
             ++ (if truthy current_line then str " " ++ word else word))
          code_lines
      else
        wrap_loop max_width rest word
          (if truthy current_line then code_lines ++ [current_line]
           else code_lines)
  end.

(** The outer loop, over the lines of the text. *)
Fixpoint comment_lines_loop (max_width : Z) (lines : list pystr)
    (code_lines : list pystr) : list pystr :=
  match lines with
  | [] => code_lines
  | line :: rest =>
      if truthy (str_strip isspace line) then
        let words := str_words (str_strip isspace line) in
        let '(current_line, code_lines) :=
          wrap_loop max_width words [] code_lines in
        let code_lines :=
          if truthy current_line then code_lines ++ [current_line]
          else code_lines in
        comment_lines_loop max_width rest (code_lines ++ [[]])
      else comment_lines_loop max_width rest code_lines
  end.

Definition create_comment_block (text : pystr) : result pystr :=
  let lines := str_split 10%N text in
  let max_width := 70 in
  let code_lines :=
    [ FileManager.triple_quote;
      str "Generated Comment Block - " ++ now;
      repeat 61%N (Z.to_nat max_width);
      [] ] in
  let code_lines := comment_lines_loop max_width lines code_lines in
  let code_lines :=
    code_lines ++
      [ repeat 61%N (Z.to_nat max_width);
        FileManager.triple_quote;
        [];
        str "# This is a comment block generated from your text";
        str "# You can use this as documentation in your Python projects" ] in
  Ok (str_join [10%N] code_lines).

(** [self.templates] *)
Definition templates : gmap Z (pystr -> result pystr) :=
  <[1 := create_print_statements]>
    (<[2 := create_function_definition]>
       (<[3 := create_class_definition]>
          (<[4 := create_comment_block]> ∅))).

Definition convert_text (text : pystr) (template_type : Z) : result pystr :=
  match templates !! template_type with
  | None =>
      Raise (ValueError
               (String.append "Invalid template type: " (int_str template_type)))
  | Some template =>
      if negb (truthy (str_strip isspace text)) then
        Raise (ValueError "Input text cannot be empty")
      else template text
  end.

End Environment.

End TextToCodeConverter.

(** * [main.py]: the two handlers that call the cipher

    A handler is modelled as a function of the application's state and of
    what the calls of [input] return; it gives the new state and what was
    written, in order. *)

(** What a handler writes: the argument of a [print], or the prompt of an
    [input]. *)
Inductive event :=
| Print (s : pystr)
| Prompt (s : pystr).

Module TextToCodeApp.

(** The two attributes of the application the handlers read and write. *)
Record app := {
  generated_code : pystr;
  encrypted_code : pystr
}.

(** The cross mark, the lock, the check mark and the open lock. *)
Definition cross : pystr := [10060%N].
Definition lock : pystr := [128274%N].
Definition check : pystr := [9989%N].
Definition open_lock : pystr := [128275%N].

Section Environment.

(** The whitespace of [str.strip] and [int] on a string, which gives an
    integer or raises [ValueError] ([None]), are parameters. *)
Variable isspace : char -> bool.
Variable py_int : pystr -> option Z.

Definition encrypt_code (self : app) (raw_shift : pystr) : app * list event :=
  if negb (truthy (generated_code self)) then
    (self,
     [ Print (cross ++ str " No code to encrypt! Please generate code first.") ])
  else
    let out :=
      [ Print ([10%N] ++ lock ++ str " CODE ENCRYPTION");
        Print (repeat 45%N 20);
        Prompt (str "Enter Caesar cipher shift value (1-25): ") ] in
    match py_int (str_strip isspace raw_shift) with
    | None =>
        (self, out ++ [ Print (cross ++ str " Please enter a valid number!") ])
    | Some shift =>
        if negb ((1 <=? shift) && (shift <=? 25)) then
          (self,
           out ++ [ Print (cross ++ str " Shift value must be between 1 and 25!") ])
        else
          match CaesarCipher.encrypt (generated_code self) shift with
          | Ok encrypted =>
              ({| generated_code := generated_code self;
                  encrypted_code := encrypted |},
               out ++
                 [ Print (check ++ str " Code encrypted successfully!");
                   Print (str "Encryption shift used: " ++ str (int_str shift)) ])
          | Raise e =>
              (self,
               out ++
                 [ Print (cross ++ str " Error encrypting code: "
                            ++ str (exn_str e)) ])
          end
    end.

(** The part of [decrypt_code] after the encrypted code has been chosen. *)
Definition decrypt_chosen (encrypted_input raw_shift : pystr)
    (out : list event) : list event :=
  let out :=
    out ++
      [ Prompt (str "Enter Caesar cipher shift value used for encryption: ") ] in
  match py_int (str_strip isspace raw_shift) with
  | None => out ++ [ Print (cross ++ str " Please enter a valid number!") ]
  | Some shift =>
      if negb ((1 <=? shift) && (shift <=? 25)) then
        out ++ [ Print (cross ++ str " Shift value must be between 1 and 25!") ]
      else
        match CaesarCipher.decrypt encrypted_input shift with
        | Ok decrypted_code =>
            out ++
              [ Print ([10%N] ++ check ++ str " Code decrypted successfully!");
                Print ([10%N] ++ str "Decrypted Code:");
                Print (repeat 45%N 40);
                Print decrypted_code;
                Print (repeat 45%N 40) ]
        | Raise e =>
            out ++
              [ Print (cross ++ str " Error decrypting code: "
                         ++ str (exn_str e)) ]
        end
  end.

(** [raw_code] is what [input] returns when the encrypted code is asked
    for, which happens only when none is in memory. *)
Definition decrypt_code (self : app) (raw_code raw_shift : pystr)
  : list event :=
  let out :=
    [ Print ([10%N] ++ open_lock ++ str " CODE DECRYPTION");
      Print (repeat 45%N 20) ] in
  if negb (truthy (encrypted_code self)) then
    let out :=
      out ++
        [ Print (str "No encrypted code in memory. Please enter encrypted code:");
          Prompt (str "Encrypted code: ") ] in
    let encrypted_input := str_strip isspace raw_code in
    if negb (truthy encrypted_input) then
      out ++ [ Print (cross ++ str " Empty encrypted code provided!") ]
    else decrypt_chosen encrypted_input raw_shift out
  else
    decrypt_chosen (encrypted_code self) raw_shift
      (out ++ [ Print (str "Using encrypted code from memory.") ]).

End Environment.

End TextToCodeApp.

(** Following the specification's words for the alphabet: upper-case
    letters, lower-case letters, digits, punctuation, space, newline, tab. *)
Definition upper_first_alphabet : pystr :=
  PyString.ascii_uppercase ++ PyString.ascii_lowercase ++ PyString.digits
    ++ PyString.punctuation ++ [32; 10; 9]%N.

(** The number of occurrences of [c] in [t], used to state what the
    analysis reports. *)
Definition occurrences (c : char) (t : pystr) : Z :=
  len (filter (fun x => x = c) t).

(** The distinct symbols of [t] in the order of their first occurrence. *)
Definition first_seen (t : pystr) : list char :=
  reverse (remove_dups (reverse t)).

(** [a] first occurs in [t] before [b] first does. *)
Definition first_before (t : pystr) (a b : char) : Prop :=
  ∃ i j, str_find t a = Some i ∧ str_find t b = Some j ∧ i < j.

(** The frequency table of [t]: each distinct symbol with its number of
    occurrences, in the order of first occurrence. *)
Definition frequency_table (t : pystr) : dict :=
  (fun k => (k, occurrences k t)) <$> first_seen t.

(** What both loops do to one symbol, for a displacement [k] of its
    position: [k] is [shift] in [encrypt] and [- shift] in [decrypt]. *)
Definition shift_symbol (k : Z) (c : char) : char :=
  match str_find CaesarCipher.charset c with
  | Some p =>
      default c (CaesarCipher.charset !! Z.to_nat ((p + k) mod 97))
  | None => c
  end.

(** The shifts contributed by the five patterns, in the order of
    [common_patterns], given which of them were found. *)
Definition contributed (b3 b5 b7 b11 b13 : bool) : list Z :=
  (if b3 then [3] else []) ++ (if b5 then [5] else [])
    ++ (if b7 then [7] else []) ++ (if b11 then [11] else [])
    ++ (if b13 then [13] else []).

(** The number of symbols of [t] that are in [string.printable]. *)
Definition printable_count (t : pystr) : Z :=
  len (filter (fun c => str_contains PyString.printable c = true) t).

(** The sum of the counts of a frequency table. *)
Definition sum_values (d : dict) : Z := foldr Z.add 0 (snd <$> d).

(** The lines a turn of the wrapping loop has at hand: those appended so far and
    the one being filled, when it is not empty. *)
Definition lines_so_far (appended : list pystr) (current_line : pystr)
  : list pystr :=
  appended ++ (if truthy current_line then [current_line] else []).

(** The lines made from one line of the text are its block: joined by
    spaces they are the words of the line, and each of them is within the
    width or is one of the words. *)
Definition block_of (isspace : char -> bool) (max_width : Z) (line : pystr)
    (block : list pystr) : Prop :=
  str_join (str " ") block
  = str_join (str " ")
      (TextToCodeConverter.str_words isspace (str_strip isspace line))
  /\ Forall (fun l => len l <= max_width
                       \/ l ∈ TextToCodeConverter.str_words isspace
                               (str_strip isspace line)) block.

(** A symbol that a text file gives back as it was written: it can be
    encoded and it is not a carriage return. *)
Definition text_char (c : char) : bool :=
  utf8_encodable c && negb (c =? 13)%N.

(** [save_code] and [load_code] of a [FileManager] on a POSIX system at a
    given time, on a file system that refuses nothing; the error messages
    of the codec are left out. *)
Definition posix_save_code : pystr → pystr → pystr → FileManager.files →
    FileManager.outcome pystr * FileManager.files :=
  FileManager.save_code py_isspace ascii_title (str "2024-01-01 10:00:00")
    (str "20240101_100000") [10%N] posix_join (λ _, None) (λ _, []).

Definition posix_load_code : pystr → pystr → FileManager.files →
    FileManager.outcome pystr :=
  FileManager.load_code py_isspace posix_join posix_dirname (λ _, None)
    (λ _, []).

(** Saving and then loading what was saved. *)
Definition posix_save_then_load (code code_type : pystr)
  : FileManager.outcome pystr :=
  match posix_save_code (str "generated_files") code code_type ∅ with
  | (FileManager.Returned filename, fs) =>
      posix_load_code (str "generated_files") filename fs
  | (FileManager.Failed e, _) => FileManager.Failed e
  end.

(** A text of 160 symbols in which [a] occurs 23 times and no symbol
    occurs more often: its exact percentage is 14.375. *)
Definition tie_text : pystr :=
  repeat 97%N 23 ++ repeat 98%N 23 ++ repeat 99%N 23 ++ repeat 100%N 23
    ++ repeat 101%N 23 ++ repeat 102%N 23 ++ repeat 103%N 22.

(** * Properties *)

Example encrypt_abc : CaesarCipher.encrypt (str "abc") 3 = Ok (str "def").
Proof. vm_compute. reflexivity. Qed.

Example encrypt_wrap : CaesarCipher.encrypt (str "xyz") 3 = Ok (str "ABC").
Proof. vm_compute. reflexivity. Qed.

Example charset_len : len CaesarCipher.charset = 97.
Proof. reflexivity. Qed.

Example truediv_third :
  int_truediv 1 3 = Ok (PrimFloat.div 1 3) ∧ int_truediv (-1) 3 = Ok (PrimFloat.div (-1) 3).
Proof. split; vm_compute; reflexivity. Qed.

(** The overflow test agrees with the rounding at the boundary. *)
Example truediv_boundary :
  ratio_to_SF false (2 ^ 1024 - 2 ^ 970) 1 = S754_infinity false
  ∧ int_truediv (2 ^ 1024 - 2 ^ 970) 1
    = Raise (OverflowError "integer division result too large for a float")
  ∧ ratio_to_SF false (2 ^ 1024 - 2 ^ 970 - 1) 1
    = S754_finite false 9007199254740991 971
  ∧ int_truediv (2 ^ 1024 - 2 ^ 970 - 1) 1
    = Ok (SF2Prim (S754_finite false 9007199254740991 971)).
Proof. repeat split; vm_compute; reflexivity. Qed.

Example round2_examples :
  py_round2 0.125 = 0.12%float
  ∧ py_round2 3.125 = 3.12%float
  ∧ py_round2 9.375 = 9.38%float
  ∧ (r ← int_truediv 1 3; Ok (py_round2 (PrimFloat.mul r 100))) = Ok 33.33%float
  ∧ (r ← int_truediv 2 3; Ok (py_round2 (PrimFloat.mul r 100))) = Ok 66.67%float.
Proof. repeat split; vm_compute; reflexivity. Qed.

Example suggest_print :
  CaesarCipher.generate_shift_suggestions ascii_lower (str "PRINT(x) def f") = [3; 7].
Proof. vm_compute. reflexivity. Qed.

Example suggest_none :
  CaesarCipher.generate_shift_suggestions ascii_lower (str "zzz") = [1; 3; 5; 7; 13].
Proof. vm_compute. reflexivity. Qed.

Example analyze_aabb :
  CaesarCipher.analyze_encrypted_text (str "aabb") =
  Ok (CaesarCipher.Analysis
        {| CaesarCipher.an_length := 4;
           CaesarCipher.an_unique_chars := 2;
           CaesarCipher.an_char_frequency := [(97%N, 2); (98%N, 2)];
           CaesarCipher.an_most_common_char :=
             Some {| CaesarCipher.mc_char := 97%N;
                     CaesarCipher.mc_count := 2;
                     CaesarCipher.mc_percentage := 50%float |};
           CaesarCipher.an_printable_chars := 4;
           CaesarCipher.an_non_printable_chars := 0 |}).
Proof. vm_compute. reflexivity. Qed.

(** ** Strings: membership, search and indexing *)

Section StringLemmas.

Implicit Types (s : pystr) (c : char).

Lemma str_contains_elem_of s c : str_contains s c = true ↔ c ∈ s.
Proof.
  induction s as [|x s IH]; simpl.
  - split; [discriminate | intros H; inversion H].
  - destruct (N.eqb_spec x c) as [->|Hne].
    + split; [intros _; left | reflexivity].
    + rewrite IH. split; [intros H; by right |].
      intros H. inversion H; subst; [congruence | assumption].
Qed.

Lemma str_contains_find s c :
  str_contains s c = true → ∃ p, str_find s c = Some p.
Proof.
  induction s as [|x s IH]; simpl; [discriminate |].
  destruct (N.eqb x c); [eauto |].
  intros H. destruct (IH H) as [p ->]. simpl. eauto.
Qed.

Lemma str_contains_find_none s c :
  str_contains s c = false → str_find s c = None.
Proof.
  induction s as [|x s IH]; simpl; [reflexivity |].
  destruct (N.eqb x c); [discriminate |].
  intros H. by rewrite IH.
Qed.

(** A found index is in range and holds the symbol. *)
Lemma str_find_lookup s c p :
  str_find s c = Some p → 0 ≤ p < len s ∧ s !! Z.to_nat p = Some c.
Proof.
  unfold len. revert p. induction s as [|x s IH]; intros p; simpl; [discriminate |].
  destruct (N.eqb_spec x c) as [->|Hne].
  - intros [= <-]. split; [lia | reflexivity].
  - destruct (str_find s c) as [q|] eqn:Hq; simpl; [|discriminate].
    intros [= <-]. destruct (IH q eq_refl) as [Hr Hl].
    split; [lia |].
    replace (Z.to_nat (Z.succ q)) with (S (Z.to_nat q)) by lia. exact Hl.
Qed.

(** In a sequence without repetition, search inverts indexing. *)
Lemma str_find_NoDup s c (i : nat) :
  NoDup s → s !! i = Some c → str_find s c = Some (Z.of_nat i).
Proof.
  intros Hnd. revert i. induction Hnd as [|x s Hx Hnd IH]; intros i; [done |].
  destruct i as [|i]; simpl.
  - intros [= ->]. by rewrite N.eqb_refl.
  - intros Hi. destruct (N.eqb_spec x c) as [->|Hne].
    + exfalso. apply Hx. eapply list_elem_of_lookup_2; eauto.
    + rewrite (IH i Hi). simpl. f_equal. lia.
Qed.

Lemma str_getitem_in_range s i :
  0 ≤ i < len s →
  ∃ c, s !! Z.to_nat i = Some c ∧ str_getitem s i = Ok c.
Proof.
  unfold len, str_getitem. intros Hi.
  destruct (lookup_lt_is_Some_2 s (Z.to_nat i)) as [c Hc]; [lia |].
  exists c. split; [exact Hc |].
  rewrite (proj2 (Z.ltb_ge i 0)) by lia. cbv zeta.
  rewrite (proj2 (Z.ltb_ge i 0)) by lia. by rewrite Hc.
Qed.

End StringLemmas.

(** ** The alphabet *)

Lemma charset_NoDup : NoDup CaesarCipher.charset.
Proof. apply (bool_decide_unpack _). vm_compute. reflexivity. Qed.

Lemma charset_length : length CaesarCipher.charset = 97%nat.
Proof. reflexivity. Qed.

(** C9, as the code has it: the alphabet is the lower-case letters, then
    the upper-case letters, the digits, the punctuation, space, newline and
    tab; no symbol occurs at two positions, so every alphabet symbol has
    exactly one position, and it is the one [index] returns in [encrypt]
    and [decrypt] alike, which both read [self.charset]. *)
Theorem charset_symbols_distinct :
  CaesarCipher.charset =
    PyString.ascii_lowercase ++ PyString.ascii_uppercase ++ PyString.digits
      ++ PyString.punctuation ++ str " " ++ [10%N] ++ [9%N]
  ∧ NoDup CaesarCipher.charset
  ∧ (∀ (i j : nat) (c : char),
        CaesarCipher.charset !! i = Some c →
        CaesarCipher.charset !! j = Some c → i = j)
  ∧ (∀ c : char, c ∈ CaesarCipher.charset →
        ∃ p : nat, CaesarCipher.charset !! p = Some c
                   ∧ str_index CaesarCipher.charset c = Ok (Z.of_nat p)).
Proof.
  split; [reflexivity |]. split; [exact charset_NoDup |]. split.
  - intros i j c Hi Hj.
    eapply NoDup_lookup; eauto using charset_NoDup.
  - intros c Hc. apply list_elem_of_lookup_1 in Hc as [p Hp].
    exists p. split; [exact Hp |].
    unfold str_index. by rewrite (str_find_NoDup _ _ _ charset_NoDup Hp).
Qed.

(** C9, as stated, fails on the order: position 0 of the alphabet holds
    the lower-case [a] and the upper-case [A] is at position 26, so the
    alphabet is not the upper-case-first sequence, and a wrap from [x]
    lands on [A] where the upper-case-first order would give [0]. *)
Lemma charset_not_upper_first :
  CaesarCipher.charset !! 0%nat = Some 97%N
  ∧ upper_first_alphabet !! 0%nat = Some 65%N
  ∧ CaesarCipher.charset !! 26%nat = Some 65%N
  ∧ CaesarCipher.charset ≠ upper_first_alphabet
  ∧ CaesarCipher.encrypt (str "x") 3 = Ok (str "A").
Proof.
  split; [reflexivity |]. split; [reflexivity |]. split; [reflexivity |].
  split; [|vm_compute; reflexivity].
  intros H. apply (f_equal (fun l => l !! 0%nat)) in H. vm_compute in H.
  discriminate.
Qed.

(** ** One symbol of [encrypt] and [decrypt] *)

Lemma encrypt_loop_map (t : pystr) (s : Z) (acc : list char) :
  CaesarCipher.encrypt_loop t s acc = Ok (acc ++ map (shift_symbol s) t).
Proof.
  revert acc. induction t as [|c t IH]; intros acc.
  - cbn. by rewrite app_nil_r.
  - cbn [CaesarCipher.encrypt_loop map]. unfold shift_symbol at 1.
    destruct (str_contains CaesarCipher.charset c) eqn:Hc.
    + destruct (str_contains_find _ _ Hc) as [p Hp].
      unfold str_index. rewrite Hp. cbn [mbind result_bind].
      change (len CaesarCipher.charset) with 97.
      destruct (str_getitem_in_range CaesarCipher.charset ((p + s) mod 97))
        as (c' & Hl & Hg).
      { change (len CaesarCipher.charset) with 97. apply Z.mod_pos_bound. lia. }
      rewrite Hg, Hl. cbn [mbind result_bind default from_option id].
      rewrite IH. by rewrite <- app_assoc.
    + rewrite (str_contains_find_none _ _ Hc).
      rewrite IH. by rewrite <- app_assoc.
Qed.

Lemma decrypt_loop_map (t : pystr) (s : Z) (acc : list char) :
  CaesarCipher.decrypt_loop t s acc = Ok (acc ++ map (shift_symbol (- s)) t).
Proof.
  revert acc. induction t as [|c t IH]; intros acc.
  - cbn. by rewrite app_nil_r.
  - cbn [CaesarCipher.decrypt_loop map]. unfold shift_symbol at 1.
    destruct (str_contains CaesarCipher.charset c) eqn:Hc.
    + destruct (str_contains_find _ _ Hc) as [p Hp].
      unfold str_index. rewrite Hp. cbn [mbind result_bind].
      change (len CaesarCipher.charset) with 97.
      replace (p - s) with (p + - s) by lia.
      destruct (str_getitem_in_range CaesarCipher.charset ((p + - s) mod 97))
        as (c' & Hl & Hg).
      { change (len CaesarCipher.charset) with 97. apply Z.mod_pos_bound. lia. }
      rewrite Hg, Hl. cbn [mbind result_bind default from_option id].
      rewrite IH. by rewrite <- app_assoc.
    + rewrite (str_contains_find_none _ _ Hc).
      rewrite IH. by rewrite <- app_assoc.
Qed.

(** A symbol at position [p] goes to position [(p + k) mod 97]. *)
Lemma shift_symbol_at (k : Z) (c : char) (p : nat) :
  CaesarCipher.charset !! p = Some c →
  CaesarCipher.charset !! Z.to_nat ((Z.of_nat p + k) mod 97)
    = Some (shift_symbol k c).
Proof.
  intros Hp. unfold shift_symbol.
  rewrite (str_find_NoDup _ _ _ charset_NoDup Hp).
  destruct (lookup_lt_is_Some_2 CaesarCipher.charset
              (Z.to_nat ((Z.of_nat p + k) mod 97))) as [c' Hc'].
  { rewrite charset_length.
    pose proof (Z.mod_pos_bound (Z.of_nat p + k) 97 ltac:(lia)). lia. }
  by rewrite Hc'.
Qed.

Lemma shift_symbol_outside (k : Z) (c : char) :
  c ∉ CaesarCipher.charset → shift_symbol k c = c.
Proof.
  intros Hc. unfold shift_symbol.
  rewrite str_contains_find_none; [reflexivity |].
  destruct (str_contains CaesarCipher.charset c) eqn:E; [|reflexivity].
  apply str_contains_elem_of in E. contradiction.
Qed.

(** Displacing by [k] and then by [- k] gives the symbol back. *)
Lemma shift_symbol_inverse (k : Z) (c : char) :
  shift_symbol (- k) (shift_symbol k c) = c.
Proof.
  destruct (decide (c ∈ CaesarCipher.charset)) as [Hin|Hout].
  - apply list_elem_of_lookup_1 in Hin as [p Hp].
    pose proof (lookup_lt_Some _ _ _ Hp) as Hlt. rewrite charset_length in Hlt.
    pose proof (shift_symbol_at k c p Hp) as H1.
    pose proof (shift_symbol_at (- k) _ _ H1) as H2.
    pose proof (Z.mod_pos_bound (Z.of_nat p + k) 97 ltac:(lia)) as Hb.
    rewrite Z2Nat.id in H2 by lia.
    replace (((Z.of_nat p + k) mod 97 + - k) mod 97) with (Z.of_nat p) in H2.
    + rewrite Nat2Z.id in H2. congruence.
    + rewrite Zplus_mod_idemp_l.
      replace (Z.of_nat p + k + - k) with (Z.of_nat p) by lia.
      symmetry. apply Z.mod_small. lia.
  - rewrite (shift_symbol_outside k c Hout).
    by apply shift_symbol_outside.
Qed.

Lemma truthy_nonempty {A} (l : list A) : l ≠ [] → truthy l = true.
Proof. by destruct l. Qed.

Lemma shift_in_range (s : Z) :
  1 ≤ s ≤ 25 → negb ((1 <=? s) && (s <=? 25)) = false.
Proof.
  intros [H1 H2]. apply Z.leb_le in H1, H2. by rewrite H1, H2.
Qed.

Lemma shift_out_of_range (s : Z) :
  ¬ (1 ≤ s ≤ 25) → negb ((1 <=? s) && (s <=? 25)) = true.
Proof.
  intros H. destruct (Z.leb_spec 1 s), (Z.leb_spec s 25); simpl; try reflexivity.
  exfalso. apply H. lia.
Qed.

(** With valid arguments both methods return the symbol-wise image. *)
Lemma encrypt_valid (t : pystr) (s : Z) :
  t ≠ [] → 1 ≤ s ≤ 25 →
  CaesarCipher.encrypt t s = Ok (map (shift_symbol s) t).
Proof.
  intros Ht Hs. unfold CaesarCipher.encrypt.
  rewrite (shift_in_range s Hs), (truthy_nonempty t Ht). apply encrypt_loop_map.
Qed.

Lemma decrypt_valid (t : pystr) (s : Z) :
  t ≠ [] → 1 ≤ s ≤ 25 →
  CaesarCipher.decrypt t s = Ok (map (shift_symbol (- s)) t).
Proof.
  intros Ht Hs. unfold CaesarCipher.decrypt.
  rewrite (shift_in_range s Hs), (truthy_nonempty t Ht). apply decrypt_loop_map.
Qed.

Lemma map_nonempty {A B} (f : A → B) (l : list A) : l ≠ [] → map f l ≠ [].
Proof. by destruct l. Qed.

Lemma shift_symbol_roundtrip (t : pystr) (s : Z) :
  map (shift_symbol (- s)) (map (shift_symbol s) t) = t.
Proof.
  rewrite map_map. rewrite <- (map_id t) at 2.
  apply map_ext. intros c. apply shift_symbol_inverse.
Qed.

(** ** Encoding and decoding *)

(** C1: for every non-empty text [t] and every shift [s] in [1,25],
    [encrypt] returns a ciphertext and [decrypt] of that ciphertext with
    the same shift returns [t] exactly, symbols outside the alphabet
    included. *)
Theorem decrypt_encrypt_roundtrip (t : pystr) (s : Z) :
  t ≠ [] → 1 ≤ s ≤ 25 →
  ∃ c, CaesarCipher.encrypt t s = Ok c ∧ CaesarCipher.decrypt c s = Ok t.
Proof.
  intros Ht Hs. exists (map (shift_symbol s) t).
  split; [by apply encrypt_valid |].
  rewrite decrypt_valid by (auto using map_nonempty).
  f_equal. apply shift_symbol_roundtrip.
Qed.

Lemma decrypt_encrypt_roundtrip_witness :
  ∃ c, CaesarCipher.encrypt [104; 233; 126; 9; 120]%N 25 = Ok c
       ∧ CaesarCipher.decrypt c 25 = Ok [104; 233; 126; 9; 120]%N.
Proof.
  apply (decrypt_encrypt_roundtrip [104; 233; 126; 9; 120]%N 25);
    [discriminate | lia].
Defined.

(** C2: for every non-empty text and shift in [1,25], [encrypt] returns a
    text of the same length in which, position by position, a symbol found
    at alphabet position [p] is replaced by the symbol at position
    [(p + shift) mod L], [L] being the length of the alphabet, and a
    symbol outside the alphabet is kept. *)
Theorem encrypt_symbol_by_symbol (t : pystr) (s : Z) :
  t ≠ [] → 1 ≤ s ≤ 25 →
  ∃ out,
    CaesarCipher.encrypt t s = Ok out
    ∧ length out = length t
    ∧ ∀ (i : nat) (c : char), t !! i = Some c →
        (∀ p : nat, CaesarCipher.charset !! p = Some c →
           out !! i =
             CaesarCipher.charset
               !! Z.to_nat ((Z.of_nat p + s) mod len CaesarCipher.charset))
        ∧ (c ∉ CaesarCipher.charset → out !! i = Some c).
Proof.
  intros Ht Hs. exists (map (shift_symbol s) t).
  split; [by apply encrypt_valid |].
  split; [apply length_map |].
  intros i c Hi.
  assert (map (shift_symbol s) t !! i = Some (shift_symbol s c)) as Hout.
  { change (map (shift_symbol s) t) with (shift_symbol s <$> t).
    by rewrite list_lookup_fmap, Hi. }
  split.
  - intros p Hp. rewrite Hout. symmetry.
    change (len CaesarCipher.charset) with 97. by apply shift_symbol_at.
  - intros Hc. rewrite Hout. f_equal. by apply shift_symbol_outside.
Qed.

Lemma encrypt_symbol_by_symbol_witness :
  ∃ out,
    CaesarCipher.encrypt [9; 233; 97]%N 3 = Ok out
    ∧ length out = 3%nat
    ∧ ∀ (i : nat) (c : char), [9; 233; 97]%N !! i = Some c →
        (∀ p : nat, CaesarCipher.charset !! p = Some c →
           out !! i =
             CaesarCipher.charset
               !! Z.to_nat ((Z.of_nat p + 3) mod len CaesarCipher.charset))
        ∧ (c ∉ CaesarCipher.charset → out !! i = Some c).
Proof.
  apply (encrypt_symbol_by_symbol [9; 233; 97]%N 3); [discriminate | lia].
Defined.

(** The tab, last of the alphabet, wraps to [c]; the symbol 233 is outside
    the alphabet and stays. *)
Example encrypt_wrap_and_pass :
  CaesarCipher.encrypt [9; 233; 97]%N 3 = Ok [99; 233; 100]%N.
Proof. vm_compute. reflexivity. Qed.

(** C3: [encrypt] and [decrypt] check their arguments before the loop: a
    shift outside [1,25] raises the shift error (the specification's
    InvalidArgument) for every text, and with a shift in range the empty
    text raises the empty-text error (EmptyInput); in both cases the
    outcome is the exception alone, with no text.  So [encrypt(t, 0)],
    [encrypt(t, 26)] and [encrypt(t, -1)] raise the shift error and
    [encrypt("", 5)] the empty-text error. *)
Theorem validation_precedes_transformation (t : pystr) (s : Z) :
  (¬ (1 ≤ s ≤ 25) →
     CaesarCipher.encrypt t s = Raise CaesarCipher.shift_error
     ∧ CaesarCipher.decrypt t s = Raise CaesarCipher.shift_error)
  ∧ (1 ≤ s ≤ 25 →
     CaesarCipher.encrypt [] s = Raise CaesarCipher.text_error
     ∧ CaesarCipher.decrypt [] s = Raise CaesarCipher.encrypted_text_error)
  ∧ CaesarCipher.encrypt t 0 = Raise CaesarCipher.shift_error
  ∧ CaesarCipher.encrypt t 26 = Raise CaesarCipher.shift_error
  ∧ CaesarCipher.encrypt t (-1) = Raise CaesarCipher.shift_error
  ∧ CaesarCipher.encrypt [] 5 = Raise CaesarCipher.text_error.
Proof.
  split; [|split; [|by repeat split]].
  - intros Hs. unfold CaesarCipher.encrypt, CaesarCipher.decrypt.
    by rewrite shift_out_of_range.
  - intros Hs. unfold CaesarCipher.encrypt, CaesarCipher.decrypt.
    by rewrite shift_in_range.
Qed.

Lemma validation_precedes_transformation_witness :
  (CaesarCipher.encrypt (str "abc") 40 = Raise CaesarCipher.shift_error
   ∧ CaesarCipher.decrypt (str "abc") 40 = Raise CaesarCipher.shift_error)
  ∧ (CaesarCipher.encrypt [] 7 = Raise CaesarCipher.text_error
     ∧ CaesarCipher.decrypt [] 7 = Raise CaesarCipher.encrypted_text_error).
Proof.
  split.
  - apply (proj1 (validation_precedes_transformation (str "abc") 40)). lia.
  - apply (proj1 (proj2 (validation_precedes_transformation [] 7))). lia.
Defined.

(** C10: when the shift is outside [1,25] and the text is empty, both
    methods raise the shift error, not the empty-text error: the range
    check comes first. *)
Theorem shift_check_before_empty_check (s : Z) :
  ¬ (1 ≤ s ≤ 25) →
  CaesarCipher.encrypt [] s = Raise CaesarCipher.shift_error
  ∧ CaesarCipher.decrypt [] s = Raise CaesarCipher.shift_error
  ∧ CaesarCipher.shift_error ≠ CaesarCipher.text_error
  ∧ CaesarCipher.shift_error ≠ CaesarCipher.encrypted_text_error.
Proof.
  intros Hs. unfold CaesarCipher.encrypt, CaesarCipher.decrypt.
  rewrite shift_out_of_range by assumption. by repeat split.
Qed.

Lemma shift_check_before_empty_check_witness :
  CaesarCipher.encrypt [] 0 = Raise CaesarCipher.shift_error
  ∧ CaesarCipher.decrypt [] 0 = Raise CaesarCipher.shift_error
  ∧ CaesarCipher.shift_error ≠ CaesarCipher.text_error
  ∧ CaesarCipher.shift_error ≠ CaesarCipher.encrypted_text_error.
Proof. apply (shift_check_before_empty_check 0). lia. Defined.

(** ** Exhaustive decoding *)

Lemma elem_of_py_range (a b s : Z) : s ∈ py_range a b ↔ a ≤ s < b.
Proof.
  unfold py_range. change (map ?f ?l) with (f <$> l).
  rewrite list_elem_of_fmap. split.
  - intros (i & -> & Hi). apply elem_of_seq in Hi. lia.
  - intros Hs. exists (Z.to_nat (s - a)). split; [lia |].
    apply elem_of_seq. lia.
Qed.

(** The dictionary after the loop over valid shifts: every shift of the
    list holds its decoding, any other key is as before. *)
Lemma brute_force_loop_lookup (shifts : list Z) (c : pystr)
    (m : gmap Z pystr) (s : Z) :
  c ≠ [] → Forall (fun k => 1 ≤ k ≤ 25) shifts →
  CaesarCipher.brute_force_loop shifts c m !! s =
    if decide (s ∈ shifts) then Some (map (shift_symbol (- s)) c) else m !! s.
Proof.
  intros Hc Hall. revert m.
  induction Hall as [|k shifts Hk Hall IH]; intros m.
  - cbn. by rewrite decide_False by apply not_elem_of_nil.
  - cbn [CaesarCipher.brute_force_loop].
    rewrite (decrypt_valid c k Hc Hk), IH.
    destruct (decide (s ∈ shifts)) as [Hin|Hnin].
    + by rewrite decide_True by (by right).
    + destruct (decide (s = k)) as [->|Hne].
      * rewrite decide_True by left. apply lookup_insert_eq.
      * rewrite decide_False.
        -- by apply lookup_insert_ne.
        -- intros H. inversion H; subst; contradiction.
Qed.

(** C4: for every non-empty ciphertext, [brute_force_decrypt] returns a
    dictionary with exactly 25 entries, whose keys are the shifts 1 to 25,
    and whose entry at [s] is what [decrypt] returns for [s]; for the
    encoding of a non-empty [t] with a shift [s] in [1,25] the entry at [s]
    is [t], as for ["abc"] and 3; the empty ciphertext raises the
    empty-text error. *)
Theorem brute_force_complete (c : pystr) :
  c ≠ [] →
  (∃ results,
     CaesarCipher.brute_force_decrypt c = Ok results
     ∧ size results = 25%nat
     ∧ (∀ s, is_Some (results !! s) ↔ 1 ≤ s ≤ 25)
     ∧ (∀ s, 1 ≤ s ≤ 25 →
          ∃ d, CaesarCipher.decrypt c s = Ok d ∧ results !! s = Some d)
     ∧ (∀ t s, t ≠ [] → 1 ≤ s ≤ 25 → CaesarCipher.encrypt t s = Ok c →
          results !! s = Some t))
  ∧ (∃ c3 results3,
       CaesarCipher.encrypt (str "abc") 3 = Ok c3
       ∧ CaesarCipher.brute_force_decrypt c3 = Ok results3
       ∧ results3 !! 3 = Some (str "abc"))
  ∧ CaesarCipher.brute_force_decrypt []
      = Raise CaesarCipher.encrypted_text_error.
Proof.
  intros Hc. split; [|split; [|reflexivity]].
  - assert (Forall (fun k => 1 ≤ k ≤ 25) (py_range 1 26)) as Hall.
    { apply Forall_forall. intros k Hk. apply elem_of_py_range in Hk. lia. }
    pose proof (fun s => brute_force_loop_lookup (py_range 1 26) c ∅ s Hc Hall)
      as Hlook.
    assert (∀ s, 1 ≤ s ≤ 25 →
              CaesarCipher.brute_force_loop (py_range 1 26) c ∅ !! s
              = Some (map (shift_symbol (- s)) c)) as Hin.
    { intros s Hs. rewrite Hlook, decide_True; [done |].
      apply elem_of_py_range. lia. }
    assert (∀ s, ¬ (1 ≤ s ≤ 25) →
              CaesarCipher.brute_force_loop (py_range 1 26) c ∅ !! s = None)
      as Hout.
    { intros s Hs. rewrite Hlook, decide_False; [done |].
      rewrite elem_of_py_range. lia. }
    eexists. split.
    { unfold CaesarCipher.brute_force_decrypt.
      by rewrite (truthy_nonempty c Hc). }
    split; [|split; [|split]].
    + rewrite <- size_dom.
      replace (dom (CaesarCipher.brute_force_loop (py_range 1 26) c ∅))
        with (list_to_set (py_range 1 26) : gset Z).
      { vm_compute. reflexivity. }
      apply set_eq. intros s.
      rewrite elem_of_list_to_set, elem_of_py_range, elem_of_dom.
      destruct (decide (1 ≤ s ≤ 25)) as [Hs|Hs].
      * rewrite (Hin s Hs). split; [eauto | lia].
      * rewrite (Hout s Hs). split; [lia | by intros [? ?]].
    + intros s. destruct (decide (1 ≤ s ≤ 25)) as [Hs|Hs].
      * rewrite (Hin s Hs). split; eauto.
      * rewrite (Hout s Hs). split; [by intros [? ?] | contradiction].
    + intros s Hs. exists (map (shift_symbol (- s)) c).
      split; [by apply decrypt_valid | by apply Hin].
    + intros t s Ht Hs Henc.
      rewrite (encrypt_valid t s Ht Hs) in Henc. injection Henc as <-.
      rewrite (Hin s Hs). f_equal. apply shift_symbol_roundtrip.
  - eexists _, _. split; [vm_compute; reflexivity |].
    split; vm_compute; reflexivity.
Qed.

Lemma brute_force_complete_witness :
  ∃ results,
    CaesarCipher.brute_force_decrypt (str "def") = Ok results
    ∧ size results = 25%nat
    ∧ (∀ s, is_Some (results !! s) ↔ 1 ≤ s ≤ 25)
    ∧ (∀ s, 1 ≤ s ≤ 25 →
         ∃ d, CaesarCipher.decrypt (str "def") s = Ok d
              ∧ results !! s = Some d)
    ∧ (∀ t s, t ≠ [] → 1 ≤ s ≤ 25 →
         CaesarCipher.encrypt t s = Ok (str "def") → results !! s = Some t).
Proof.
  apply (proj1 (brute_force_complete (str "def") ltac:(discriminate))).
Defined.

(** ** Shift validation *)

(** C8: [validate_shift] returns a boolean for every value and never
    raises; the boolean is [True] exactly when the value is an integer (an
    instance of [int], of which [bool] is a subclass, [True] being 1) that
    lies in [1,25]; a value of another type gives [False].  So 13 gives
    [True], and 0, 26 and the string ["x"] give [False]. *)
Theorem validate_shift_total (v : pyval) :
  (∃ b : bool,
     CaesarCipher.validate_shift v = Ok (PyBool b)
     ∧ (b = true ↔ ∃ n, int_value v = Some n ∧ 1 ≤ n ≤ 25))
  ∧ CaesarCipher.validate_shift (PyInt 13) = Ok (PyBool true)
  ∧ CaesarCipher.validate_shift (PyInt 0) = Ok (PyBool false)
  ∧ CaesarCipher.validate_shift (PyInt 26) = Ok (PyBool false)
  ∧ CaesarCipher.validate_shift (PyStr (str "x")) = Ok (PyBool false).
Proof.
  split; [|by repeat split].
  assert (∀ n : Z, (if 1 <=? n then (n <=? 25) else false) = true ↔ 1 ≤ n ≤ 25)
    as Hrange.
  { intros n. destruct (Z.leb_spec 1 n), (Z.leb_spec n 25); split;
      (reflexivity || discriminate || lia). }
  destruct v as [|b|n|f|s].
  - exists false. split; [reflexivity |].
    split; [discriminate | intros (n & [=] & _)].
  - exists (if 1 <=? (if b then 1 else 0) then (if b then 1 else 0) <=? 25 else false).
    split; [by destruct b |].
    rewrite Hrange. split.
    + intros H. eexists. split; [reflexivity | exact H].
    + intros (n & [= <-] & H). exact H.
  - exists (if 1 <=? n then n <=? 25 else false).
    split.
    + unfold CaesarCipher.validate_shift, CaesarCipher.validate_shift_body.
      cbn. by destruct (1 <=? n).
    + rewrite Hrange. split.
      * intros H. eexists. split; [reflexivity | exact H].
      * intros (n' & [= <-] & H). exact H.
  - exists false. split; [reflexivity |].
    split; [discriminate | intros (n & [=] & _)].
  - exists false. split; [reflexivity |].
    split; [discriminate | intros (n & [=] & _)].
Qed.

(** ** Frequency analysis *)

Section Frequencies.

Implicit Types (t pre rest : pystr) (c k : char) (d : dict).

Lemma occurrences_snoc t c k :
  occurrences k (t ++ [c]) = occurrences k t + (if decide (c = k) then 1 else 0).
Proof.
  unfold occurrences, len. rewrite filter_app, length_app.
  rewrite filter_cons. destruct (decide (c = k)); simpl; lia.
Qed.

Lemma occurrences_not_in t k : k ∉ t → occurrences k t = 0.
Proof.
  intros Hk. unfold occurrences, len.
  destruct (filter (λ x, x = k) t) as [|x l] eqn:E; [reflexivity |].
  assert (x ∈ filter (λ x, x = k) t) as Hx by (rewrite E; left).
  apply list_elem_of_filter in Hx as [-> Hx]. contradiction.
Qed.

Lemma occurrences_in t k : k ∈ t → 1 ≤ occurrences k t.
Proof.
  intros Hk. unfold occurrences, len.
  assert (k ∈ filter (λ x, x = k) t) as Hx by (by apply list_elem_of_filter).
  destruct (filter (λ x, x = k) t); [inversion Hx | simpl; lia].
Qed.

Lemma occurrences_le_len t k : 0 ≤ occurrences k t ≤ len t.
Proof.
  unfold occurrences, len. pose proof (length_filter (λ x, x = k) t). lia.
Qed.

Lemma elem_of_first_seen t k : k ∈ first_seen t ↔ k ∈ t.
Proof.
  unfold first_seen.
  by rewrite elem_of_reverse, elem_of_remove_dups, elem_of_reverse.
Qed.

Lemma NoDup_first_seen t : NoDup (first_seen t).
Proof.
  unfold first_seen. rewrite reverse_Permutation. apply NoDup_remove_dups.
Qed.

Lemma first_seen_snoc t c :
  first_seen (t ++ [c]) =
    if decide (c ∈ t) then first_seen t else first_seen t ++ [c].
Proof.
  unfold first_seen. rewrite reverse_snoc. cbn [remove_dups].
  destruct (decide_rel elem_of c (reverse t)) as [Hin|Hnin];
    rewrite elem_of_reverse in *.
  - by rewrite decide_True.
  - rewrite decide_False by done. by rewrite reverse_cons.
Qed.

Lemma str_find_app_l t rest k i :
  str_find t k = Some i → str_find (t ++ rest) k = Some i.
Proof.
  revert i. induction t as [|x t IH]; intros i; simpl; [discriminate |].
  destruct (N.eqb x k); [done |].
  destruct (str_find t k) as [j|]; simpl; [|discriminate].
  intros [= <-]. by rewrite (IH j eq_refl).
Qed.

Lemma str_find_in t k : k ∈ t → ∃ i, str_find t k = Some i ∧ 0 ≤ i < len t.
Proof.
  intros Hk. apply str_contains_elem_of, str_contains_find in Hk as [i Hi].
  exists i. split; [exact Hi |]. by apply str_find_lookup in Hi as [? _].
Qed.

Lemma str_find_snoc_new t k : k ∉ t → str_find (t ++ [k]) k = Some (len t).
Proof.
  unfold len. induction t as [|x t IH]; simpl.
  - intros _. by rewrite N.eqb_refl.
  - intros [Hne Hk]%not_elem_of_cons.
    destruct (N.eqb_spec x k) as [->|_]; [congruence |].
    rewrite (IH Hk). simpl. f_equal. lia.
Qed.

Lemma first_before_app t rest a b :
  first_before t a b → first_before (t ++ rest) a b.
Proof.
  intros (i & j & Hi & Hj & Hij). exists i, j.
  eauto using str_find_app_l.
Qed.

Lemma StronglySorted_weaken {A} (R R' : relation A) (l : list A) :
  (∀ a b, R a b → R' a b) → StronglySorted R l → StronglySorted R' l.
Proof.
  intros HR. induction 1 as [|x l Hl IH Hx]; constructor; [exact IH |].
  eapply Forall_impl; eauto.
Qed.

(** The order of [first_seen] is the order of first occurrence. *)
Lemma first_seen_sorted t : StronglySorted (first_before t) (first_seen t).
Proof.
  induction t as [|c t IH] using rev_ind; [constructor |].
  rewrite first_seen_snoc. destruct (decide (c ∈ t)) as [Hin|Hnin].
  - eapply StronglySorted_weaken; [|exact IH].
    intros a b. apply first_before_app.
  - apply StronglySorted_app. split; [|split].
    + intros a b Ha ->%list_elem_of_singleton.
      apply (proj1 (elem_of_first_seen _ _)) in Ha.
      apply str_find_in in Ha as (i & Hi & Hr).
      exists i, (len t). split; [by apply str_find_app_l |].
      split; [by apply str_find_snoc_new | lia].
    + eapply StronglySorted_weaken; [|exact IH].
      intros a b. apply first_before_app.
    + repeat constructor.
Qed.

Lemma dict_get_table (f : char → Z) (K : list char) c :
  dict_get ((λ k, (k, f k)) <$> K) c 0 = if decide (c ∈ K) then f c else 0.
Proof.
  induction K as [|k K IH]; [reflexivity |].
  cbn. destruct (N.eqb_spec k c) as [->|Hne].
  - by rewrite decide_True by left.
  - rewrite IH. destruct (decide (c ∈ K)).
    + by rewrite decide_True by (by right).
    + rewrite decide_False; [done |].
      intros [?|?]%elem_of_cons; congruence.
Qed.

Lemma dict_set_table (f g : char → Z) (K : list char) c v :
  NoDup K → g c = v → (∀ k, k ≠ c → g k = f k) →
  dict_set ((λ k, (k, f k)) <$> K) c v =
    ((λ k, (k, g k)) <$> K) ++ (if decide (c ∈ K) then [] else [(c, v)]).
Proof.
  intros Hnd Hc Hg. induction Hnd as [|k K Hk Hnd IH]; [reflexivity |].
  cbn. destruct (N.eqb_spec k c) as [->|Hne].
  - rewrite decide_True by left. rewrite app_nil_r, Hc. f_equal.
    apply list_fmap_ext. intros i x Hx. f_equal. symmetry. apply Hg.
    intros ->. apply Hk. eapply list_elem_of_lookup_2; eauto.
  - rewrite IH, (Hg k Hne). f_equal. f_equal.
    destruct (decide (c ∈ K)) as [Hin|Hnin].
    + by rewrite decide_True by (by right).
    + rewrite decide_False; [done |].
      intros [?|?]%elem_of_cons; congruence.
Qed.

(** One turn of the counting loop takes the table of [pre] to the table
    of [pre ++ [c]]. *)
Lemma frequency_table_snoc pre c :
  dict_set (frequency_table pre) c (dict_get (frequency_table pre) c 0 + 1)
  = frequency_table (pre ++ [c]).
Proof.
  unfold frequency_table.
  rewrite (dict_set_table _ (λ k, occurrences k (pre ++ [c])));
    [| apply NoDup_first_seen | | ].
  - rewrite first_seen_snoc.
    destruct (decide (c ∈ pre)) as [Hin|Hnin].
    + rewrite decide_True by (by apply elem_of_first_seen).
      by rewrite app_nil_r.
    + rewrite decide_False by (by rewrite elem_of_first_seen).
      rewrite fmap_app. f_equal. cbn. f_equal. f_equal.
      rewrite dict_get_table.
      rewrite decide_False by (by rewrite elem_of_first_seen).
      rewrite occurrences_snoc, decide_True by done.
      by rewrite occurrences_not_in.
  - rewrite dict_get_table, occurrences_snoc, decide_True by done.
    destruct (decide (c ∈ first_seen pre)) as [Hin|Hnin]; [done |].
    rewrite occurrences_not_in; [done |]. by rewrite <- elem_of_first_seen.
  - intros k Hk. rewrite occurrences_snoc, decide_False by done. lia.
Qed.

Lemma count_loop_table rest pre (a : CaesarCipher.analysis) :
  CaesarCipher.an_char_frequency a = frequency_table pre →
  CaesarCipher.an_char_frequency (CaesarCipher.count_loop rest a)
    = frequency_table (pre ++ rest).
Proof.
  revert pre a. induction rest as [|c rest IH]; intros pre a Ha.
  - by rewrite app_nil_r.
  - cbn [CaesarCipher.count_loop].
    rewrite (IH (pre ++ [c])); [by rewrite <- app_assoc |].
    cbn [CaesarCipher.an_char_frequency]. rewrite Ha.
    apply frequency_table_snoc.
Qed.

Lemma count_loop_length rest (a : CaesarCipher.analysis) :
  CaesarCipher.an_length (CaesarCipher.count_loop rest a)
    = CaesarCipher.an_length a
  ∧ CaesarCipher.an_unique_chars (CaesarCipher.count_loop rest a)
    = CaesarCipher.an_unique_chars a.
Proof.
  revert a. induction rest as [|c rest IH]; intros a; [done |].
  cbn [CaesarCipher.count_loop].
  match goal with |- context [CaesarCipher.count_loop rest ?a'] =>
    by destruct (IH a') as [-> ->] end.
Qed.

(** The scan returns an item with the greatest value, and every item
    before it has a strictly smaller one. *)
Lemma max_scan_split (l1 mid rest : dict) (best : char * Z) :
  (∀ y, y ∈ l1 → snd y < snd best) →
  (∀ y, y ∈ mid → snd y ≤ snd best) →
  ∃ front back,
    l1 ++ best :: mid ++ rest = front ++ max_scan rest best :: back
    ∧ (∀ y, y ∈ front → snd y < snd (max_scan rest best))
    ∧ (∀ y, y ∈ back → snd y ≤ snd (max_scan rest best)).
Proof.
  revert l1 mid best. induction rest as [|x rest IH]; intros l1 mid best H1 H2.
  - exists l1, mid. by rewrite app_nil_r.
  - cbn [max_scan]. destruct (Z.ltb_spec (snd best) (snd x)) as [Hlt|Hge].
    + destruct (IH (l1 ++ best :: mid) [] x) as (front & back & E & Hf & Hb).
      * intros y Hy. apply elem_of_app in Hy as [Hy|Hy].
        -- specialize (H1 y Hy). lia.
        -- apply elem_of_cons in Hy as [->|Hy]; [lia |].
           specialize (H2 y Hy). lia.
      * intros y Hy. inversion Hy.
      * exists front, back. split; [|done].
        rewrite <- E. by rewrite <- app_assoc.
    + destruct (IH l1 (mid ++ [x]) best) as (front & back & E & Hf & Hb).
      * exact H1.
      * intros y Hy. apply elem_of_app in Hy as [Hy|Hy]; [auto |].
        apply list_elem_of_singleton in Hy as ->. lia.
      * exists front, back. split; [|done].
        rewrite <- E. by rewrite <- app_assoc.
Qed.

End Frequencies.

(** Rounding to the nearest integer is off by at most one half. *)
Lemma round_half_even_nearest (n d : Z) :
  0 < d → 2 * Z.abs (round_half_even n d * d - n) ≤ d.
Proof.
  intros Hd. unfold round_half_even.
  pose proof (Z.div_mod n d ltac:(lia)) as Hdm.
  pose proof (Z.mod_pos_bound n d Hd) as Hb.
  set (q := n / d) in *. set (r := n mod d) in *.
  destruct (Z.compare_spec (2 * r) d) as [E|L|G].
  - destruct (Z.even q); nia.
  - nia.
  - nia.
Qed.

(** The hundredths [round(x, 2)] keeps are within half a hundredth of the
    exact value [m * 2^e] of [x]. *)
Lemma hundredths_nearest (m : positive) (e : Z) :
  (0 ≤ e → hundredths m e = Zpos m * 100 * 2 ^ e)
  ∧ (e < 0 →
     2 * Z.abs (hundredths m e * 2 ^ (- e) - Zpos m * 100) ≤ 2 ^ (- e)).
Proof.
  unfold hundredths. split; intros He.
  - by rewrite (proj2 (Z.leb_le 0 e)).
  - rewrite (proj2 (Z.leb_gt 0 e)) by lia.
    apply round_half_even_nearest. apply Z.pow_pos_nonneg; lia.
Qed.

(** ** Accuracy of the binary64 computations *)

Lemma bpow_pos (e : Z) : (0 < bpow e)%R.
Proof. apply powerRZ_lt. lra. Qed.

Lemma bpow_add (a b : Z) : bpow (a + b) = (bpow a * bpow b)%R.
Proof. apply powerRZ_add. lra. Qed.

Lemma bpow_IZR (e : Z) : 0 ≤ e → bpow e = IZR (2 ^ e).
Proof.
  intros He. unfold bpow. rewrite <- (Z2Nat.id e He) at 1.
  rewrite <- pow_powerRZ. rewrite pow_IZR. by rewrite Z2Nat.id.
Qed.

Lemma bpow_le (a b : Z) : a ≤ b → (bpow a <= bpow b)%R.
Proof.
  intros H. replace b with (a + (b - a)) by lia. rewrite bpow_add.
  rewrite (bpow_IZR (b - a)) by lia.
  assert (1 <= IZR (2 ^ (b - a)))%R as H1.
  { apply IZR_le. pose proof (Z.pow_pos_nonneg 2 (b - a)). lia. }
  pose proof (bpow_pos a). nra.
Qed.

Lemma bpow_lt_inv (a b : Z) : (bpow a < bpow b)%R → a < b.
Proof.
  intros H. destruct (Z.lt_ge_cases a b) as [|Hge]; [done |].
  apply bpow_le in Hge. lra.
Qed.

Lemma bpow_opp (e : Z) : (bpow (- e) * bpow e = 1)%R.
Proof.
  rewrite <- bpow_add. replace (- e + e) with 0 by lia. reflexivity.
Qed.

Lemma Rabs_bound (x a : R) : (Rabs x <= a)%R → (- a <= x <= a)%R.
Proof. unfold Rabs. destruct (Rcase_abs x); lra. Qed.

Lemma fexp_eq (x : Z) : fexp prec emax x = Z.max (x - 53) (-1074).
Proof. reflexivity. Qed.

Lemma digits2_pos_bounds (p : positive) :
  2 ^ (Zpos (digits2_pos p) - 1) ≤ Zpos p < 2 ^ Zpos (digits2_pos p).
Proof.
  induction p as [p IH|p IH|]; cbn [digits2_pos].
  - rewrite Pos2Z.inj_succ.
    replace (Z.succ (Zpos (digits2_pos p)) - 1) with
      (Z.succ (Zpos (digits2_pos p) - 1)) by lia.
    rewrite !Z.pow_succ_r by lia. lia.
  - rewrite Pos2Z.inj_succ.
    replace (Z.succ (Zpos (digits2_pos p)) - 1) with
      (Z.succ (Zpos (digits2_pos p) - 1)) by lia.
    rewrite !Z.pow_succ_r by lia. lia.
  - vm_compute. split; [discriminate | reflexivity].
Qed.

(** The number of digits is determined by the two powers of two around
    the number. *)
Lemma digits2_pos_unique (p : positive) (d : Z) :
  2 ^ (d - 1) ≤ Zpos p < 2 ^ d → Zpos (digits2_pos p) = d.
Proof.
  intros [Hlo Hhi]. pose proof (digits2_pos_bounds p) as [Hlo' Hhi'].
  assert (0 < d) as Hd.
  { destruct (Z.lt_ge_cases 0 d) as [|Hd]; [done |].
    exfalso. destruct (Z.eq_dec d 0) as [->|]; [simpl in Hhi; lia |].
    rewrite Z.pow_neg_r in Hhi by lia. lia. }
  destruct (Z.lt_trichotomy (Zpos (digits2_pos p)) d) as [H|[H|H]]; [|done|].
  - exfalso.
    assert (2 ^ Zpos (digits2_pos p) ≤ 2 ^ (d - 1))
      by (apply Z.pow_le_mono_r; lia).
    lia.
  - exfalso.
    assert (2 ^ d ≤ 2 ^ (Zpos (digits2_pos p) - 1))
      by (apply Z.pow_le_mono_r; lia).
    lia.
Qed.

Lemma iter_pos_nat {A} (f : A → A) (p : positive) (x : A) :
  SpecFloat.iter_pos f p x = Nat.iter (Pos.to_nat p) f x.
Proof.
  revert x. induction p as [p IH|p IH|]; intros x; cbn [SpecFloat.iter_pos].
  - rewrite !IH. rewrite Pos2Nat.inj_xI.
    replace (S (2 * Pos.to_nat p))%nat with
      (Pos.to_nat p + (Pos.to_nat p + 1))%nat by lia.
    rewrite !Nat.iter_add. reflexivity.
  - rewrite !IH. rewrite Pos2Nat.inj_xO.
    replace (2 * Pos.to_nat p)%nat with (Pos.to_nat p + Pos.to_nat p)%nat by lia.
    by rewrite Nat.iter_add.
  - reflexivity.
Qed.

Lemma shr_1_nonneg (m : Z) (r s : bool) :
  0 ≤ m →
  shr_1 {| shr_m := m; shr_r := r; shr_s := s |}
  = {| shr_m := m / 2; shr_r := Z.odd m; shr_s := r || s |}.
Proof.
  intros Hm. destruct m as [|p|p]; [reflexivity | | lia].
  rewrite <- Z.div2_div. by destruct p.
Qed.

Lemma shr_inv_step (orig : Z) (n : nat) (mrs : shr_record) :
  0 ≤ orig → shr_inv orig n mrs → shr_inv orig (S n) (shr_1 mrs).
Proof.
  intros Ho. destruct mrs as [m r s]. intros (Hm & Hr0 & Hr1 & Hs).
  cbn [shr_m shr_r shr_s] in *.
  assert (0 < 2 ^ Z.of_nat n) as HP by (apply Z.pow_pos_nonneg; lia).
  rewrite shr_1_nonneg by (subst m; apply Z.div_pos; lia).
  unfold shr_inv. cbn [shr_m shr_r shr_s].
  rewrite Nat2Z.inj_succ, Z.pow_succ_r by lia.
  rewrite (Z.mul_comm 2 (2 ^ Z.of_nat n)).
  rewrite Z.rem_mul_r by lia. rewrite <- Z.div_div by lia.
  rewrite <- Hm. rewrite (Zmod_odd m).
  pose proof (Z.mod_pos_bound orig (2 ^ Z.of_nat n) HP) as Hb.
  set (P := 2 ^ Z.of_nat n) in *. set (rem := orig mod P) in *.
  split; [reflexivity |].
  destruct r; [specialize (Hr1 eq_refl); clear Hr0
              | specialize (Hr0 eq_refl); clear Hr1];
    (destruct s; [clear Hs | specialize (Hs eq_refl)]);
    destruct (Z.odd m); cbn [orb];
    (split; [|split]); intros ?; try discriminate; try lia.
Qed.

Lemma shr_inv_iter (orig : Z) (n : nat) :
  0 ≤ orig →
  shr_inv orig n
    (Nat.iter n shr_1 {| shr_m := orig; shr_r := false; shr_s := false |}).
Proof.
  intros Ho. induction n as [|n IH].
  - unfold shr_inv. cbn [Nat.iter shr_m shr_r shr_s]. cbn [Z.of_nat].
    rewrite Z.pow_0_r, Z.div_1_r, Z.mod_1_r.
    split; [reflexivity |]. split; [intros _; lia |].
    split; [discriminate |]. intros _. by left.
  - cbn [Nat.iter]. by apply shr_inv_step.
Qed.

(** Rounding the quotient to nearest (ties to even) is within half a
    unit of the exact quotient. *)
Lemma round_nearest_even_inv (orig : Z) (n : nat) (mrs : shr_record) :
  0 ≤ orig → shr_inv orig n mrs →
  orig / 2 ^ Z.of_nat n
    ≤ round_nearest_even (shr_m mrs) (loc_of_shr_record mrs)
    ≤ orig / 2 ^ Z.of_nat n + 1
  ∧ 2 * Z.abs (round_nearest_even (shr_m mrs) (loc_of_shr_record mrs)
               * 2 ^ Z.of_nat n - orig) ≤ 2 ^ Z.of_nat n.
Proof.
  intros Ho. destruct mrs as [m r s]. intros (Hm & Hr0 & Hr1 & Hs).
  cbn [shr_m shr_r shr_s] in *.
  assert (0 < 2 ^ Z.of_nat n) as HP by (apply Z.pow_pos_nonneg; lia).
  pose proof (Z.mod_pos_bound orig (2 ^ Z.of_nat n) HP) as Hb.
  pose proof (Z.div_mod orig (2 ^ Z.of_nat n) ltac:(lia)) as Hdm.
  rewrite <- Hm in *.
  set (P := 2 ^ Z.of_nat n) in *. set (rem := orig mod P) in *.
  destruct r; [specialize (Hr1 eq_refl); clear Hr0
              | specialize (Hr0 eq_refl); clear Hr1];
    (destruct s; [clear Hs | specialize (Hs eq_refl)]);
    cbn [loc_of_shr_record round_nearest_even];
    try destruct (Z.even m); nia.
Qed.

Lemma shr_zero_or_neg (mrs : shr_record) (e n : Z) :
  n ≤ 0 → shr mrs e n = (mrs, e).
Proof. intros Hn. destruct n; [reflexivity | lia | reflexivity]. Qed.

Lemma shr_pos (orig e n : Z) :
  0 ≤ orig → 0 < n →
  ∃ mrs, shr {| shr_m := orig; shr_r := false; shr_s := false |} e n
         = (mrs, e + n)
         ∧ shr_inv orig (Z.to_nat n) mrs.
Proof.
  intros Ho Hn. destruct n as [|p|p]; [lia | | lia].
  eexists. split; [reflexivity |].
  rewrite iter_pos_nat. rewrite Z2Nat.inj_pos. by apply shr_inv_iter.
Qed.

(** Rounding a natural mantissa that has at least the precision of the
    format: the result is a valid float, zero or positive, and it is
    within half a unit of the target exponent of the exact value. *)
Lemma binary_round_aux_shape (m : positive) (e : Z) :
  e ≤ fexp prec emax (Zpos (digits2_pos m) + e) →
  Zpos (digits2_pos m) + e ≤ 1023 →
  ∃ m' e',
    binary_round_aux prec emax false (Zpos m) e loc_Exact = SF_of m' e'
    ∧ 0 ≤ m' ∧ e ≤ e'
    ∧ SpecFloat.valid_binary prec emax (SF_of m' e') = true
    ∧ 2 * Z.abs (m' * 2 ^ (e' - e) - Zpos m)
      ≤ 2 ^ (fexp prec emax (Zpos (digits2_pos m) + e) - e).
Proof.
  intros HE Hd.
  pose proof (digits2_pos_bounds m) as Hdig.
  unfold binary_round_aux, shr_fexp. cbn [Zdigits2 shr_record_of_loc].
  set (d := Zpos (digits2_pos m)) in *.
  set (E := fexp prec emax (d + e)) in *.
  assert (E = Z.max (d + e - 53) (-1074)) as HEdef by reflexivity.
  assert (emax - prec = 971) as Hmax by reflexivity.
  destruct (Z.eq_dec (E - e) 0) as [Hn|Hn].
  - rewrite Hn. cbn [shr round_nearest_even shr_m loc_of_shr_record
                       shr_record_of_loc Zdigits2].
    fold d. fold E. rewrite Hn. cbn [shr shr_m].
    rewrite (proj2 (Z.leb_le e (emax - prec))) by lia.
    exists (Zpos m), e. cbn [SF_of].
    split; [reflexivity |]. split; [lia |]. split; [lia |]. split.
    + cbn [SpecFloat.valid_binary]. unfold bounded, canonical_mantissa.
      fold d. fold E.
      rewrite (proj2 (Z.eqb_eq E e)) by lia.
      rewrite (proj2 (Z.leb_le e (emax - prec))) by lia. reflexivity.
    + rewrite Z.sub_diag. cbn. lia.
  - destruct (shr_pos (Zpos m) e (E - e)) as (mrs & -> & Hinv); [lia | lia |].
    destruct (round_nearest_even_inv (Zpos m) _ mrs ltac:(lia) Hinv)
      as [Hm2 Herr].
    rewrite Z2Nat.id in Hm2, Herr by lia.
    set (m2 := round_nearest_even (shr_m mrs) (loc_of_shr_record mrs)) in *.
    replace (e + (E - e)) with E by lia.
    assert (0 < 2 ^ (E - e)) as HP by (apply Z.pow_pos_nonneg; lia).
    assert (Zpos m / 2 ^ (E - e) < 2 ^ 53) as H53.
    { apply Z.div_lt_upper_bound; [done |].
      rewrite <- Z.pow_add_r by lia.
      assert (2 ^ d ≤ 2 ^ (E - e + 53)) by (apply Z.pow_le_mono_r; lia).
      lia. }
    assert (0 ≤ Zpos m / 2 ^ (E - e)) as H0 by (apply Z.div_pos; lia).
    assert (-1074 < E → 2 ^ 52 ≤ Zpos m / 2 ^ (E - e)) as H52.
    { intros Hnormal. apply Z.div_le_lower_bound; [done |].
      rewrite <- Z.pow_add_r by lia.
      replace (E - e + 52) with (d - 1) by lia. lia. }
    change (2 ^ 53) with 9007199254740992 in H53.
    change (2 ^ 52) with 4503599627370496 in H52.
    clearbody m2. destruct m2 as [|q|q]; [| |lia].
    + cbn [Zdigits2]. rewrite shr_zero_or_neg by (rewrite fexp_eq; lia).
      cbn [shr_m]. exists 0, E. cbn [SF_of].
      split; [reflexivity |]. split; [lia |]. split; [lia |].
      split; [reflexivity | exact Herr].
    + cbn [Zdigits2].
      pose proof (digits2_pos_bounds q) as Hq.
      set (dq := Zpos (digits2_pos q)) in *.
      destruct (Z_le_gt_dec dq 53) as [Hdq|Hdq].
      * rewrite shr_zero_or_neg by (rewrite fexp_eq; lia).
        cbn [shr_m]. rewrite (proj2 (Z.leb_le E (emax - prec))) by lia.
        exists (Zpos q), E. cbn [SF_of].
        split; [reflexivity |]. split; [lia |]. split; [lia |].
        split; [|exact Herr].
        cbn [SpecFloat.valid_binary]. unfold bounded, canonical_mantissa.
        fold dq. rewrite (proj2 (Z.leb_le E (emax - prec))) by lia.
        rewrite andb_true_r. apply Z.eqb_eq. rewrite fexp_eq.
        destruct (Z.eq_dec E (-1074)) as [HEs|HEs]; [lia |].
        assert (53 ≤ dq); [|lia].
        destruct (Z_le_gt_dec 53 dq) as [|Hlt]; [done |].
        exfalso.
        assert (2 ^ dq ≤ 2 ^ 52) by (apply Z.pow_le_mono_r; lia).
        change (2 ^ 52) with 4503599627370496 in *. lia.
      * assert (2 ^ 53 ≤ 2 ^ (dq - 1)) as Hbig
          by (apply Z.pow_le_mono_r; lia).
        change (2 ^ 53) with 9007199254740992 in Hbig.
        assert (q = 9007199254740992%positive) as -> by lia.
        subst dq.
        replace (fexp prec emax (Zpos (digits2_pos 9007199254740992) + E) - E)
          with 1 by (rewrite fexp_eq; cbn [digits2_pos Pos.succ]; lia).
        cbn [shr SpecFloat.iter_pos shr_1 shr_m orb].
        rewrite (proj2 (Z.leb_le (E + 1) (emax - prec))) by lia.
        exists 4503599627370496, (E + 1). cbn [SF_of].
        split; [reflexivity |]. split; [lia |]. split; [lia |]. split.
        -- cbn [SpecFloat.valid_binary]. unfold bounded, canonical_mantissa.
          rewrite (proj2 (Z.leb_le (E + 1) (emax - prec))) by lia.
          rewrite andb_true_r. apply Z.eqb_eq. rewrite fexp_eq.
          cbn [digits2_pos Pos.succ]. lia.
        -- replace (E + 1 - e) with (Z.succ (E - e)) by lia.
          rewrite Z.pow_succ_r by lia. lia.
Qed.

Lemma SF2R_SF_of (m e : Z) : 0 ≤ m → SF2R (SF_of m e) = F2R m e.
Proof.
  intros Hm. destruct m as [|q|q]; [|reflexivity | lia].
  unfold F2R. cbn. lra.
Qed.

Lemma SF_nonneg_SF_of (m e : Z) : 0 ≤ m → SF_nonneg (SF_of m e).
Proof. intros Hm. destruct m; [done | done | lia]. Qed.

Lemma binary_round_aux_spec (m : positive) (e : Z) :
  e ≤ fexp prec emax (Zpos (digits2_pos m) + e) →
  Zpos (digits2_pos m) + e ≤ 1023 →
  SpecFloat.valid_binary prec emax
    (binary_round_aux prec emax false (Zpos m) e loc_Exact) = true
  ∧ SF_nonneg (binary_round_aux prec emax false (Zpos m) e loc_Exact)
  ∧ (Rabs (SF2R (binary_round_aux prec emax false (Zpos m) e loc_Exact)
           - F2R (Zpos m) e)
     <= bpow (fexp prec emax (Zpos (digits2_pos m) + e)) / 2)%R.
Proof.
  intros HE Hd.
  destruct (binary_round_aux_shape m e HE Hd)
    as (m' & e' & -> & Hm' & He' & Hvalid & Herr).
  split; [done |]. split; [by apply SF_nonneg_SF_of |].
  rewrite SF2R_SF_of by done. unfold F2R.
  set (E := fexp prec emax (Zpos (digits2_pos m) + e)) in *.
  replace e' with (e + (e' - e)) by lia.
  replace E with (e + (E - e)) by lia.
  rewrite !bpow_add. rewrite (bpow_IZR (e' - e)), (bpow_IZR (E - e)) by lia.
  pose proof (bpow_pos e) as Hpos.
  apply IZR_le in Herr. rewrite mult_IZR, abs_IZR, minus_IZR, mult_IZR in Herr.
  set (x := (IZR m' * IZR (2 ^ (e' - e)) - IZR (Zpos m))%R) in *.
  replace (IZR m' * (bpow e * IZR (2 ^ (e' - e))) - IZR (Zpos m) * bpow e)%R
    with (x * bpow e)%R by (unfold x; ring).
  rewrite Rabs_mult, (Rabs_pos_eq (bpow e)) by lra.
  nra.
Qed.

(** A mantissa within one unit of a scaled quotient is within one unit in
    the last place of the quotient. *)
Lemma quotient_error (m a b k : Z) :
  0 < b → 0 ≤ k →
  Z.abs (m * b - a * 2 ^ (k + 1)) ≤ b →
  (Rabs (F2R m (- k - 1) - IZR a / IZR b) <= bpow (- k - 1))%R.
Proof.
  intros Hb Hk Hexact. unfold F2R. apply IZR_le in Hexact.
  rewrite abs_IZR, minus_IZR, !mult_IZR in Hexact.
  rewrite <- (bpow_IZR (k + 1)) in Hexact by lia.
  pose proof (bpow_opp (k + 1)) as Hinv.
  replace (- (k + 1)) with (- k - 1) in Hinv by lia.
  pose proof (bpow_pos (- k - 1)) as Hp.
  assert (0 < IZR b)%R as HbR by (apply IZR_lt; lia).
  set (p := bpow (- k - 1)) in *. set (P := bpow (k + 1)) in *.
  replace (IZR m * p - IZR a / IZR b)%R
    with (IZR m * p - IZR a * (p * P) / IZR b)%R
    by (rewrite Hinv; field; lra).
  replace (IZR m * p - IZR a * (p * P) / IZR b)%R
    with ((IZR m * IZR b - IZR a * P) * (p / IZR b))%R by (field; lra).
  assert (0 < p / IZR b)%R as Hpb by (apply Rdiv_lt_0_compat; lra).
  rewrite Rabs_mult, (Rabs_pos_eq (p / IZR b)) by lra.
  apply Rle_trans with (IZR b * (p / IZR b))%R.
  - apply Rmult_le_compat_r; [lra | exact Hexact].
  - right. field. lra.
Qed.

(** The correctly rounded quotient of two positive integers: a valid
    float, zero or positive, within half a unit in the last place (and
    the little the sticky bit leaves) of the quotient. *)
Lemma ratio_to_SF_spec (a b B : Z) :
  0 < a → 0 < b → a < b * 2 ^ B → 0 ≤ B ≤ 1000 →
  SpecFloat.valid_binary prec emax (ratio_to_SF false a b) = true
  ∧ SF_nonneg (ratio_to_SF false a b)
  ∧ (Rabs (SF2R (ratio_to_SF false a b) - IZR a / IZR b)
     <= bpow (B - 54) + bpow (B - 57))%R.
Proof.
  intros Ha Hb Hab HB. unfold ratio_to_SF.
  rewrite (proj2 (Z.eqb_neq a 0)) by lia. cbv zeta.
  set (k := Z.max 0 (Z.log2 b - Z.log2 a + 56)).
  set (q := a * 2 ^ k / b).
  set (sticky := if (a * 2 ^ k) mod b =? 0 then 0 else 1).
  pose proof (Z.log2_spec a Ha) as Hla. pose proof (Z.log2_spec b Hb) as Hlb.
  pose proof (Z.log2_nonneg a) as Hla0. pose proof (Z.log2_nonneg b) as Hlb0.
  assert (0 ≤ k) as Hk0 by lia.
  assert (0 < 2 ^ k) as Hpk by (apply Z.pow_pos_nonneg; lia).
  assert (0 < 2 ^ B) as HpB by (apply Z.pow_pos_nonneg; lia).
  (* the quotient has at least 56 bits *)
  assert (b * 2 ^ 55 ≤ a * 2 ^ k) as Hlow.
  { assert (2 ^ (Z.succ (Z.log2 b) + 55) ≤ 2 ^ (Z.log2 a + k)) as H
      by (apply Z.pow_le_mono_r; lia).
    rewrite !Z.pow_add_r in H by lia.
    apply Z.le_trans with (2 ^ Z.succ (Z.log2 b) * 2 ^ 55).
    - apply Z.mul_le_mono_nonneg_r; [done | lia].
    - apply Z.le_trans with (2 ^ Z.log2 a * 2 ^ k); [done |].
      apply Z.mul_le_mono_nonneg_r; lia. }
  assert (2 ^ 55 ≤ q) as Hq by (apply Z.div_le_lower_bound; lia).
  assert (q < 2 ^ (B + k)) as Hq'.
  { apply Z.div_lt_upper_bound; [done |]. rewrite Z.pow_add_r by lia. nia. }
  pose proof (Z.div_mod (a * 2 ^ k) b ltac:(lia)) as Hdm.
  pose proof (Z.mod_pos_bound (a * 2 ^ k) b Hb) as Hrem.
  fold q in Hdm.
  assert (0 ≤ sticky ≤ 1 ∧ Z.abs ((2 * q + sticky) * b - a * 2 ^ (k + 1)) ≤ b)
    as [Hs Hexact].
  { rewrite Z.pow_add_r by lia. change (2 ^ 1) with 2. unfold sticky.
    destruct (Z.eqb_spec ((a * 2 ^ k) mod b) 0); nia. }
  change (2 ^ 55) with 36028797018963968 in Hq.
  destruct (2 * q + sticky) as [|m|m] eqn:Hm; [lia | | lia].
  cbn [binary_normalize]. unfold binary_round.
  pose proof (digits2_pos_bounds m) as Hdig.
  set (d := Zpos (digits2_pos m)) in *.
  assert (57 ≤ d) as Hd57.
  { destruct (Z_le_gt_dec 57 d) as [|Hlt]; [done |]. exfalso.
    assert (2 ^ d ≤ 2 ^ 56) by (apply Z.pow_le_mono_r; lia).
    change (2 ^ 56) with 72057594037927936 in *. lia. }
  assert (d + (- k - 1) ≤ B) as HdB.
  { assert (d - 1 < B + k + 1); [|lia].
    apply (Z.pow_lt_mono_r_iff 2); [lia | lia |].
    replace (B + k + 1) with (Z.succ (B + k)) by lia.
    rewrite Z.pow_succ_r by lia. lia. }
  assert (- k - 1 ≤ B - 57) as HeB.
  { assert (Z.log2 a < Z.succ (Z.log2 b) + B); [|lia].
    apply (Z.pow_lt_mono_r_iff 2); [lia | lia |].
    rewrite Z.pow_add_r by lia. nia. }
  unfold shl_align.
  destruct (fexp prec emax (d + (- k - 1)) - (- k - 1)) as [|p|p] eqn:Hsh;
    [| |rewrite fexp_eq in Hsh; lia].
  all: destruct (binary_round_aux_spec m (- k - 1)) as (Hv & Hn & Herr);
    [fold d; rewrite fexp_eq; lia | fold d; lia |].
  all: split; [exact Hv |]; split; [exact Hn |].
  all: fold d in Herr.
  all: set (V := SF2R (binary_round_aux prec emax false (Zpos m) (- k - 1)
                         loc_Exact)) in *.
  all: assert (bpow (fexp prec emax (d + (- k - 1))) <= bpow (B - 53))%R
    as HE by (apply bpow_le; rewrite fexp_eq; lia).
  all: assert (bpow (B - 53) = 2 * bpow (B - 54))%R as H2.
  1,3: replace (B - 53) with (1 + (B - 54)) by lia; rewrite bpow_add;
    change (bpow 1) with (2 * 1)%R; ring.
  all: assert (Rabs (F2R (Zpos m) (- k - 1) - IZR a / IZR b)
               <= bpow (B - 57))%R as Hquot.
  1,3: apply Rle_trans with (bpow (- k - 1)); [|by apply bpow_le];
    apply quotient_error; [done | lia | done].
  all: replace (V - IZR a / IZR b)%R
    with ((V - F2R (Zpos m) (- k - 1))
          + (F2R (Zpos m) (- k - 1) - IZR a / IZR b))%R by ring.
  all: eapply Rle_trans; [apply Rabs_triang |]; lra.
Qed.

Lemma Prim2SF_100 :
  Prim2SF 100%float = S754_finite false 7036874417766400 (-46).
Proof. vm_compute. reflexivity. Qed.

Lemma bpow_neg_IZR (n : Z) : 0 ≤ n → (bpow (- n) * IZR (2 ^ n) = 1)%R.
Proof. intros Hn. rewrite <- bpow_IZR by done. apply bpow_opp. Qed.

(** Multiplying a float of at most 1.25 by 100 is off by at most
    [2^-47]. *)
Lemma mul_100_spec (x : spec_float) :
  SF_nonneg x → (SF2R x <= 5 / 4)%R →
  SpecFloat.valid_binary prec emax (SF64mul x (Prim2SF 100%float)) = true
  ∧ SF_nonneg (SF64mul x (Prim2SF 100%float))
  ∧ (Rabs (SF2R (SF64mul x (Prim2SF 100%float)) - 100 * SF2R x)
     <= bpow (-47))%R.
Proof.
  intros Hx Hle. rewrite Prim2SF_100. pose proof (bpow_pos (-47)).
  destruct x as [[|]|[|]| |[|] m e]; try done.
  - unfold SF64mul. cbn [SFmul xorb SF2R]. split; [reflexivity |].
    split; [exact I |].
    rewrite Rmult_0_r, Rminus_0_r, Rabs_R0. lra.
  - unfold SF64mul, SFmul. cbn [xorb].
    cbn [SF2R] in Hle |- *.
    pose proof (digits2_pos_bounds (m * 7036874417766400)) as Hdig.
    set (M := (m * 7036874417766400)%positive) in *.
    set (d := Zpos (digits2_pos M)) in *.
    assert (F2R (Zpos M) (e + -46) = 100 * F2R (Zpos m) e)%R as Hval.
    { unfold F2R, M. rewrite Pos2Z.inj_mul, mult_IZR, bpow_add.
      pose proof (bpow_neg_IZR 46 ltac:(lia)) as H46.
      change (- (46)) with (-46) in H46.
      change (2 ^ 46) with 70368744177664 in H46.
      replace (IZR 7036874417766400) with (100 * IZR 70368744177664)%R
        by (rewrite <- mult_IZR; reflexivity).
      set (p := bpow (-46)) in *. set (c := IZR 70368744177664) in *.
      replace (IZR (Zpos m) * (100 * c) * (bpow e * p))%R
        with (100 * (IZR (Zpos m) * bpow e) * (p * c))%R by ring.
      rewrite H46. ring. }
    assert (53 ≤ d) as Hd53.
    { destruct (Z_le_gt_dec 53 d) as [|Hlt]; [done |]. exfalso.
      assert (2 ^ d ≤ 2 ^ 52) by (apply Z.pow_le_mono_r; lia).
      change (2 ^ 52) with 4503599627370496 in *. unfold M in Hdig. lia. }
    assert (d + (e + -46) ≤ 7) as Hd7.
    { assert (d - 1 + (e + -46) < 7); [|lia]. apply bpow_lt_inv.
      apply Rle_lt_trans with (F2R (Zpos M) (e + -46)).
      - unfold F2R. rewrite bpow_add, (bpow_IZR (d - 1)) by lia.
        apply Rmult_le_compat_r; [apply Rlt_le, bpow_pos |].
        apply IZR_le. lia.
      - rewrite Hval. rewrite (bpow_IZR 7) by lia.
        change (2 ^ 7) with 128. lra. }
    destruct (binary_round_aux_spec M (e + -46)) as (Hv & Hn & Herr);
      [fold d; rewrite fexp_eq; lia | fold d; lia |].
    split; [exact Hv |]. split; [exact Hn |].
    rewrite <- Hval. eapply Rle_trans; [exact Herr |]. fold d.
    apply Rle_trans with (bpow (-46) / 2)%R.
    + apply Rmult_le_compat_r; [lra |]. apply bpow_le. rewrite fexp_eq. lia.
    + right. replace (-46) with (1 + -47) by lia. rewrite bpow_add.
      change (bpow 1) with (2 * 1)%R. field.
Qed.

(** [round(x, 2)] of a float that is zero or positive: the double
    nearest to [k / 100] for the integer [k] nearest to a hundred times
    the float. *)
Lemma py_round2_spec (x : float) :
  SF_nonneg (Prim2SF x) →
  ∃ k, 0 ≤ k
       ∧ py_round2 x = SF2Prim (ratio_to_SF false k 100)
       ∧ (Rabs (IZR k - 100 * float_value x) <= 1 / 2)%R.
Proof.
  intros Hx. unfold py_round2, float_value.
  destruct (Prim2SF x) as [[|]|[|]| |[|] m e] eqn:Hsf; try done.
  - exists 0. split; [lia |]. split.
    + rewrite <- (SF2Prim_Prim2SF x) at 1. by rewrite Hsf.
    + cbn [SF2R]. rewrite Rmult_0_r, Rminus_0_r, Rabs_R0. lra.
  - exists (hundredths m e).
    destruct (hundredths_nearest m e) as [Hpos Hneg].
    cbn [SF2R]. unfold F2R.
    destruct (Z_le_gt_dec 0 e) as [He|He].
    + rewrite (Hpos He). split.
      { pose proof (Z.pow_pos_nonneg 2 e). lia. }
      split; [reflexivity |].
      rewrite !mult_IZR, <- bpow_IZR by done.
      replace (IZR (Zpos m) * 100 * bpow e - 100 * (IZR (Zpos m) * bpow e))%R
        with 0%R by ring.
      rewrite Rabs_R0. lra.
    + specialize (Hneg ltac:(lia)).
      assert (0 < 2 ^ (- e)) as HP by (apply Z.pow_pos_nonneg; lia).
      split; [nia |]. split; [reflexivity |].
      apply IZR_le in Hneg.
      rewrite mult_IZR, abs_IZR, minus_IZR, !mult_IZR in Hneg.
      rewrite <- (bpow_IZR (- e)) in Hneg by lia.
      pose proof (bpow_opp e) as Hinv. pose proof (bpow_pos e) as Hp.
      pose proof (bpow_pos (- e)) as Hp'.
      set (P := bpow (- e)) in *. set (p := bpow e) in *.
      replace (IZR (hundredths m e) - 100 * (IZR (Zpos m) * p))%R
        with ((IZR (hundredths m e) * P - IZR (Zpos m) * 100) * p)%R
        by (replace (IZR (hundredths m e)) with (IZR (hundredths m e) * (P * p))%R
              at 2 by (rewrite Hinv; ring); ring).
      rewrite Rabs_mult, (Rabs_pos_eq p) by lra.
      apply Rle_trans with (P / 2 * p)%R.
      * apply Rmult_le_compat_r; lra.
      * right. replace (P / 2 * p)%R with ((P * p) / 2)%R by field.
        rewrite Hinv. lra.
Qed.

Lemma int_truediv_ratio (c l : Z) :
  0 < c ≤ l →
  int_truediv c l = Ok (SF2Prim (ratio_to_SF false c l)).
Proof.
  intros [Hc Hl]. unfold int_truediv.
  rewrite (proj2 (Z.eqb_neq l 0)) by lia.
  rewrite !Z.abs_eq by lia.
  assert (2 < overflow_threshold) as Hbig by (vm_compute; reflexivity).
  rewrite (proj2 (Z.leb_gt (overflow_threshold * l) (2 * c))) by nia.
  rewrite (proj2 (Z.ltb_ge c 0)), (proj2 (Z.ltb_ge l 0)) by lia.
  reflexivity.
Qed.

(** The accuracy of [round(count / length * 100, 2)] in binary64: the
    result is the double nearest to [k / 100] for an integer [k] of
    hundredths that is within [1/2 + 2^-38] of the exact number of
    hundredths [10000 * count / length]. *)
Lemma percentage_accuracy (c l : Z) :
  0 < c ≤ l →
  ∃ (ratio : float) (k : Z),
    int_truediv c l = Ok ratio
    ∧ py_round2 (PrimFloat.mul ratio 100) = SF2Prim (ratio_to_SF false k 100)
    ∧ 0 ≤ k ≤ 10000
    ∧ 2 ^ 39 * Z.abs (k * l - 10000 * c) ≤ (2 ^ 38 + 2) * l
    ∧ (Rabs (float_value (py_round2 (PrimFloat.mul ratio 100)) - IZR k / 100)
       <= bpow (-46))%R.
Proof.
  intros Hcl. exists (SF2Prim (ratio_to_SF false c l)).
  destruct (ratio_to_SF_spec c l 1) as (Hv1 & Hn1 & He1);
    [lia | lia | change (2 ^ 1) with 2; lia | lia |].
  change (1 - 54) with (-53) in He1. change (1 - 57) with (-56) in He1.
  pose proof (bpow_neg_IZR 53 ltac:(lia)) as H53.
  pose proof (bpow_neg_IZR 56 ltac:(lia)) as H56.
  pose proof (bpow_neg_IZR 47 ltac:(lia)) as H47.
  pose proof (bpow_neg_IZR 46 ltac:(lia)) as H46.
  pose proof (bpow_neg_IZR 50 ltac:(lia)) as H50.
  change (- (53)) with (-53) in H53. change (- (56)) with (-56) in H56.
  change (- (47)) with (-47) in H47. change (- (46)) with (-46) in H46.
  change (- (50)) with (-50) in H50.
  change (2 ^ 53) with 9007199254740992 in H53.
  change (2 ^ 56) with 72057594037927936 in H56.
  change (2 ^ 47) with 140737488355328 in H47.
  change (2 ^ 46) with 70368744177664 in H46.
  change (2 ^ 50) with 1125899906842624 in H50.
  set (x := ratio_to_SF false c l) in *.
  assert (0 < IZR c <= IZR l)%R as [HcR HlR]
    by (split; [apply IZR_lt | apply IZR_le]; lia).
  assert (0 < IZR c / IZR l <= 1)%R as Hr.
  { split; [apply Rdiv_lt_0_compat; lra |].
    assert (IZR c / IZR l * IZR l = IZR c)%R by (field; lra). nra. }
  set (r := (IZR c / IZR l)%R) in *.
  assert (SF2R x <= 5 / 4)%R as Hx54.
  { apply Rabs_bound in He1. lra. }
  destruct (mul_100_spec x Hn1 Hx54) as (Hv2 & Hn2 & He2).
  assert (Prim2SF (PrimFloat.mul (SF2Prim x) 100)
          = SF64mul x (Prim2SF 100%float)) as Hmul
    by (by rewrite mul_spec, Prim2SF_SF2Prim).
  destruct (py_round2_spec (PrimFloat.mul (SF2Prim x) 100))
    as (k & Hk0 & Hk & Hkerr); [by rewrite Hmul |].
  unfold float_value in Hkerr. rewrite Hmul in Hkerr.
  set (y := SF2R (SF64mul x (Prim2SF 100%float))) in *.
  exists k. split; [by apply int_truediv_ratio |]. split; [exact Hk |].
  pose proof (bpow_neg_IZR 38 ltac:(lia)) as H38.
  change (- (38)) with (-38) in H38.
  change (2 ^ 38) with 274877906944 in H38.
  assert (Rabs (IZR k - 10000 * r) <= 1 / 2 + bpow (-38))%R as Hreal.
  { apply Rabs_bound in He1, He2, Hkerr. apply Rabs_le. lra. }
  assert (2 ^ 39 * Z.abs (k * l - 10000 * c) ≤ (2 ^ 38 + 2) * l) as HZ.
  { apply le_IZR. rewrite !mult_IZR, abs_IZR, minus_IZR, !mult_IZR.
    change (2 ^ 39) with 549755813888. change (2 ^ 38 + 2) with 274877906946.
    replace (IZR k * IZR l - 10000 * IZR c)%R
      with ((IZR k - 10000 * r) * IZR l)%R by (unfold r; field; lra).
    rewrite Rabs_mult, (Rabs_pos_eq (IZR l)) by lra.
    set (t := Rabs (IZR k - 10000 * r)) in *.
    assert (549755813888 * t <= 274877906946)%R by lra.
    nra. }
  split; [|split; [exact HZ |]].
  { split; [done |]. change (2 ^ 39) with 549755813888 in HZ.
    change (2 ^ 38 + 2) with 274877906946 in HZ. nia. }
  rewrite Hk. unfold float_value.
  destruct (Z.eq_dec k 0) as [->|Hk1].
  - assert (Prim2SF (SF2Prim (ratio_to_SF false 0 100)) = S754_zero false)
      as -> by (vm_compute; reflexivity).
    cbn [SF2R]. unfold Rdiv. rewrite Rmult_0_l, Rminus_0_r, Rabs_R0. lra.
  - assert (0 ≤ k ≤ 10000) as Hk10.
    { split; [done |]. change (2 ^ 39) with 549755813888 in HZ.
      change (2 ^ 38 + 2) with 274877906946 in HZ. nia. }
    destruct (ratio_to_SF_spec k 100 7) as (Hv3 & Hn3 & He3);
      [lia | lia | change (2 ^ 7) with 128; lia | lia |].
    rewrite Prim2SF_SF2Prim by done.
    change (7 - 54) with (-47) in He3. change (7 - 57) with (-50) in He3.
    change (IZR 100) with 100%R in He3.
    eapply Rle_trans; [exact He3 |]. lra.
Qed.

Lemma overflow_threshold_large : 2 < overflow_threshold.
Proof. vm_compute. reflexivity. Qed.

(** A count divided by the length never overflows. *)
Lemma int_truediv_count (n l : Z) :
  0 ≤ n ≤ l → 0 < l → ∃ ratio, int_truediv n l = Ok ratio.
Proof.
  intros Hn Hl. unfold int_truediv.
  rewrite (proj2 (Z.eqb_neq l 0)) by lia.
  pose proof overflow_threshold_large as Hbig.
  destruct (Z.leb_spec (overflow_threshold * Z.abs l) (2 * Z.abs n)) as [H|H];
    [|eauto].
  exfalso. rewrite !Z.abs_eq in H by lia.
  assert (2 * l < overflow_threshold * l) by (apply Z.mul_lt_mono_pos_r; lia).
  lia.
Qed.

(** What [analyze_encrypted_text] returns for a non-empty text: the table
    of frequencies in first-occurrence order, and the item the scan for the
    maximum stops on. *)
Lemma analyze_nonempty (t : pystr) :
  t ≠ [] →
  ∃ (a : CaesarCipher.analysis) (front back : dict) (c : char) (ratio : float),
    CaesarCipher.analyze_encrypted_text t = Ok (CaesarCipher.Analysis a)
    ∧ CaesarCipher.an_length a = len t
    ∧ CaesarCipher.an_unique_chars a
      = Z.of_nat (size (list_to_set t : gset char))
    ∧ CaesarCipher.an_char_frequency a = frequency_table t
    ∧ frequency_table t = front ++ (c, occurrences c t) :: back
    ∧ (∀ y, y ∈ front → snd y < occurrences c t)
    ∧ (∀ y, y ∈ back → snd y ≤ occurrences c t)
    ∧ int_truediv (occurrences c t) (len t) = Ok ratio
    ∧ CaesarCipher.an_most_common_char a
      = Some {| CaesarCipher.mc_char := c;
                CaesarCipher.mc_count := occurrences c t;
                CaesarCipher.mc_percentage :=
                  py_round2 (PrimFloat.mul ratio 100) |}.
Proof.
  intros Ht. unfold CaesarCipher.analyze_encrypted_text.
  rewrite (truthy_nonempty t Ht). cbn [negb].
  match goal with |- context [CaesarCipher.count_loop t ?a0] =>
    pose proof (count_loop_table t [] a0 eq_refl) as Hfreq;
    destruct (count_loop_length t a0) as [Hlen Huniq];
    set (a := CaesarCipher.count_loop t a0) in *
  end.
  cbn [app] in Hfreq. cbn in Hlen, Huniq. rewrite Hfreq.
  destruct (frequency_table t) as [|best rest] eqn:Htab.
  { exfalso. destruct t as [|c0 t']; [done |].
    assert (c0 ∈ first_seen (c0 :: t')) as Hin
      by (apply elem_of_first_seen; left).
    unfold frequency_table in Htab.
    destruct (first_seen (c0 :: t')); [inversion Hin | discriminate]. }
  cbn [truthy py_max_by_value mbind result_bind].
  destruct (max_scan_split [] [] rest best) as (front & back & E & Hf & Hb).
  { intros y Hy. inversion Hy. }
  { intros y Hy. inversion Hy. }
  cbn [app] in E.
  assert (max_scan rest best ∈ frequency_table t) as Hx.
  { rewrite Htab, E. apply elem_of_app. right. left. }
  unfold frequency_table in Hx. apply list_elem_of_fmap in Hx as (c & Hc & Hin).
  apply (proj1 (elem_of_first_seen _ _)) in Hin.
  rewrite Hc in *. cbn [fst snd] in *.
  destruct (int_truediv_count (occurrences c t) (len t)) as [ratio Hr].
  { pose proof (occurrences_le_len t c). lia. }
  { unfold len. destruct t; [done | simpl; lia]. }
  rewrite Hr. cbn [mbind result_bind].
  eexists _, front, back, c, ratio.
  split; [reflexivity |]. cbn.
  repeat split; try done.
Qed.

(** A number of hundredths within [1/2 + 2^-38] of the exact one is the
    exactly rounded one unless the exact one is that close to a tie, and
    is never further than one hundredth from it. *)
Lemma hundredths_near_exact (k n l : Z) :
  0 < l →
  2 ^ 39 * Z.abs (k * l - n) ≤ (2 ^ 38 + 2) * l →
  Z.abs (k - round_half_even n l) ≤ 1
  ∧ (2 ^ 39 * Z.abs (round_half_even n l * l - n) < (2 ^ 38 - 2) * l →
     k = round_half_even n l).
Proof.
  intros Hl Hk. pose proof (round_half_even_nearest n l Hl) as Hx.
  set (x := round_half_even n l) in *.
  change (2 ^ 39) with 549755813888 in *.
  change (2 ^ 38 + 2) with 274877906946 in *.
  change (2 ^ 38 - 2) with 274877906942.
  split; [nia |]. intros Hfar.
  destruct (Z.lt_trichotomy k x) as [Hlt|[Heq|Hgt]]; [nia | done | nia].
Qed.

(** C5: for every non-empty text the analysis reports as most common a
    symbol of the text with its number of occurrences, which no symbol
    exceeds; any other symbol with as many occurrences first occurs later
    in the text.  The percentage is [round(count / len(text) * 100, 2)]
    in binary64: the double nearest to [k / 100] for a number [k] of
    hundredths between 0 and 10000 that is within [1/2 + 2^-38] of the
    exact [10000 * count / len(text)], hence at most one hundredth from
    the exactly rounded percentage, and equal to it whenever the exact
    value is not within [2^-38] of a tie; the value of the float is within
    [2^-46] of [k / 100].  For ["aabb"] the length is 4, the distinct
    count 2, and the symbol reported is [a], with count 2 and percentage
    50.0. *)
Theorem analyze_most_common_leftmost (t : pystr) :
  t ≠ [] →
  (∃ (a : CaesarCipher.analysis) (mc : CaesarCipher.most_common)
     (ratio : float),
     CaesarCipher.analyze_encrypted_text t = Ok (CaesarCipher.Analysis a)
     ∧ CaesarCipher.an_length a = len t
     ∧ CaesarCipher.an_most_common_char a = Some mc
     ∧ CaesarCipher.mc_char mc ∈ t
     ∧ CaesarCipher.mc_count mc = occurrences (CaesarCipher.mc_char mc) t
     ∧ (∀ c, occurrences c t ≤ CaesarCipher.mc_count mc)
     ∧ (∀ c, c ≠ CaesarCipher.mc_char mc →
          occurrences c t = CaesarCipher.mc_count mc →
          first_before t (CaesarCipher.mc_char mc) c)
     ∧ int_truediv (CaesarCipher.mc_count mc) (len t) = Ok ratio
     ∧ CaesarCipher.mc_percentage mc = py_round2 (PrimFloat.mul ratio 100)
     ∧ ∃ k : Z,
         0 ≤ k ≤ 10000
         ∧ CaesarCipher.mc_percentage mc = SF2Prim (ratio_to_SF false k 100)
         ∧ 2 ^ 39 * Z.abs (k * len t - 10000 * CaesarCipher.mc_count mc)
           ≤ (2 ^ 38 + 2) * len t
         ∧ Z.abs (k - round_half_even (10000 * CaesarCipher.mc_count mc)
                        (len t)) ≤ 1
         ∧ (2 ^ 39
            * Z.abs (round_half_even (10000 * CaesarCipher.mc_count mc) (len t)
                     * len t - 10000 * CaesarCipher.mc_count mc)
            < (2 ^ 38 - 2) * len t →
            k = round_half_even (10000 * CaesarCipher.mc_count mc) (len t))
         ∧ (Rabs (float_value (CaesarCipher.mc_percentage mc) - IZR k / 100)
            <= bpow (-46))%R)
  ∧ (∃ a : CaesarCipher.analysis,
       CaesarCipher.analyze_encrypted_text (str "aabb")
         = Ok (CaesarCipher.Analysis a)
       ∧ CaesarCipher.an_length a = 4
       ∧ CaesarCipher.an_unique_chars a = 2
       ∧ CaesarCipher.an_most_common_char a
         = Some {| CaesarCipher.mc_char := 97%N;
                   CaesarCipher.mc_count := 2;
                   CaesarCipher.mc_percentage := 50%float |}).
Proof.
  intros Ht. split; [|eexists; split; [vm_compute; reflexivity | done]].
  destruct (analyze_nonempty t Ht)
    as (a & front & back & c & ratio & Ha & Hlen & _ & _ & Htab & Hf & Hb
        & Hr & Hmc).
  exists a, {| CaesarCipher.mc_char := c;
               CaesarCipher.mc_count := occurrences c t;
               CaesarCipher.mc_percentage :=
                 py_round2 (PrimFloat.mul ratio 100) |}, ratio.
  cbn [CaesarCipher.mc_char CaesarCipher.mc_count CaesarCipher.mc_percentage].
  assert (c ∈ t) as Hc.
  { apply elem_of_first_seen.
    assert ((c, occurrences c t) ∈ frequency_table t) as H
      by (rewrite Htab; apply elem_of_app; right; left).
    unfold frequency_table in H.
    apply list_elem_of_fmap in H as (k & [= ->] & Hk). exact Hk. }
  assert (∀ c', c' ∈ t →
            (c', occurrences c' t) ∈ front ∨ c' = c
            ∨ (c', occurrences c' t) ∈ back) as Hcases.
  { intros c' Hc'.
    assert ((c', occurrences c' t) ∈ frequency_table t) as H.
    { unfold frequency_table.
      apply (list_elem_of_fmap_2 (λ k, (k, occurrences k t))).
      by apply elem_of_first_seen. }
    rewrite Htab in H. apply elem_of_app in H as [H|H]; [by left |].
    apply elem_of_cons in H as [[= ->]|H]; [right; by left | right; by right]. }
  assert (0 < occurrences c t ≤ len t) as Hcount.
  { pose proof (occurrences_in t c Hc). pose proof (occurrences_le_len t c).
    lia. }
  split; [done |]. split; [done |]. split; [done |]. split; [done |].
  split; [done |]. split; [|split; [|split; [done |split; [done |]]]].
  - intros c'. destruct (decide (c' ∈ t)) as [Hin|Hnin].
    + destruct (Hcases c' Hin) as [H|[->|H]]; [|lia|].
      * specialize (Hf _ H). cbn in Hf. lia.
      * specialize (Hb _ H). cbn in Hb. lia.
    + rewrite (occurrences_not_in t c' Hnin). lia.
  - intros c' Hne Heq.
    assert (c' ∈ t) as Hin.
    { destruct (decide (c' ∈ t)) as [|Hnin]; [done |].
      rewrite (occurrences_not_in t c' Hnin) in Heq. lia. }
    destruct (Hcases c' Hin) as [H|[->|H]]; [| done |].
    { specialize (Hf _ H). cbn in Hf. lia. }
    pose proof (first_seen_sorted t) as Hs.
    assert (first_seen t = (fst <$> front) ++ c :: (fst <$> back)) as Hkeys.
    { transitivity (fst <$> frequency_table t).
      - unfold frequency_table. rewrite <- list_fmap_compose.
        symmetry. apply list_fmap_id.
      - by rewrite Htab, fmap_app, fmap_cons. }
    rewrite Hkeys in Hs. apply StronglySorted_app_1_r in Hs.
    apply StronglySorted_cons in Hs as [Hall _].
    rewrite Forall_forall in Hall. apply Hall.
    by apply (list_elem_of_fmap_2 fst) in H.
  - destruct (percentage_accuracy (occurrences c t) (len t) Hcount)
      as (ratio' & k & Hr' & Hk & Hk10 & Hnear & Hval).
    rewrite Hr in Hr'. injection Hr' as <-.
    destruct (hundredths_near_exact k (10000 * occurrences c t) (len t)
                ltac:(lia) Hnear) as [Hone Hexact].
    exists k. by rewrite <- Hk at 1.
Qed.

Lemma analyze_most_common_leftmost_witness :
  ∃ (a : CaesarCipher.analysis) (mc : CaesarCipher.most_common)
    (ratio : float),
    CaesarCipher.analyze_encrypted_text (str "abba")
      = Ok (CaesarCipher.Analysis a)
    ∧ CaesarCipher.an_length a = len (str "abba")
    ∧ CaesarCipher.an_most_common_char a = Some mc
    ∧ CaesarCipher.mc_char mc ∈ str "abba"
    ∧ CaesarCipher.mc_count mc = occurrences (CaesarCipher.mc_char mc) (str "abba")
    ∧ (∀ c, occurrences c (str "abba") ≤ CaesarCipher.mc_count mc)
    ∧ (∀ c, c ≠ CaesarCipher.mc_char mc →
         occurrences c (str "abba") = CaesarCipher.mc_count mc →
         first_before (str "abba") (CaesarCipher.mc_char mc) c)
    ∧ int_truediv (CaesarCipher.mc_count mc) (len (str "abba")) = Ok ratio
    ∧ CaesarCipher.mc_percentage mc = py_round2 (PrimFloat.mul ratio 100)
    ∧ ∃ k : Z,
        0 ≤ k ≤ 10000
        ∧ CaesarCipher.mc_percentage mc = SF2Prim (ratio_to_SF false k 100)
        ∧ 2 ^ 39 * Z.abs (k * len (str "abba")
                          - 10000 * CaesarCipher.mc_count mc)
          ≤ (2 ^ 38 + 2) * len (str "abba")
        ∧ Z.abs (k - round_half_even (10000 * CaesarCipher.mc_count mc)
                       (len (str "abba"))) ≤ 1
        ∧ (2 ^ 39
           * Z.abs (round_half_even (10000 * CaesarCipher.mc_count mc)
                      (len (str "abba"))
                    * len (str "abba") - 10000 * CaesarCipher.mc_count mc)
           < (2 ^ 38 - 2) * len (str "abba") →
           k = round_half_even (10000 * CaesarCipher.mc_count mc)
                 (len (str "abba")))
        ∧ (Rabs (float_value (CaesarCipher.mc_percentage mc) - IZR k / 100)
           <= bpow (-46))%R.
Proof.
  apply (proj1 (analyze_most_common_leftmost (str "abba") ltac:(discriminate))).
Defined.

(** C5 as the specification states it does not hold: in [tie_text] the
    symbol [a] makes up 23 of 160 symbols, exactly 14.375 per cent, which
    rounded to two decimal places is 14.38; the quotient [0.14375] is not
    a double, a hundred times the nearest double is
    14.374999999999998..., and the analysis reports 14.37. *)
Lemma percentage_not_exactly_rounded :
  CaesarCipher.analyze_encrypted_text tie_text
  = Ok (CaesarCipher.Analysis
          {| CaesarCipher.an_length := 160;
             CaesarCipher.an_unique_chars := 7;
             CaesarCipher.an_char_frequency :=
               [ (97%N, 23); (98%N, 23); (99%N, 23); (100%N, 23);
                 (101%N, 23); (102%N, 23); (103%N, 22) ];
             CaesarCipher.an_most_common_char :=
               Some {| CaesarCipher.mc_char := 97%N;
                       CaesarCipher.mc_count := 23;
                       CaesarCipher.mc_percentage := 14.37%float |};
             CaesarCipher.an_printable_chars := 160;
             CaesarCipher.an_non_printable_chars := 0 |})
  ∧ 10000 * 23 = 1437 * 160 + 80
  ∧ round_half_even (10000 * 23) 160 = 1438
  ∧ SF2Prim (ratio_to_SF false 1438 100) = 14.38%float
  ∧ SF2Prim (ratio_to_SF false 1437 100) = 14.37%float
  ∧ 14.37%float ≠ 14.38%float.
Proof.
  split; [vm_compute; reflexivity |]. split; [reflexivity |].
  split; [reflexivity |]. split; [vm_compute; reflexivity |].
  split; [vm_compute; reflexivity |].
  intros H. apply (f_equal Prim2SF) in H. vm_compute in H. discriminate.
Qed.

(** C7: [analyze_encrypted_text] returns for every text; for the empty
    text it returns the dictionary with the one key ["error"], where
    [encrypt], [decrypt] (with a shift in range) and [brute_force_decrypt]
    raise the empty-text error. *)
Theorem analyze_never_raises (t : pystr) (s : Z) :
  1 ≤ s ≤ 25 →
  (∃ r, CaesarCipher.analyze_encrypted_text t = Ok r)
  ∧ CaesarCipher.analyze_encrypted_text []
    = Ok (CaesarCipher.AnalysisError "Empty text provided")
  ∧ CaesarCipher.encrypt [] s = Raise CaesarCipher.text_error
  ∧ CaesarCipher.decrypt [] s = Raise CaesarCipher.encrypted_text_error
  ∧ CaesarCipher.brute_force_decrypt []
    = Raise CaesarCipher.encrypted_text_error.
Proof.
  intros Hs. split; [|split; [reflexivity |]].
  - destruct t as [|c t]; [by eexists |].
    destruct (analyze_nonempty (c :: t)) as (a & _ & _ & _ & _ & Ha & _);
      [done | eauto].
  - unfold CaesarCipher.encrypt, CaesarCipher.decrypt.
    by rewrite shift_in_range.
Qed.

Lemma analyze_never_raises_witness :
  (∃ r, CaesarCipher.analyze_encrypted_text [0; 233; 65536]%N = Ok r)
  ∧ CaesarCipher.analyze_encrypted_text []
    = Ok (CaesarCipher.AnalysisError "Empty text provided")
  ∧ CaesarCipher.encrypt [] 5 = Raise CaesarCipher.text_error
  ∧ CaesarCipher.decrypt [] 5 = Raise CaesarCipher.encrypted_text_error
  ∧ CaesarCipher.brute_force_decrypt []
    = Raise CaesarCipher.encrypted_text_error.
Proof. apply (analyze_never_raises [0; 233; 65536]%N 5). lia. Defined.

(** ** Shift suggestions *)

Section SuggestionProperties.

Variable str_lower : pystr → pystr.

(** The result by cases on which patterns were found. *)
Lemma suggestions_by_cases (sample : pystr) :
sample ≠ [] →
CaesarCipher.generate_shift_suggestions str_lower sample =
  match contributed (str_in (str_lower (str "def ")) (str_lower sample))
          (str_in (str_lower (str "class ")) (str_lower sample))
          (str_in (str_lower (str "print(")) (str_lower sample))
          (str_in (str_lower (str "import ")) (str_lower sample))
          (str_in (str_lower (str "if __name__")) (str_lower sample)) with
  | [] => [1; 3; 5; 7; 13]
  | l => l
  end.
Proof.
intros Hs. unfold CaesarCipher.generate_shift_suggestions.
  rewrite (truthy_nonempty sample Hs).
  unfold CaesarCipher.common_patterns.
  cbn [negb CaesarCipher.patterns_loop].
  destruct (str_in (str_lower (str "def ")) (str_lower sample));
    destruct (str_in (str_lower (str "class ")) (str_lower sample));
    destruct (str_in (str_lower (str "print(")) (str_lower sample));
    destruct (str_in (str_lower (str "import ")) (str_lower sample));
    destruct (str_in (str_lower (str "if __name__")) (str_lower sample));
    vm_compute; reflexivity.
Qed.

Lemma contributed_sorted (b3 b5 b7 b11 b13 : bool) :
  StronglySorted Z.lt (contributed b3 b5 b7 b11 b13)
  ∧ (length (contributed b3 b5 b7 b11 b13) ≤ 5)%nat.
Proof.
  destruct b3, b5, b7, b11, b13; cbn; (split; [|lia]);
    repeat first [ apply SSorted_nil | apply SSorted_cons
                 | apply Forall_nil_2 | apply Forall_cons_2 | lia ].
Qed.

Lemma elem_of_contributed (b3 b5 b7 b11 b13 : bool) (k : Z) :
  k ∈ contributed b3 b5 b7 b11 b13 ↔
    (k = 3 ∧ b3 = true) ∨ (k = 5 ∧ b5 = true) ∨ (k = 7 ∧ b7 = true)
    ∨ (k = 11 ∧ b11 = true) ∨ (k = 13 ∧ b13 = true).
Proof.
  unfold contributed. rewrite !elem_of_app.
  destruct b3, b5, b7, b11, b13;
    rewrite ?list_elem_of_singleton, ?elem_of_nil; intuition congruence.
Qed.

Lemma elem_of_common_patterns (pattern : pystr) (shift : Z) :
  (pattern, shift) ∈ CaesarCipher.common_patterns ↔
    (pattern = str "def " ∧ shift = 3) ∨ (pattern = str "class " ∧ shift = 5)
    ∨ (pattern = str "print(" ∧ shift = 7)
    ∨ (pattern = str "import " ∧ shift = 11)
    ∨ (pattern = str "if __name__" ∧ shift = 13).
Proof.
  unfold CaesarCipher.common_patterns.
  rewrite !elem_of_cons, elem_of_nil. split.
  - intros [H|[H|[H|[H|[H|[]]]]]]; injection H as -> ->; tauto.
  - intros [[-> ->]|[[-> ->]|[[-> ->]|[[-> ->]|[-> ->]]]]]; tauto.
Qed.

End SuggestionProperties.

(** C6: on the empty sample the suggestions are [1, 3, 5, 13].  On a
    non-empty sample, every pattern of the table found in the lower-cased
    sample contributes its shift; when some pattern is found nothing else
    is suggested, and when none is found the result is the first five of
    the default list [1, 3, 5, 7, 13, 17, 21, 25].  In every case the
    result is strictly ascending, hence sorted and without duplicates, and
    has at most five entries.  [str_lower] is the lower-casing built-in. *)
Theorem suggestions_sorted_and_bounded
    (str_lower : pystr → pystr) (sample : pystr) :
  CaesarCipher.generate_shift_suggestions str_lower [] = [1; 3; 5; 13]
  ∧ (sample ≠ [] →
     (∀ pattern shift,
        (pattern, shift) ∈ CaesarCipher.common_patterns →
        str_in (str_lower pattern) (str_lower sample) = true →
        shift ∈ CaesarCipher.generate_shift_suggestions str_lower sample)
     ∧ ((∃ pattern shift,
           (pattern, shift) ∈ CaesarCipher.common_patterns
           ∧ str_in (str_lower pattern) (str_lower sample) = true) →
        ∀ k, k ∈ CaesarCipher.generate_shift_suggestions str_lower sample →
             ∃ pattern,
               (pattern, k) ∈ CaesarCipher.common_patterns
               ∧ str_in (str_lower pattern) (str_lower sample) = true)
     ∧ ((∀ pattern shift,
           (pattern, shift) ∈ CaesarCipher.common_patterns →
           str_in (str_lower pattern) (str_lower sample) = false) →
        CaesarCipher.generate_shift_suggestions str_lower sample
          = take 5 [1; 3; 5; 7; 13; 17; 21; 25]))
  ∧ StronglySorted Z.lt
      (CaesarCipher.generate_shift_suggestions str_lower sample)
  ∧ (length (CaesarCipher.generate_shift_suggestions str_lower sample) ≤ 5)%nat.
Proof.
  split; [reflexivity |].
  set (b3 := str_in (str_lower (str "def ")) (str_lower sample)).
  set (b5 := str_in (str_lower (str "class ")) (str_lower sample)).
  set (b7 := str_in (str_lower (str "print(")) (str_lower sample)).
  set (b11 := str_in (str_lower (str "import ")) (str_lower sample)).
  set (b13 := str_in (str_lower (str "if __name__")) (str_lower sample)).
  assert (sample ≠ [] →
          CaesarCipher.generate_shift_suggestions str_lower sample =
            match contributed b3 b5 b7 b11 b13 with
            | [] => [1; 3; 5; 7; 13]
            | l => l
            end) as Hcases
    by apply suggestions_by_cases.
  assert (∀ pattern shift,
            (pattern, shift) ∈ CaesarCipher.common_patterns →
            (shift = 3 ∧ str_in (str_lower pattern) (str_lower sample) = b3)
            ∨ (shift = 5 ∧ str_in (str_lower pattern) (str_lower sample) = b5)
            ∨ (shift = 7 ∧ str_in (str_lower pattern) (str_lower sample) = b7)
            ∨ (shift = 11 ∧ str_in (str_lower pattern) (str_lower sample) = b11)
            ∨ (shift = 13 ∧ str_in (str_lower pattern) (str_lower sample) = b13))
    as Htable.
  { intros pattern shift Hin. apply elem_of_common_patterns in Hin.
    destruct Hin as [[-> ->]|[[-> ->]|[[-> ->]|[[-> ->]|[-> ->]]]]]; tauto. }
  split; [|destruct sample as [|c0 sample']].
  - intros Hs. rewrite (Hcases Hs). split; [|split].
    + intros pattern shift Hin Hfound.
      assert (shift ∈ contributed b3 b5 b7 b11 b13) as Hk.
      { apply elem_of_contributed.
        destruct (Htable pattern shift Hin)
          as [[-> E]|[[-> E]|[[-> E]|[[-> E]|[-> E]]]]];
          rewrite Hfound in E; symmetry in E; tauto. }
      destruct (contributed b3 b5 b7 b11 b13); [inversion Hk | exact Hk].
    + intros (pattern & shift & Hin & Hfound) k Hk.
      assert (contributed b3 b5 b7 b11 b13 ≠ []) as Hne.
      { intros Hnil.
        assert (shift ∈ contributed b3 b5 b7 b11 b13) as H.
        { apply elem_of_contributed.
          destruct (Htable pattern shift Hin)
            as [[-> E]|[[-> E]|[[-> E]|[[-> E]|[-> E]]]]];
            rewrite Hfound in E; symmetry in E; tauto. }
        rewrite Hnil in H. inversion H. }
      assert (k ∈ contributed b3 b5 b7 b11 b13) as Hk'
        by (destruct (contributed b3 b5 b7 b11 b13); done).
      apply elem_of_contributed in Hk'.
      destruct Hk' as [[-> E]|[[-> E]|[[-> E]|[[-> E]|[-> E]]]]].
      * exists (str "def "). split; [|exact E].
        apply elem_of_common_patterns. tauto.
      * exists (str "class "). split; [|exact E].
        apply elem_of_common_patterns. tauto.
      * exists (str "print("). split; [|exact E].
        apply elem_of_common_patterns. tauto.
      * exists (str "import "). split; [|exact E].
        apply elem_of_common_patterns. tauto.
      * exists (str "if __name__"). split; [|exact E].
        apply elem_of_common_patterns. tauto.
    + intros Hnone.
      assert (b3 = false) as -> by
        (apply (Hnone (str "def ") 3), elem_of_common_patterns; tauto).
      assert (b5 = false) as -> by
        (apply (Hnone (str "class ") 5), elem_of_common_patterns; tauto).
      assert (b7 = false) as -> by
        (apply (Hnone (str "print(") 7), elem_of_common_patterns; tauto).
      assert (b11 = false) as -> by
        (apply (Hnone (str "import ") 11), elem_of_common_patterns; tauto).
      assert (b13 = false) as -> by
        (apply (Hnone (str "if __name__") 13), elem_of_common_patterns; tauto).
      reflexivity.
  - cbn. split; [|lia].
    repeat first [ apply SSorted_nil | apply SSorted_cons
                 | apply Forall_nil_2 | apply Forall_cons_2 | lia ].
  - rewrite (Hcases ltac:(done)).
    pose proof (contributed_sorted b3 b5 b7 b11 b13) as [Hsorted Hlen].
    destruct (contributed b3 b5 b7 b11 b13) as [|k l]; [|done].
    cbn. split; [|lia].
    repeat first [ apply SSorted_nil | apply SSorted_cons
                 | apply Forall_nil_2 | apply Forall_cons_2 | lia ].
Qed.

(** With ASCII lower-casing, a sample holding [PRINT(] is found to hold
    the pattern of shift 7. *)
Lemma suggestions_sorted_and_bounded_witness :
  7 ∈ CaesarCipher.generate_shift_suggestions ascii_lower (str "x = PRINT(1)").
Proof.
  apply (proj1 (proj1 (proj2
           (suggestions_sorted_and_bounded ascii_lower (str "x = PRINT(1)")))
           ltac:(discriminate)) (str "print(") 7).
  - apply elem_of_common_patterns. tauto.
  - vm_compute. reflexivity.
Defined.

(** * Further properties of the cipher *)

(** Displacements compose by addition. *)
Lemma shift_symbol_compose (a b : Z) (c : char) :
  shift_symbol b (shift_symbol a c) = shift_symbol (a + b) c.
Proof.
  destruct (decide (c ∈ CaesarCipher.charset)) as [Hin|Hout].
  - apply list_elem_of_lookup_1 in Hin as [p Hp].
    pose proof (shift_symbol_at a c p Hp) as H1.
    pose proof (shift_symbol_at b _ _ H1) as H2.
    pose proof (shift_symbol_at (a + b) c p Hp) as H3.
    pose proof (Z.mod_pos_bound (Z.of_nat p + a) 97 ltac:(lia)) as Hb.
    rewrite Z2Nat.id in H2 by lia.
    rewrite Zplus_mod_idemp_l in H2.
    replace (Z.of_nat p + a + b) with (Z.of_nat p + (a + b)) in H2 by lia.
    congruence.
  - rewrite (shift_symbol_outside a c Hout).
    by rewrite !shift_symbol_outside.
Qed.

(** An alphabet symbol stays in the alphabet, and a symbol outside stays
    outside. *)
Lemma shift_symbol_elem_of (k : Z) (c : char) :
  shift_symbol k c ∈ CaesarCipher.charset ↔ c ∈ CaesarCipher.charset.
Proof.
  split.
  - intros H. destruct (decide (c ∈ CaesarCipher.charset)) as [|Hout]; [done |].
    by rewrite (shift_symbol_outside k c Hout) in H.
  - intros Hin. apply list_elem_of_lookup_1 in Hin as [p Hp].
    eapply list_elem_of_lookup_2. by apply shift_symbol_at.
Qed.

(** A displacement fixes an alphabet symbol only when it is a multiple of
    the length of the alphabet. *)
Lemma shift_symbol_fixed (k : Z) (c : char) :
  c ∈ CaesarCipher.charset → shift_symbol k c = c → k mod 97 = 0.
Proof.
  intros Hin Hfix. apply list_elem_of_lookup_1 in Hin as [p Hp].
  pose proof (shift_symbol_at k c p Hp) as H1. rewrite Hfix in H1.
  pose proof (NoDup_lookup _ _ _ _ charset_NoDup H1 Hp) as Heq.
  pose proof (lookup_lt_Some _ _ _ Hp) as Hlt. rewrite charset_length in Hlt.
  pose proof (Z.mod_pos_bound (Z.of_nat p + k) 97 ltac:(lia)) as Hb.
  assert ((Z.of_nat p + k) mod 97 = Z.of_nat p) as Hmod by lia.
  rewrite <- (Z.mod_small (Z.of_nat p) 97) in Hmod at 2 by lia.
  apply Z.div_exact; [lia |].
  assert (k = (Z.of_nat p + k) - Z.of_nat p) as Hk by lia.
  pose proof (Z.div_mod (Z.of_nat p + k) 97 ltac:(lia)) as D1.
  pose proof (Z.div_mod (Z.of_nat p) 97 ltac:(lia)) as D2.
  rewrite Hmod in D1.
  assert (k = 97 * ((Z.of_nat p + k) / 97 - Z.of_nat p / 97)) as -> by lia.
  rewrite (Z.mul_comm 97), Z.div_mul by lia. lia.
Qed.

(** X1: for every non-empty text and shift in [1,25], [decrypt] returns a
    text of the same length in which a symbol found at alphabet position
    [p] is replaced by the one at position [(p - shift) mod L] and a symbol
    outside the alphabet is kept. *)
Theorem decrypt_symbol_by_symbol (t : pystr) (s : Z) :
  t ≠ [] → 1 ≤ s ≤ 25 →
  ∃ out,
    CaesarCipher.decrypt t s = Ok out
    ∧ length out = length t
    ∧ ∀ (i : nat) (c : char), t !! i = Some c →
        (∀ p : nat, CaesarCipher.charset !! p = Some c →
           out !! i =
             CaesarCipher.charset
               !! Z.to_nat ((Z.of_nat p - s) mod len CaesarCipher.charset))
        ∧ (c ∉ CaesarCipher.charset → out !! i = Some c).
Proof.
  intros Ht Hs. exists (map (shift_symbol (- s)) t).
  split; [by apply decrypt_valid |].
  split; [apply length_map |].
  intros i c Hi.
  assert (map (shift_symbol (- s)) t !! i = Some (shift_symbol (- s) c)) as Hout.
  { change (map (shift_symbol (- s)) t) with (shift_symbol (- s) <$> t).
    by rewrite list_lookup_fmap, Hi. }
  split.
  - intros p Hp. rewrite Hout. symmetry.
    change (len CaesarCipher.charset) with 97.
    replace (Z.of_nat p - s) with (Z.of_nat p + - s) by lia.
    by apply shift_symbol_at.
  - intros Hc. rewrite Hout. f_equal. by apply shift_symbol_outside.
Qed.

Lemma decrypt_symbol_by_symbol_witness :
  ∃ out,
    CaesarCipher.decrypt [99; 233; 100]%N 3 = Ok out
    ∧ length out = 3%nat
    ∧ ∀ (i : nat) (c : char), [99; 233; 100]%N !! i = Some c →
        (∀ p : nat, CaesarCipher.charset !! p = Some c →
           out !! i =
             CaesarCipher.charset
               !! Z.to_nat ((Z.of_nat p - 3) mod len CaesarCipher.charset))
        ∧ (c ∉ CaesarCipher.charset → out !! i = Some c).
Proof.
  apply (decrypt_symbol_by_symbol [99; 233; 100]%N 3); [discriminate | lia].
Defined.

(** X2: decoding and then encoding with the same shift gives the text
    back: [decrypt] is also a right inverse of [encrypt]. *)
Theorem encrypt_decrypt_roundtrip (c : pystr) (s : Z) :
  c ≠ [] → 1 ≤ s ≤ 25 →
  ∃ t, CaesarCipher.decrypt c s = Ok t ∧ CaesarCipher.encrypt t s = Ok c.
Proof.
  intros Hc Hs. exists (map (shift_symbol (- s)) c).
  split; [by apply decrypt_valid |].
  rewrite encrypt_valid by (auto using map_nonempty).
  f_equal. rewrite map_map. rewrite <- (map_id c) at 2.
  apply map_ext. intros x.
  rewrite <- (Z.opp_involutive s) at 1. apply shift_symbol_inverse.
Qed.

Lemma encrypt_decrypt_roundtrip_witness :
  ∃ t, CaesarCipher.decrypt (str "a b") 25 = Ok t
       ∧ CaesarCipher.encrypt t 25 = Ok (str "a b").
Proof.
  apply (encrypt_decrypt_roundtrip (str "a b") 25); [discriminate | lia].
Defined.

(** X3: with a shift in [1,25] no alphabet symbol is left as it is: at
    every position the output symbol is in the alphabet exactly when the
    input symbol is, differs from it when it is, and equals it when it is
    not. *)
Theorem encrypt_changes_every_alphabet_symbol (t : pystr) (s : Z) :
  t ≠ [] → 1 ≤ s ≤ 25 →
  ∃ out,
    CaesarCipher.encrypt t s = Ok out
    ∧ ∀ (i : nat) (c c' : char), t !! i = Some c → out !! i = Some c' →
        (c' ∈ CaesarCipher.charset ↔ c ∈ CaesarCipher.charset)
        ∧ (c ∈ CaesarCipher.charset → c' ≠ c)
        ∧ (c ∉ CaesarCipher.charset → c' = c).
Proof.
  intros Ht Hs. exists (map (shift_symbol s) t).
  split; [by apply encrypt_valid |].
  intros i c c' Hi Ho.
  change (map (shift_symbol s) t) with (shift_symbol s <$> t) in Ho.
  rewrite list_lookup_fmap, Hi in Ho. injection Ho as <-.
  split; [apply shift_symbol_elem_of |]. split.
  - intros Hin Hfix. apply (shift_symbol_fixed s c Hin) in Hfix.
    rewrite Z.mod_small in Hfix; lia.
  - apply shift_symbol_outside.
Qed.

Lemma encrypt_changes_every_alphabet_symbol_witness :
  ∃ out,
    CaesarCipher.encrypt (str "a~") 25 = Ok out
    ∧ ∀ (i : nat) (c c' : char), str "a~" !! i = Some c → out !! i = Some c' →
        (c' ∈ CaesarCipher.charset ↔ c ∈ CaesarCipher.charset)
        ∧ (c ∈ CaesarCipher.charset → c' ≠ c)
        ∧ (c ∉ CaesarCipher.charset → c' = c).
Proof.
  apply (encrypt_changes_every_alphabet_symbol (str "a~") 25);
    [discriminate | lia].
Defined.

(** X4: encoding twice is encoding once with the sum of the shifts, as
    long as the sum is itself an accepted shift. *)
Theorem encrypt_twice_adds_shifts (t : pystr) (a b : Z) :
  t ≠ [] → 1 ≤ a → 1 ≤ b → a + b ≤ 25 →
  ∃ c,
    CaesarCipher.encrypt t a = Ok c
    ∧ CaesarCipher.encrypt c b = CaesarCipher.encrypt t (a + b).
Proof.
  intros Ht Ha Hb Hab. exists (map (shift_symbol a) t).
  split; [apply encrypt_valid; [done | lia] |].
  rewrite !encrypt_valid by (auto using map_nonempty; lia).
  f_equal. rewrite map_map. apply map_ext. intros x.
  apply shift_symbol_compose.
Qed.

Lemma encrypt_twice_adds_shifts_witness :
  ∃ c,
    CaesarCipher.encrypt (str "xyz 9") 12 = Ok c
    ∧ CaesarCipher.encrypt c 13 = CaesarCipher.encrypt (str "xyz 9") (12 + 13).
Proof.
  apply (encrypt_twice_adds_shifts (str "xyz 9") 12 13);
    [discriminate | lia | lia | lia].
Defined.

(** ** Exhaustive decoding, continued *)

(** The dictionary [brute_force_decrypt] returns, key by key. *)
Lemma brute_force_decrypt_lookup (c : pystr) :
  c ≠ [] →
  ∃ results,
    CaesarCipher.brute_force_decrypt c = Ok results
    ∧ ∀ k, results !! k =
             if decide (1 ≤ k ≤ 25) then Some (map (shift_symbol (- k)) c)
             else None.
Proof.
  intros Hc. eexists. split.
  { unfold CaesarCipher.brute_force_decrypt.
    by rewrite (truthy_nonempty c Hc). }
  intros k. rewrite brute_force_loop_lookup; [| done |].
  - destruct (decide (1 ≤ k ≤ 25)) as [Hk|Hk].
    + rewrite decide_True; [done |]. apply elem_of_py_range. lia.
    + rewrite decide_False; [done |]. rewrite elem_of_py_range. lia.
  - apply Forall_forall. intros k' Hk'. apply elem_of_py_range in Hk'. lia.
Qed.

(** X5: when the plaintext holds at least one alphabet symbol, the
    exhaustive decoding of its ciphertext holds the plaintext under the
    shift used to encode and under no other key; every candidate has the
    length of the plaintext. *)
Theorem brute_force_unique_candidate (t : pystr) (s : Z) :
  (∃ x, x ∈ t ∧ x ∈ CaesarCipher.charset) → 1 ≤ s ≤ 25 →
  ∃ c results,
    CaesarCipher.encrypt t s = Ok c
    ∧ CaesarCipher.brute_force_decrypt c = Ok results
    ∧ (∀ k, results !! k = Some t ↔ k = s)
    ∧ (∀ k d, results !! k = Some d → length d = length t).
Proof.
  intros (x & Hxt & Hxc) Hs.
  assert (t ≠ []) as Ht by (intros ->; inversion Hxt).
  exists (map (shift_symbol s) t).
  destruct (brute_force_decrypt_lookup (map (shift_symbol s) t))
    as (results & Hbf & Hlook); [by apply map_nonempty |].
  exists results. split; [by apply encrypt_valid |]. split; [exact Hbf |].
  split.
  - intros k. rewrite Hlook. split.
    + destruct (decide (1 ≤ k ≤ 25)) as [Hk|Hk]; [|discriminate].
      intros [= Heq].
      apply list_elem_of_lookup_1 in Hxt as [i Hi].
      apply (f_equal (λ l, l !! i)) in Heq.
      rewrite map_map in Heq.
      change (map ?f t) with (f <$> t) in Heq.
      rewrite list_lookup_fmap, Hi in Heq. cbn in Heq.
      injection Heq as Heq. rewrite shift_symbol_compose in Heq.
      apply (shift_symbol_fixed _ x Hxc) in Heq.
      pose proof (Z.div_mod (s + - k) 97 ltac:(lia)) as D. lia.
    + intros ->. rewrite decide_True by done. f_equal.
      apply shift_symbol_roundtrip.
  - intros k d. rewrite Hlook.
    destruct (decide (1 ≤ k ≤ 25)); [|discriminate].
    intros [= <-]. by rewrite !length_map.
Qed.

Lemma brute_force_unique_candidate_witness :
  ∃ c results,
    CaesarCipher.encrypt (str "a") 2 = Ok c
    ∧ CaesarCipher.brute_force_decrypt c = Ok results
    ∧ (∀ k, results !! k = Some (str "a") ↔ k = 2)
    ∧ (∀ k d, results !! k = Some d → length d = length (str "a")).
Proof.
  apply (brute_force_unique_candidate (str "a") 2); [|lia].
  exists 97%N. split; [left |]. vm_compute. left.
Defined.

(** ** Shift validation, continued *)

(** X6: [validate_shift] accepts an integer exactly when [encrypt] and
    [decrypt] accept it as the shift of a non-empty text. *)
Theorem validate_shift_agrees_with_cipher (t : pystr) (s : Z) :
  t ≠ [] →
  (CaesarCipher.validate_shift (PyInt s) = Ok (PyBool true)
   ↔ ∃ out, CaesarCipher.encrypt t s = Ok out)
  ∧ (CaesarCipher.validate_shift (PyInt s) = Ok (PyBool true)
     ↔ ∃ out, CaesarCipher.decrypt t s = Ok out).
Proof.
  intros Ht.
  assert (CaesarCipher.validate_shift (PyInt s) = Ok (PyBool true)
          ↔ 1 ≤ s ≤ 25) as Hv.
  { unfold CaesarCipher.validate_shift, CaesarCipher.validate_shift_body. cbn.
    destruct (Z.leb_spec 1 s), (Z.leb_spec s 25); cbn; split;
      (reflexivity || discriminate || lia). }
  rewrite Hv. split; split.
  - intros Hs. rewrite encrypt_valid by done. eauto.
  - intros [out Ho]. destruct (decide (1 ≤ s ≤ 25)) as [|Hn]; [done |].
    unfold CaesarCipher.encrypt in Ho.
    rewrite shift_out_of_range in Ho by done. discriminate.
  - intros Hs. rewrite decrypt_valid by done. eauto.
  - intros [out Ho]. destruct (decide (1 ≤ s ≤ 25)) as [|Hn]; [done |].
    unfold CaesarCipher.decrypt in Ho.
    rewrite shift_out_of_range in Ho by done. discriminate.
Qed.

Lemma validate_shift_agrees_with_cipher_witness :
  (CaesarCipher.validate_shift (PyInt 26) = Ok (PyBool true)
   ↔ ∃ out, CaesarCipher.encrypt (str "q") 26 = Ok out)
  ∧ (CaesarCipher.validate_shift (PyInt 26) = Ok (PyBool true)
     ↔ ∃ out, CaesarCipher.decrypt (str "q") 26 = Ok out).
Proof.
  apply (validate_shift_agrees_with_cipher (str "q") 26). discriminate.
Defined.

(** ** Shift suggestions, continued *)

(** X7: whatever the sample and the lower-casing, the suggestions are
    never empty and each of them is a shift [validate_shift] accepts. *)
Theorem suggestions_are_valid_shifts
    (str_lower : pystr → pystr) (sample : pystr) :
  CaesarCipher.generate_shift_suggestions str_lower sample ≠ []
  ∧ ∀ k, k ∈ CaesarCipher.generate_shift_suggestions str_lower sample →
         1 ≤ k ≤ 25
         ∧ CaesarCipher.validate_shift (PyInt k) = Ok (PyBool true).
Proof.
  assert (∀ l : list Z, Forall (λ k, 1 ≤ k ≤ 25) l →
            ∀ k, k ∈ l →
              1 ≤ k ≤ 25
              ∧ CaesarCipher.validate_shift (PyInt k) = Ok (PyBool true))
    as Hvalid.
  { intros l Hl k Hk. rewrite Forall_forall in Hl. specialize (Hl k Hk).
    split; [exact Hl |].
    unfold CaesarCipher.validate_shift, CaesarCipher.validate_shift_body. cbn.
    rewrite (proj2 (Z.leb_le 1 k)) by lia. cbn.
    by rewrite (proj2 (Z.leb_le k 25)) by lia. }
  destruct sample as [|c0 sample'].
  { split; [discriminate |]. apply Hvalid.
    cbn. repeat (apply Forall_cons_2; [lia |]). apply Forall_nil_2. }
  rewrite suggestions_by_cases by done.
  set (l := contributed _ _ _ _ _).
  assert (Forall (λ k, 1 ≤ k ≤ 25) l) as Hl.
  { apply Forall_forall. intros k Hk. apply elem_of_contributed in Hk.
    destruct Hk as [[-> _]|[[-> _]|[[-> _]|[[-> _]|[-> _]]]]]; lia. }
  destruct l as [|k0 l'].
  - split; [discriminate |]. apply Hvalid.
    repeat (apply Forall_cons_2; [lia |]). apply Forall_nil_2.
  - split; [discriminate |]. by apply Hvalid.
Qed.

(** ** Frequency analysis, continued *)

Lemma count_loop_printable (rest : pystr) (a : CaesarCipher.analysis) :
  CaesarCipher.an_printable_chars (CaesarCipher.count_loop rest a)
    = CaesarCipher.an_printable_chars a + printable_count rest
  ∧ CaesarCipher.an_non_printable_chars (CaesarCipher.count_loop rest a)
    = CaesarCipher.an_non_printable_chars a + (len rest - printable_count rest).
Proof.
  revert a. induction rest as [|c rest IH]; intros a.
  - unfold printable_count, len. cbn. lia.
  - cbn [CaesarCipher.count_loop].
    match goal with |- context [CaesarCipher.count_loop rest ?a'] =>
      destruct (IH a') as [-> ->] end.
    cbn [CaesarCipher.an_printable_chars CaesarCipher.an_non_printable_chars].
    unfold printable_count, len. rewrite filter_cons.
    destruct (str_contains PyString.printable c) eqn:E.
    + rewrite decide_True by done. cbn [length]. lia.
    + rewrite decide_False by done. cbn [length]. lia.
Qed.

Lemma printable_count_bounds (t : pystr) : 0 ≤ printable_count t ≤ len t.
Proof.
  unfold printable_count, len.
  pose proof (length_filter (λ c, str_contains PyString.printable c = true) t).
  lia.
Qed.

Lemma max_scan_in (rest : dict) (best : char * Z) :
  max_scan rest best ∈ best :: rest.
Proof.
  revert best. induction rest as [|x rest IH]; intros best; [left |].
  cbn [max_scan]. destruct (snd best <? snd x).
  - right. apply IH.
  - specialize (IH best). apply elem_of_cons in IH as [->|IH]; [left |].
    right. by right.
Qed.

Lemma first_seen_nonempty (t : pystr) : t ≠ [] → first_seen t ≠ [].
Proof.
  destruct t as [|c t]; [done |]. intros _ Hnil.
  assert (c ∈ first_seen (c :: t)) as Hin by (apply elem_of_first_seen; left).
  rewrite Hnil in Hin. inversion Hin.
Qed.

Lemma size_list_to_set_first_seen (t : pystr) :
  size (list_to_set t : gset char) = length (first_seen t).
Proof.
  rewrite <- (size_list_to_set (C := gset char) (first_seen t))
    by apply NoDup_first_seen.
  f_equal. apply set_eq. intros x.
  by rewrite !elem_of_list_to_set, elem_of_first_seen.
Qed.

(** The whole dictionary returned for a non-empty text. *)
Lemma analyze_explicit (t : pystr) :
  t ≠ [] →
  ∃ (best : char * Z) (rest : dict) (ratio : float),
    frequency_table t = best :: rest
    ∧ int_truediv (snd (max_scan rest best)) (len t) = Ok ratio
    ∧ CaesarCipher.analyze_encrypted_text t =
        Ok (CaesarCipher.Analysis
              {| CaesarCipher.an_length := len t;
                 CaesarCipher.an_unique_chars :=
                   Z.of_nat (size (list_to_set t : gset char));
                 CaesarCipher.an_char_frequency := frequency_table t;
                 CaesarCipher.an_most_common_char :=
                   Some {| CaesarCipher.mc_char := fst (max_scan rest best);
                           CaesarCipher.mc_count := snd (max_scan rest best);
                           CaesarCipher.mc_percentage :=
                             py_round2 (PrimFloat.mul ratio 100) |};
                 CaesarCipher.an_printable_chars := printable_count t;
                 CaesarCipher.an_non_printable_chars :=
                   len t - printable_count t |}).
Proof.
  intros Ht. unfold CaesarCipher.analyze_encrypted_text.
  rewrite (truthy_nonempty t Ht). cbn [negb].
  match goal with |- context [CaesarCipher.count_loop t ?a0] =>
    pose proof (count_loop_table t [] a0 eq_refl) as Hfreq;
    destruct (count_loop_length t a0) as [Hlen Huniq];
    destruct (count_loop_printable t a0) as [Hp Hnp];
    set (a := CaesarCipher.count_loop t a0) in *
  end.
  cbn [app] in Hfreq. cbn in Hlen, Huniq, Hp, Hnp.
  rewrite Hfreq, Hlen, Huniq, Hp, Hnp.
  destruct (frequency_table t) as [|best rest] eqn:Htab.
  { exfalso. apply (first_seen_nonempty t Ht).
    unfold frequency_table in Htab. by destruct (first_seen t). }
  cbn [truthy py_max_by_value mbind result_bind].
  assert (max_scan rest best ∈ frequency_table t) as Hx
    by (rewrite Htab; apply max_scan_in).
  unfold frequency_table in Hx. apply list_elem_of_fmap in Hx as (c & Hc & Hin).
  destruct (int_truediv_count (snd (max_scan rest best)) (len t)) as [ratio Hr].
  { rewrite Hc. cbn. pose proof (occurrences_le_len t c). lia. }
  { unfold len. destruct t; [done | simpl; lia]. }
  exists best, rest, ratio. split; [done |]. split; [exact Hr |].
  rewrite Hr. by cbn [mbind result_bind].
Qed.

Lemma sum_values_table (f g : char → Z) (K : list char) (c : char) :
  NoDup K → (∀ k, g k = f k + (if decide (c = k) then 1 else 0)) →
  sum_values ((λ k, (k, g k)) <$> K)
  = sum_values ((λ k, (k, f k)) <$> K) + (if decide (c ∈ K) then 1 else 0).
Proof.
  intros Hnd Hg. unfold sum_values.
  induction Hnd as [|k K Hk Hnd IH]; [reflexivity |].
  cbn. cbn in IH. rewrite IH, Hg.
  repeat case_decide; subst; try lia; exfalso;
    repeat match goal with
    | H : _ ∉ _ :: _ |- _ => apply not_elem_of_cons in H as [? ?]
    | H : _ ∈ _ :: _ |- _ => apply elem_of_cons in H as [?|?]
    end; subst; congruence || contradiction.
Qed.

(** The counts of the table add up to the length of the text. *)
Lemma sum_values_frequency_table (t : pystr) :
  sum_values (frequency_table t) = len t.
Proof.
  induction t as [|c t IH] using rev_ind; [reflexivity |].
  unfold frequency_table in *. rewrite first_seen_snoc.
  assert (len (t ++ [c]) = len t + 1) as ->
    by (unfold len; rewrite length_app; cbn; lia).
  destruct (decide (c ∈ t)) as [Hin|Hnin].
  - rewrite (sum_values_table (λ k, occurrences k t) _ _ c);
      [| apply NoDup_first_seen | intros k; apply occurrences_snoc].
    rewrite IH, decide_True by (by apply elem_of_first_seen). done.
  - rewrite fmap_app. unfold sum_values in *. rewrite fmap_app, foldr_app.
    cbn [fmap list_fmap foldr snd].
    rewrite occurrences_snoc, decide_True by done.
    rewrite (occurrences_not_in t c Hnin).
    assert (∀ (l : list Z) (z : Z), foldr Z.add z l = foldr Z.add 0 l + z)
      as Hfold.
    { intros l z. induction l as [|y l IHl]; cbn; lia. }
    rewrite Hfold.
    pose proof (sum_values_table (λ k, occurrences k t)
                  (λ k, occurrences k (t ++ [c])) (first_seen t) c
                  (NoDup_first_seen t) (λ k, occurrences_snoc t c k)) as Hs.
    unfold sum_values in Hs. rewrite Hs, IH.
    rewrite decide_False by (by rewrite elem_of_first_seen). lia.
Qed.

(** X8: the analysis of a non-empty text is consistent with the text: the
    printable and non-printable counts add up to the length; the number of
    distinct symbols is the number of entries of the frequency table; the
    keys of the table are distinct and are the symbols of the text; the
    count of every symbol is its number of occurrences; and the counts add
    up to the length. *)
Theorem analysis_counts_consistent (t : pystr) :
  t ≠ [] →
  ∃ a : CaesarCipher.analysis,
    CaesarCipher.analyze_encrypted_text t = Ok (CaesarCipher.Analysis a)
    ∧ CaesarCipher.an_length a = len t
    ∧ CaesarCipher.an_printable_chars a + CaesarCipher.an_non_printable_chars a
      = CaesarCipher.an_length a
    ∧ 0 ≤ CaesarCipher.an_printable_chars a
    ∧ 0 ≤ CaesarCipher.an_non_printable_chars a
    ∧ CaesarCipher.an_unique_chars a = len (CaesarCipher.an_char_frequency a)
    ∧ NoDup (fst <$> CaesarCipher.an_char_frequency a)
    ∧ (∀ c, c ∈ fst <$> CaesarCipher.an_char_frequency a ↔ c ∈ t)
    ∧ (∀ c, dict_get (CaesarCipher.an_char_frequency a) c 0 = occurrences c t)
    ∧ sum_values (CaesarCipher.an_char_frequency a) = len t.
Proof.
  intros Ht.
  destruct (analyze_explicit t Ht) as (best & rest & ratio & _ & _ & Ha).
  eexists. split; [exact Ha |].
  cbn [CaesarCipher.an_length CaesarCipher.an_printable_chars
       CaesarCipher.an_non_printable_chars CaesarCipher.an_unique_chars
       CaesarCipher.an_char_frequency].
  pose proof (printable_count_bounds t) as Hb.
  assert (fst <$> frequency_table t = first_seen t) as Hkeys.
  { unfold frequency_table. rewrite <- list_fmap_compose. apply list_fmap_id. }
  split; [done |]. split; [lia |]. split; [lia |]. split; [lia |].
  split.
  { unfold len, frequency_table.
    by rewrite size_list_to_set_first_seen, length_fmap. }
  rewrite Hkeys. split; [apply NoDup_first_seen |].
  split; [intros c; apply elem_of_first_seen |].
  split; [|apply sum_values_frequency_table].
  intros c. unfold frequency_table. rewrite dict_get_table.
  destruct (decide (c ∈ first_seen t)) as [|Hn]; [done |].
  symmetry. apply occurrences_not_in. by rewrite <- elem_of_first_seen.
Qed.

Lemma analysis_counts_consistent_witness :
  ∃ a : CaesarCipher.analysis,
    CaesarCipher.analyze_encrypted_text [97; 0; 97; 233]%N
      = Ok (CaesarCipher.Analysis a)
    ∧ CaesarCipher.an_length a = len [97; 0; 97; 233]%N
    ∧ CaesarCipher.an_printable_chars a + CaesarCipher.an_non_printable_chars a
      = CaesarCipher.an_length a
    ∧ 0 ≤ CaesarCipher.an_printable_chars a
    ∧ 0 ≤ CaesarCipher.an_non_printable_chars a
    ∧ CaesarCipher.an_unique_chars a = len (CaesarCipher.an_char_frequency a)
    ∧ NoDup (fst <$> CaesarCipher.an_char_frequency a)
    ∧ (∀ c, c ∈ fst <$> CaesarCipher.an_char_frequency a
            ↔ c ∈ [97; 0; 97; 233]%N)
    ∧ (∀ c, dict_get (CaesarCipher.an_char_frequency a) c 0
            = occurrences c [97; 0; 97; 233]%N)
    ∧ sum_values (CaesarCipher.an_char_frequency a) = len [97; 0; 97; 233]%N.
Proof.
  apply (analysis_counts_consistent [97; 0; 97; 233]%N). discriminate.
Defined.

(** ** The analysis of a ciphertext *)

Lemma shift_symbol_inj (k : Z) : Inj (=) (=) (shift_symbol k).
Proof.
  intros a b Hab.
  rewrite <- (shift_symbol_inverse k a), <- (shift_symbol_inverse k b).
  by rewrite Hab.
Qed.

Section InjectiveRelabelling.

Variable f : char → char.
Hypothesis f_inj : Inj (=) (=) f.

Lemma first_seen_fmap (t : pystr) : first_seen (f <$> t) = f <$> first_seen t.
Proof.
  induction t as [|c t IH] using rev_ind; [reflexivity |].
  rewrite fmap_app. cbn [fmap list_fmap]. rewrite !first_seen_snoc, IH.
  destruct (decide (c ∈ t)) as [Hin|Hnin].
  - rewrite decide_True; [done |]. by apply list_elem_of_fmap_2.
  - rewrite decide_False; [by rewrite fmap_app |].
    by rewrite (list_elem_of_fmap_inj f).
Qed.

Lemma occurrences_fmap (t : pystr) (k : char) :
  occurrences (f k) (f <$> t) = occurrences k t.
Proof.
  unfold occurrences, len. f_equal.
  induction t as [|x t IH]; [reflexivity |].
  cbn [fmap list_fmap]. rewrite !filter_cons.
  destruct (decide (x = k)) as [->|Hne].
  - rewrite decide_True by done. cbn [length]. by f_equal.
  - rewrite decide_False; [exact IH |]. intros H. by apply f_inj in H.
Qed.

Lemma frequency_table_fmap (t : pystr) :
  frequency_table (f <$> t)
  = (λ kv : char * Z, (f kv.1, kv.2)) <$> frequency_table t.
Proof.
  unfold frequency_table. rewrite first_seen_fmap, <- !list_fmap_compose.
  apply list_fmap_ext. intros i k _. cbn. f_equal. apply occurrences_fmap.
Qed.

Lemma max_scan_fmap (rest : dict) (best : char * Z) :
  max_scan ((λ kv : char * Z, (f kv.1, kv.2)) <$> rest) (f best.1, best.2)
  = (f (max_scan rest best).1, (max_scan rest best).2).
Proof.
  revert best. induction rest as [|x rest IH]; intros best; [reflexivity |].
  cbn [fmap list_fmap max_scan snd].
  destruct (best.2 <? x.2); apply IH.
Qed.

Lemma size_list_to_set_fmap (t : pystr) :
  size (list_to_set (f <$> t) : gset char) = size (list_to_set t : gset char).
Proof.
  by rewrite !size_list_to_set_first_seen, first_seen_fmap, length_fmap.
Qed.

End InjectiveRelabelling.

Lemma charset_printable :
  Forall (λ c, str_contains PyString.printable c = true) CaesarCipher.charset.
Proof. apply (bool_decide_unpack _). vm_compute. reflexivity. Qed.

Lemma shift_symbol_printable (k : Z) (c : char) :
  str_contains PyString.printable (shift_symbol k c)
  = str_contains PyString.printable c.
Proof.
  pose proof charset_printable as Hp. rewrite Forall_forall in Hp.
  destruct (decide (c ∈ CaesarCipher.charset)) as [Hin|Hout].
  - rewrite (Hp c Hin). apply Hp. by apply shift_symbol_elem_of.
  - by rewrite shift_symbol_outside.
Qed.

Lemma printable_count_shift (k : Z) (t : pystr) :
  printable_count (shift_symbol k <$> t) = printable_count t.
Proof.
  unfold printable_count, len. f_equal.
  induction t as [|x t IH]; [reflexivity |].
  cbn [fmap list_fmap]. rewrite !filter_cons, shift_symbol_printable.
  destruct (decide (str_contains PyString.printable x = true));
    cbn [length]; by rewrite IH.
Qed.

(** X9: the cipher does not hide the frequency profile.  The analysis of
    the ciphertext of a non-empty text has the same length, number of
    distinct symbols and printable and non-printable counts as the analysis
    of the text; its frequency table is that of the text with every key
    encoded, in the same order and with the same counts; and its most
    common symbol is the encoding of the most common symbol of the text,
    with the same count and percentage. *)
Theorem analysis_of_ciphertext (t : pystr) (s : Z) :
  t ≠ [] → 1 ≤ s ≤ 25 →
  ∃ (c : pystr) (a a' : CaesarCipher.analysis)
    (mc : CaesarCipher.most_common) (k' : char),
    CaesarCipher.encrypt t s = Ok c
    ∧ CaesarCipher.analyze_encrypted_text t = Ok (CaesarCipher.Analysis a)
    ∧ CaesarCipher.analyze_encrypted_text c = Ok (CaesarCipher.Analysis a')
    ∧ CaesarCipher.an_length a' = CaesarCipher.an_length a
    ∧ CaesarCipher.an_unique_chars a' = CaesarCipher.an_unique_chars a
    ∧ CaesarCipher.an_printable_chars a' = CaesarCipher.an_printable_chars a
    ∧ CaesarCipher.an_non_printable_chars a'
      = CaesarCipher.an_non_printable_chars a
    ∧ Forall2 (λ kv kv' : char * Z,
                 CaesarCipher.encrypt [kv.1] s = Ok [kv'.1] ∧ kv'.2 = kv.2)
        (CaesarCipher.an_char_frequency a) (CaesarCipher.an_char_frequency a')
    ∧ CaesarCipher.an_most_common_char a = Some mc
    ∧ CaesarCipher.encrypt [CaesarCipher.mc_char mc] s = Ok [k']
    ∧ CaesarCipher.an_most_common_char a'
      = Some {| CaesarCipher.mc_char := k';
                CaesarCipher.mc_count := CaesarCipher.mc_count mc;
                CaesarCipher.mc_percentage := CaesarCipher.mc_percentage mc |}.
Proof.
  intros Ht Hs.
  pose proof (shift_symbol_inj s) as Hinj.
  assert (∀ x, CaesarCipher.encrypt [x] s = Ok [shift_symbol s x]) as Hone
    by (intros x; by rewrite encrypt_valid).
  assert (shift_symbol s <$> t ≠ []) as Hc by (by destruct t).
  destruct (analyze_explicit t Ht) as (best & rest & ratio & Htab & Hr & Ha).
  destruct (analyze_explicit _ Hc) as (best' & rest' & ratio' & Htab' & Hr' & Ha').
  rewrite (frequency_table_fmap _ Hinj), Htab in Htab'.
  cbn [fmap list_fmap] in Htab'. injection Htab' as <- <-.
  rewrite (max_scan_fmap (shift_symbol s)) in Hr', Ha'.
  cbn [fst snd] in Hr', Ha'.
  assert (len (shift_symbol s <$> t) = len t) as Hlen
    by (unfold len; by rewrite length_fmap).
  rewrite Hlen in Hr', Ha'. rewrite Hr in Hr'. injection Hr' as <-.
  rewrite (size_list_to_set_fmap _ Hinj), printable_count_shift in Ha'.
  eexists (shift_symbol s <$> t), _, _, _, (shift_symbol s (max_scan rest best).1).
  split; [by apply encrypt_valid |].
  split; [exact Ha |]. split; [exact Ha' |].
  cbn [CaesarCipher.an_length CaesarCipher.an_unique_chars
       CaesarCipher.an_printable_chars CaesarCipher.an_non_printable_chars
       CaesarCipher.an_char_frequency CaesarCipher.an_most_common_char
       CaesarCipher.mc_char CaesarCipher.mc_count CaesarCipher.mc_percentage].
  repeat split; try done.
  rewrite (frequency_table_fmap _ Hinj).
  apply Forall2_fmap_r, Forall_Forall2_diag, Forall_forall.
  intros kv _. by split.
Qed.

Lemma analysis_of_ciphertext_witness :
  ∃ (c : pystr) (a a' : CaesarCipher.analysis)
    (mc : CaesarCipher.most_common) (k' : char),
    CaesarCipher.encrypt (str "zz top") 7 = Ok c
    ∧ CaesarCipher.analyze_encrypted_text (str "zz top")
      = Ok (CaesarCipher.Analysis a)
    ∧ CaesarCipher.analyze_encrypted_text c = Ok (CaesarCipher.Analysis a')
    ∧ CaesarCipher.an_length a' = CaesarCipher.an_length a
    ∧ CaesarCipher.an_unique_chars a' = CaesarCipher.an_unique_chars a
    ∧ CaesarCipher.an_printable_chars a' = CaesarCipher.an_printable_chars a
    ∧ CaesarCipher.an_non_printable_chars a'
      = CaesarCipher.an_non_printable_chars a
    ∧ Forall2 (λ kv kv' : char * Z,
                 CaesarCipher.encrypt [kv.1] 7 = Ok [kv'.1] ∧ kv'.2 = kv.2)
        (CaesarCipher.an_char_frequency a) (CaesarCipher.an_char_frequency a')
    ∧ CaesarCipher.an_most_common_char a = Some mc
    ∧ CaesarCipher.encrypt [CaesarCipher.mc_char mc] 7 = Ok [k']
    ∧ CaesarCipher.an_most_common_char a'
      = Some {| CaesarCipher.mc_char := k';
                CaesarCipher.mc_count := CaesarCipher.mc_count mc;
                CaesarCipher.mc_percentage := CaesarCipher.mc_percentage mc |}.
Proof.
  apply (analysis_of_ciphertext (str "zz top") 7); [discriminate | lia].
Defined.

(** * Saved files *)

Example save_then_load :
  posix_save_then_load (str "print(1)") (str "generated")
  = FileManager.Returned (str "print(1)").
Proof. vm_compute. reflexivity. Qed.

(** A first line of whitespace does not survive. *)
Example save_then_load_blank_first_line :
  posix_save_then_load ([32; 10]%N ++ str "x") (str "encrypted")
  = FileManager.Returned (str "x").
Proof. vm_compute. reflexivity. Qed.

(** Nor does a carriage return: it comes back as a newline. *)
Example save_then_load_carriage_return :
  posix_save_then_load (str "a" ++ [13%N] ++ str "b") (str "encrypted")
  = FileManager.Returned (str "a" ++ [10%N] ++ str "b").
Proof. vm_compute. reflexivity. Qed.

(** A code with a surrogate cannot be encoded: [save_code] raises, and
    the file it has opened is left with the header alone. *)
Example save_surrogate :
  posix_save_code (str "generated_files") [55296%N] (str "generated") ∅
  = (FileManager.Failed
       (FileManager.Exception
          (str "Failed to save file 'generated_code_20240101_100000.py': ")),
     {[ str "generated_files/generated_code_20240101_100000.py"
        := default []
             (utf8_encode
                (FileManager.generate_file_header ascii_title
                   (str "2024-01-01 10:00:00") (str "generated"))) ]}).
Proof. vm_compute. reflexivity. Qed.

Example header_of_generated :
  FileManager.generate_file_header ascii_title (str "2024-01-01 10:00:00")
    (str "generated")
  = FileManager.text_of_lines
      [ FileManager.triple_quote;
        str "Text to Code Generator - Generated Code";
        str "Generated on: 2024-01-01 10:00:00";
        str "=====================================";
        [];
        str "This file was automatically generated by the Text to Code Generator";
        str "with Encryption tool. ";
        [];
        str "Code Type: Generated";
        FileManager.triple_quote; []; [] ].
Proof. vm_compute. reflexivity. Qed.

(** ** Splitting and joining *)

Lemma str_split_nonempty (sep : char) (s : pystr) : str_split sep s ≠ [].
Proof.
  destruct s as [|c s]; cbn; [done |].
  destruct (N.eqb c sep); [done |]. by destruct (str_split sep s).
Qed.

Lemma str_split_app (sep : char) (a b : pystr) :
  str_split sep (a ++ sep :: b) = str_split sep a ++ str_split sep b.
Proof.
  induction a as [|c a IH]; cbn.
  - by rewrite N.eqb_refl.
  - destruct (N.eqb c sep); [by rewrite IH |].
    rewrite IH. pose proof (str_split_nonempty sep a).
    by destruct (str_split sep a).
Qed.

Lemma str_join_split (sep : char) (s : pystr) :
  str_join [sep] (str_split sep s) = s.
Proof.
  induction s as [|c s IH]; [reflexivity |].
  cbn [str_split]. pose proof (str_split_nonempty sep s) as Hne.
  destruct (N.eqb_spec c sep) as [->|_].
  - cbn [str_join]. destruct (str_split sep s); [done |].
    rewrite IH. reflexivity.
  - destruct (str_split sep s) as [|w ws]; [done |].
    cbn [str_join] in *. destruct ws; cbn; by rewrite <- IH.
Qed.

(** The symbols of a line are symbols of the text that was split. *)
Lemma str_split_elem_of (sep : char) (s line : pystr) (x : char) :
  line ∈ str_split sep s → x ∈ line → x ∈ s.
Proof.
  revert line. induction s as [|c s IH]; intros line; cbn.
  - intros ->%list_elem_of_singleton Hx. inversion Hx.
  - destruct (N.eqb c sep).
    + intros [->|Hl]%elem_of_cons Hx; [inversion Hx |].
      right. by apply (IH line).
    + pose proof (str_split_nonempty sep s) as Hne.
      destruct (str_split sep s) as [|w ws]; [done |].
      intros [->|Hl]%elem_of_cons Hx.
      * apply elem_of_cons in Hx as [->|Hx]; [left |].
        right. apply (IH w); [left | done].
      * right. apply (IH line); [by right | done].
Qed.

Lemma is_prefix_head (c : char) (p s : pystr) :
  is_prefix (c :: p) s = true → c ∈ s.
Proof.
  destruct s as [|y s]; cbn; [discriminate |].
  destruct (N.eqb_spec c y) as [->|_]; [left | discriminate].
Qed.

(** A string found in another has its first symbol there. *)
Lemma str_in_head (c : char) (p s : pystr) :
  str_in (c :: p) s = true → c ∈ s.
Proof.
  induction s as [|y s IH].
  - cbn. discriminate.
  - cbn [str_in]. intros [H|H]%orb_true_iff.
    + by apply is_prefix_head in H.
    + right. by apply IH.
Qed.

Lemma no_quote_no_triple_quote (s : pystr) :
  34%N ∉ s → str_in FileManager.triple_quote s = false.
Proof.
  intros Hs. destruct (str_in FileManager.triple_quote s) eqn:E; [|done].
  by apply str_in_head in E.
Qed.

(** No line of a text without a double quote holds a triple quote. *)
Lemma split_no_triple_quote (s : pystr) :
  34%N ∉ s →
  Forall (λ line, str_in FileManager.triple_quote line = false)
    (str_split 10%N s).
Proof.
  intros Hs. apply Forall_forall. intros line Hl.
  apply no_quote_no_triple_quote. intros Hq.
  apply Hs. by apply (str_split_elem_of 10%N s line).
Qed.

Lemma str_split_text_of_lines (l : list pystr) (rest : pystr) :
  str_split 10%N (FileManager.text_of_lines l ++ rest)
  = concat (map (str_split 10%N) l) ++ str_split 10%N rest.
Proof.
  unfold FileManager.text_of_lines.
  induction l as [|x l IH]; [reflexivity |].
  cbn [map concat]. rewrite <- !app_assoc. cbn [app].
  rewrite str_split_app. f_equal. exact IH.
Qed.

(** ** The two scans for triple quotes *)

(** Lines without a triple quote are passed over. *)
Lemma header_scan_skip (M rest : list pystr) (i s e q : Z) :
  Forall (λ line, str_in FileManager.triple_quote line = false) M →
  FileManager.header_scan (M ++ rest) i s e q
  = FileManager.header_scan rest (i + len M) s e q.
Proof.
  intros HM. revert i. induction HM as [|m M Hm HM IH]; intros i.
  - cbn. f_equal. unfold len. cbn. lia.
  - cbn [app FileManager.header_scan]. rewrite Hm, IH. f_equal.
    unfold len. cbn [length]. lia.
Qed.

(** The first scan stops on the second line that holds a triple quote. *)
Lemma header_scan_pair (A M rest : list pystr) (q1 q2 : pystr) :
  Forall (λ line, str_in FileManager.triple_quote line = false) A →
  Forall (λ line, str_in FileManager.triple_quote line = false) M →
  str_in FileManager.triple_quote q1 = true →
  str_in FileManager.triple_quote q2 = true →
  FileManager.header_scan (A ++ q1 :: M ++ q2 :: rest) 0 (-1) (-1) 0
  = (len A, len A + 1 + len M).
Proof.
  intros HA HM H1 H2. rewrite (header_scan_skip A) by done.
  cbn [FileManager.header_scan]. rewrite H1. cbn.
  rewrite (header_scan_skip M) by done.
  cbn [FileManager.header_scan]. rewrite H2. cbn. f_equal; lia.
Qed.

(** Without two such lines the first scan finds no pair. *)
Lemma header_scan_none (M : list pystr) (i s q : Z) :
  Forall (λ line, str_in FileManager.triple_quote line = false) M →
  FileManager.header_scan M i s (-1) q = (s, -1).
Proof.
  intros HM. rewrite <- (app_nil_r M), (header_scan_skip M) by done.
  reflexivity.
Qed.

Lemma py_range_down_succ (n : nat) :
  py_range_down (Z.of_nat (S n) - 1) (-1)
  = Z.of_nat n :: py_range_down (Z.of_nat n - 1) (-1).
Proof.
  unfold py_range_down.
  replace (Z.to_nat (Z.of_nat (S n) - 1 - -1)) with (S n) by lia.
  replace (Z.to_nat (Z.of_nat n - 1 - -1)) with n by lia.
  cbn [seq map]. f_equal; [lia |].
  rewrite <- seq_shift, map_map. apply map_ext. intros i. lia.
Qed.

Lemma list_getitem_lookup {A} (l : list A) (i : nat) (x : A) :
  l !! i = Some x → list_getitem l (Z.of_nat i) = Ok x.
Proof.
  intros Hx. unfold list_getitem.
  rewrite (proj2 (Z.ltb_ge (Z.of_nat i) 0)) by lia. cbv zeta.
  rewrite (proj2 (Z.ltb_ge (Z.of_nat i) 0)) by lia.
  by rewrite Nat2Z.id, Hx.
Qed.

Lemma slice_to_app {A} (a b : list A) :
  slice_to (a ++ b) (len a) = a.
Proof.
  unfold slice_to, slice_bound, len.
  rewrite (proj2 (Z.ltb_ge _ 0)) by lia.
  rewrite length_app.
  replace (Z.to_nat _) with (length a) by lia.
  by rewrite take_app_length.
Qed.

Lemma slice_from_app {A} (a b : list A) :
  slice_from (a ++ b) (len a) = b.
Proof.
  unfold slice_from, slice_bound, len.
  rewrite (proj2 (Z.ltb_ge _ 0)) by lia.
  rewrite length_app.
  replace (Z.to_nat _) with (length a) by lia.
  by rewrite drop_app_length.
Qed.

(** Going down, lines without a triple quote are passed over. *)
Lemma footer_scan_skip (A M B : list pystr) (s q : Z) :
  Forall (λ line, str_in FileManager.triple_quote line = false) M →
  FileManager.footer_scan
    (py_range_down (Z.of_nat (length (A ++ M)) - 1) (-1)) (A ++ M ++ B) s q
  = FileManager.footer_scan
      (py_range_down (Z.of_nat (length A) - 1) (-1)) (A ++ M ++ B) s q.
Proof.
  revert B. induction M as [|m M IH] using rev_ind; intros B HM.
  - by rewrite app_nil_r.
  - apply Forall_app in HM as [HM Hm]. apply Forall_inv in Hm.
    rewrite app_assoc, length_app. cbn [length].
    replace (length (A ++ M) + 1)%nat with (S (length (A ++ M))) by lia.
    rewrite py_range_down_succ. cbn [FileManager.footer_scan].
    rewrite (list_getitem_lookup _ _ m).
    + cbn [mbind result_bind]. rewrite Hm.
      rewrite <- !app_assoc. cbn [app]. by apply IH.
    + rewrite <- !app_assoc. rewrite app_assoc.
      rewrite lookup_app_r by lia. by rewrite Nat.sub_diag.
Qed.

(** Going down, the first line with a triple quote is remembered. *)
Lemma footer_scan_first (A B : list pystr) (q1 : pystr) (s : Z) :
  str_in FileManager.triple_quote q1 = true →
  FileManager.footer_scan
    (py_range_down (Z.of_nat (length (A ++ [q1])) - 1) (-1)) (A ++ q1 :: B) s 0
  = FileManager.footer_scan
      (py_range_down (Z.of_nat (length A) - 1) (-1)) (A ++ q1 :: B) (len A) 1.
Proof.
  intros H1. rewrite length_app. cbn [length].
  replace (length A + 1)%nat with (S (length A)) by lia.
  rewrite py_range_down_succ. cbn [FileManager.footer_scan].
  rewrite (list_getitem_lookup _ _ q1).
  - cbn [mbind result_bind]. by rewrite H1.
  - rewrite lookup_app_r by lia. by rewrite Nat.sub_diag.
Qed.

(** The second one ends the scan and cuts the lines. *)
Lemma footer_scan_second (A B : list pystr) (q2 : pystr) (s : Z) :
  str_in FileManager.triple_quote q2 = true →
  FileManager.footer_scan
    (py_range_down (Z.of_nat (length (A ++ [q2])) - 1) (-1)) (A ++ q2 :: B) s 1
  = Ok (A ++ slice_from (A ++ q2 :: B) (s + 1)).
Proof.
  intros H2. rewrite length_app. cbn [length].
  replace (length A + 1)%nat with (S (length A)) by lia.
  rewrite py_range_down_succ. cbn [FileManager.footer_scan].
  rewrite (list_getitem_lookup _ _ q2).
  - cbn [mbind result_bind]. rewrite H2. cbn.
    f_equal. f_equal. apply (slice_to_app A (q2 :: B)).
  - rewrite lookup_app_r by lia. by rewrite Nat.sub_diag.
Qed.

(** The second scan removes the last two lines that hold a triple quote
    and what is between them. *)
Lemma footer_scan_pair (A M B : list pystr) (q1 q2 : pystr) :
  Forall (λ line, str_in FileManager.triple_quote line = false) M →
  Forall (λ line, str_in FileManager.triple_quote line = false) B →
  str_in FileManager.triple_quote q1 = true →
  str_in FileManager.triple_quote q2 = true →
  FileManager.footer_scan
    (py_range_down (len (A ++ q2 :: M ++ q1 :: B) - 1) (-1))
    (A ++ q2 :: M ++ q1 :: B) (-1) 0
  = Ok (A ++ B).
Proof.
  intros HM HB H1 H2. unfold len.
  set (L := A ++ q2 :: M ++ q1 :: B).
  assert (L = (A ++ q2 :: M ++ [q1]) ++ B ++ []) as E1
    by (unfold L; rewrite app_nil_r, <- !app_assoc; cbn;
        by rewrite <- !app_assoc).
  rewrite E1 at 1 2. rewrite app_nil_r at 1.
  rewrite (footer_scan_skip (A ++ q2 :: M ++ [q1]) B []) by done.
  rewrite <- E1.
  assert (L = (A ++ q2 :: M) ++ q1 :: B) as E2
    by (unfold L; by rewrite <- app_assoc).
  assert (A ++ q2 :: M ++ [q1] = (A ++ q2 :: M) ++ [q1]) as E3
    by (by rewrite <- app_assoc).
  rewrite E3, E2, (footer_scan_first (A ++ q2 :: M) B q1) by done.
  rewrite <- E2.
  assert (L = (A ++ [q2]) ++ M ++ q1 :: B) as E4
    by (unfold L; by rewrite <- app_assoc).
  assert (A ++ q2 :: M = (A ++ [q2]) ++ M) as E5 by (by rewrite <- app_assoc).
  rewrite E5. rewrite E4 at 1.
  rewrite (footer_scan_skip (A ++ [q2]) M (q1 :: B)) by done.
  rewrite <- E4, <- E5. unfold L.
  rewrite (footer_scan_second A (M ++ q1 :: B) q2) by done.
  f_equal. f_equal.
  replace (A ++ q2 :: M ++ q1 :: B) with ((A ++ q2 :: M ++ [q1]) ++ B)
    by (rewrite <- !app_assoc; cbn; by rewrite <- !app_assoc).
  replace (len (A ++ q2 :: M) + 1) with (len (A ++ q2 :: M ++ [q1])).
  - apply slice_from_app.
  - unfold len. rewrite !length_app. cbn [length]. rewrite length_app.
    cbn [length]. lia.
Qed.

(** Without a second such line the second scan keeps every line. *)
Lemma footer_scan_none (M : list pystr) (s q : Z) :
  Forall (λ line, str_in FileManager.triple_quote line = false) M →
  FileManager.footer_scan
    (py_range_down (len M - 1) (-1)) M s q = Ok M.
Proof.
  intros HM. unfold len.
  pose proof (footer_scan_skip [] M [] s q HM) as H.
  cbn [app length] in H. rewrite app_nil_r in H. rewrite H. reflexivity.
Qed.

(** ** Blank lines at both ends *)

Section BlankLines.

Variable isspace : char → bool.

Abbreviation blank := (line_is_blank isspace).

Lemma blank_nil : blank [] = true.
Proof. reflexivity. Qed.

Lemma pop_blank_front_blanks (B X : list pystr) :
  Forall (λ line, blank line = true) B →
  FileManager.pop_blank_front isspace (B ++ X)
  = FileManager.pop_blank_front isspace X.
Proof.
  induction 1 as [|b B Hb HB IH]; [reflexivity |].
  cbn [app FileManager.pop_blank_front]. unfold line_is_blank in Hb. by rewrite Hb.
Qed.

Lemma pop_blank_front_app (X Y : list pystr) :
  FileManager.pop_blank_front isspace X ≠ [] →
  FileManager.pop_blank_front isspace (X ++ Y)
  = FileManager.pop_blank_front isspace X ++ Y.
Proof.
  induction X as [|x X IH]; [done |].
  cbn [app FileManager.pop_blank_front].
  destruct (negb (truthy (str_strip isspace x))); [exact IH | done].
Qed.

Lemma pop_blank_front_all_blank (X : list pystr) :
  FileManager.pop_blank_front isspace X = [] →
  Forall (λ line, blank line = true) X.
Proof.
  induction X as [|x X IH]; [constructor |].
  cbn [FileManager.pop_blank_front]. unfold line_is_blank.
  destruct (negb (truthy (str_strip isspace x))) eqn:E; [|discriminate].
  intros H. constructor; [exact E | by apply IH].
Qed.

Lemma pop_blank_back_blanks (fuel : nat) (X B : list pystr) :
  Forall (λ line, blank line = true) B →
  FileManager.pop_blank_back isspace (fuel + length B) (X ++ B)
  = FileManager.pop_blank_back isspace fuel X.
Proof.
  induction B as [|b B IH] using rev_ind; intros HB.
  - cbn. by rewrite Nat.add_0_r, app_nil_r.
  - apply Forall_app in HB as [HB Hb]. apply Forall_inv in Hb.
    rewrite length_app. cbn [length].
    replace (fuel + (length B + 1))%nat with (S (fuel + length B)) by lia.
    cbn [FileManager.pop_blank_back].
    rewrite app_assoc, last_snoc. unfold line_is_blank in Hb. rewrite Hb.
    rewrite removelast_last. by apply IH.
Qed.

(** A first line that is not blank stops the first loop at once, and a
    last line that is not blank the second. *)
Lemma pop_blank_front_keeps (x : pystr) (X : list pystr) :
  blank x = false →
  FileManager.pop_blank_front isspace (x :: X) = x :: X.
Proof.
  intros Hx. cbn [FileManager.pop_blank_front]. unfold line_is_blank in Hx.
  by rewrite Hx.
Qed.

Lemma pop_blank_back_keeps (fuel : nat) (x : pystr) (X : list pystr) :
  blank x = false →
  FileManager.pop_blank_back isspace fuel (X ++ [x]) = X ++ [x].
Proof.
  intros Hx. destruct fuel as [|fuel]; [reflexivity |].
  cbn [FileManager.pop_blank_back]. rewrite last_snoc.
  unfold line_is_blank in Hx. by rewrite Hx.
Qed.

(** Blank lines put around a list of lines go with the blank lines at
    its ends. *)
Lemma trim_blank_around (B1 X B2 : list pystr) :
  Forall (λ line, blank line = true) B1 →
  Forall (λ line, blank line = true) B2 →
  FileManager.pop_blank_back isspace
    (length (FileManager.pop_blank_front isspace (B1 ++ X ++ B2)))
    (FileManager.pop_blank_front isspace (B1 ++ X ++ B2))
  = FileManager.pop_blank_back isspace
      (length (FileManager.pop_blank_front isspace X))
      (FileManager.pop_blank_front isspace X).
Proof.
  intros H1 H2. rewrite (pop_blank_front_blanks B1) by done.
  destruct (FileManager.pop_blank_front isspace X) as [|y Y] eqn:E.
  - apply pop_blank_front_all_blank in E.
    rewrite (pop_blank_front_blanks X) by done.
    rewrite <- (app_nil_r B2), (pop_blank_front_blanks B2) by done.
    reflexivity.
  - rewrite pop_blank_front_app by (by rewrite E).
    rewrite E, length_app. by apply pop_blank_back_blanks.
Qed.

(** Stripping leaves something exactly when some symbol is not
    whitespace. *)
Lemma str_lstrip_nil (s : pystr) :
  str_lstrip isspace s = [] ↔ Forall (λ c, isspace c = true) s.
Proof.
  induction s as [|c s IH]; [by split; [constructor |] |].
  cbn [str_lstrip]. destruct (isspace c) eqn:E.
  - rewrite IH. split; [by constructor |]. by intros ?%Forall_inv_tail.
  - split; [discriminate |]. intros H%Forall_inv. congruence.
Qed.

Lemma str_lstrip_suffix (s : pystr) :
  ∀ c, c ∈ str_lstrip isspace s → c ∈ s.
Proof.
  induction s as [|x s IH]; intros c; cbn [str_lstrip]; [done |].
  destruct (isspace x); [|done]. intros H. right. by apply IH.
Qed.

Lemma str_lstrip_head (s : pystr) (c : char) (r : pystr) :
  str_lstrip isspace s = c :: r → isspace c = false.
Proof.
  induction s as [|x s IH]; cbn [str_lstrip]; [discriminate |].
  destruct (isspace x) eqn:E; [exact IH | congruence].
Qed.

Lemma str_strip_nil (s : pystr) :
  str_strip isspace s = [] ↔ Forall (λ c, isspace c = true) s.
Proof.
  unfold str_strip, str_rstrip. split.
  - intros H. apply (f_equal reverse) in H.
    rewrite reverse_involutive in H. cbn in H.
    apply str_lstrip_nil in H.
    destruct (str_lstrip isspace s) as [|c r] eqn:E.
    + by apply str_lstrip_nil.
    + exfalso. apply str_lstrip_head in E.
      rewrite Forall_forall in H.
      rewrite (H c) in E; [discriminate |]. apply elem_of_reverse. left.
  - intros H. apply str_lstrip_nil in H. by rewrite H.
Qed.

Lemma blank_true (line : pystr) :
  blank line = true ↔ Forall (λ c, isspace c = true) line.
Proof.
  unfold line_is_blank. rewrite <- str_strip_nil.
  destruct (str_strip isspace line); cbn; split; done.
Qed.

End BlankLines.

(** ** Reading back what was saved *)

Lemma triple_quote_in_itself :
  str_in FileManager.triple_quote FileManager.triple_quote = true.
Proof. reflexivity. Qed.

(** A content whose lines are a framed header, the lines [C] between two
    blank lines on each side, and a framed footer, is reduced to [C]
    without the blank lines at its ends. *)
Lemma remove_framed (isspace : char → bool) (HB FB C : list pystr)
    (content : pystr) :
  str_split 10%N content
  = FileManager.triple_quote
      :: HB ++ FileManager.triple_quote :: [] :: [] :: C
      ++ [] :: [] :: FileManager.triple_quote
      :: FB ++ [FileManager.triple_quote; []] →
  Forall (λ line, str_in FileManager.triple_quote line = false) HB →
  Forall (λ line, str_in FileManager.triple_quote line = false) FB →
  FileManager.remove_file_headers_footers isspace content
  = Ok (str_join [10%N]
          (FileManager.pop_blank_back isspace
             (length (FileManager.pop_blank_front isspace C))
             (FileManager.pop_blank_front isspace C))).
Proof.
  intros Hsplit HHB HFB. unfold FileManager.remove_file_headers_footers.
  rewrite Hsplit.
  set (tq := FileManager.triple_quote) in *.
  set (tail := [] :: [] :: C ++ [] :: [] :: tq :: FB ++ [tq; []]).
  pose proof (header_scan_pair [] HB tail tq tq (Forall_nil_2 _) HHB
                triple_quote_in_itself triple_quote_in_itself) as Hscan.
  cbn [app] in Hscan. rewrite Hscan.
  assert (0 ≤ len HB) as Hlen by (unfold len; lia).
  change (len []) with 0.
  rewrite (proj2 (Z.eqb_neq 0 (-1))) by lia.
  rewrite (proj2 (Z.eqb_neq (0 + 1 + len HB) (-1))) by lia.
  cbn [negb andb].
  assert (slice_to (tq :: HB ++ tq :: tail) 0 = []) as -> by reflexivity.
  assert (slice_from (tq :: HB ++ tq :: tail) (0 + 1 + len HB + 1) = tail)
    as ->.
  { replace (tq :: HB ++ tq :: tail) with ((tq :: HB ++ [tq]) ++ tail)
      by (cbn; by rewrite <- app_assoc).
    replace (0 + 1 + len HB + 1) with (len (tq :: HB ++ [tq])).
    - apply slice_from_app.
    - unfold len. cbn [length]. rewrite length_app. cbn [length]. lia. }
  cbn [app]. unfold tail.
  replace ([] :: [] :: C ++ [] :: [] :: tq :: FB ++ [tq; []])
    with (([] :: [] :: C ++ [[]; []]) ++ tq :: FB ++ tq :: [[]])
    by (cbn; rewrite <- !app_assoc; reflexivity).
  rewrite footer_scan_pair;
    [| done | repeat constructor | reflexivity | reflexivity].
  cbn [mbind result_bind]. f_equal. f_equal.
  replace (([] :: [] :: C ++ [[]; []]) ++ [[]])
    with ([[]; []] ++ C ++ [[]; []; []])
    by (cbn; rewrite <- !app_assoc; reflexivity).
  apply trim_blank_around; repeat constructor.
Qed.

Lemma str_split_no_sep (sep : char) (s : pystr) :
  sep ∉ s → str_split sep s = [s].
Proof.
  induction s as [|c s IH]; [reflexivity |].
  intros [Hne Hs]%not_elem_of_cons. cbn.
  destruct (N.eqb_spec c sep) as [->|_]; [done |]. by rewrite IH.
Qed.

(** The lines of what [save_code] writes. *)
Lemma saved_content_lines (str_title : pystr → pystr)
    (timestamp code code_type : pystr) :
  34%N ∉ str_title code_type → 34%N ∉ timestamp →
  ∃ HB FB : list pystr,
    str_split 10%N
      (FileManager.generate_file_header str_title timestamp code_type
         ++ code ++ FileManager.generate_file_footer)
    = FileManager.triple_quote
        :: HB ++ FileManager.triple_quote :: [] :: [] :: str_split 10%N code
        ++ [] :: [] :: FileManager.triple_quote
        :: FB ++ [FileManager.triple_quote; []]
    ∧ Forall (λ line, str_in FileManager.triple_quote line = false) HB
    ∧ Forall (λ line, str_in FileManager.triple_quote line = false) FB.
Proof.
  intros HT Hts.
  set (l1 := str "Text to Code Generator - " ++ str_title code_type
               ++ str " Code").
  set (l2 := str "Generated on: " ++ timestamp).
  set (l3 := str "Code Type: " ++ str_title code_type).
  exists (str_split 10%N l1 ++ str_split 10%N l2
          ++ [ str "====================================="; [];
               str "This file was automatically generated by the Text to Code Generator";
               str "with Encryption tool. "; [] ]
          ++ str_split 10%N l3),
         [ str "End of generated code"; str "====================="; [];
           str "This file was created by Text to Code Generator with Encryption.";
           str "For more information about this tool, check the main.py file." ].
  split; [|split].
  - unfold FileManager.generate_file_header, FileManager.generate_file_footer.
    fold l1 l2 l3.
    rewrite str_split_text_of_lines.
    change (FileManager.text_of_lines ([] :: ?l))
      with (10%N :: FileManager.text_of_lines l).
    rewrite str_split_app.
    rewrite <- (app_nil_r (FileManager.text_of_lines _)).
    rewrite str_split_text_of_lines.
    cbn [map concat]. rewrite !app_nil_r.
    rewrite !(str_split_no_sep 10%N) by (vm_compute; intros H;
      repeat (apply elem_of_cons in H as [H|H]; [discriminate |]);
      inversion H) || idtac.
    cbn [app]. rewrite <- !app_assoc. cbn [app]. reflexivity.
  - assert (∀ pre post x, 34%N ∉ pre → 34%N ∉ post → 34%N ∉ x →
              34%N ∉ pre ++ x ++ post) as Hcat.
    { intros pre post x H1 H2 H3 [H|[H|H]%elem_of_app]%elem_of_app; eauto. }
    assert (∀ l : pystr, bool_decide (34%N ∉ l) = true → 34%N ∉ l) as Hdec
      by (intros l; apply bool_decide_eq_true_1).
    repeat (apply Forall_app; split).
    + apply split_no_triple_quote. apply Hcat; [by apply Hdec | by apply Hdec | done].
    + apply split_no_triple_quote. unfold l2.
      rewrite <- (app_nil_r timestamp).
      apply Hcat; [by apply Hdec | by apply Hdec | done].
    + repeat constructor.
    + apply split_no_triple_quote. unfold l3.
      rewrite <- (app_nil_r (str_title code_type)).
      apply Hcat; [by apply Hdec | by apply Hdec | done].
  - repeat constructor.
Qed.

(** X10: from the content [save_code] writes (header, code, footer),
    [_remove_file_headers_footers] returns the lines of the code without
    the blank lines at its beginning and at its end, joined by newlines;
    triple quotes inside the code do not matter.  The title of the code
    type and the timestamp are assumed to hold no double quote. *)
Theorem saved_code_read_back (isspace : char → bool)
    (str_title : pystr → pystr) (timestamp code code_type : pystr) :
  34%N ∉ str_title code_type → 34%N ∉ timestamp →
  FileManager.remove_file_headers_footers isspace
    (FileManager.generate_file_header str_title timestamp code_type
       ++ code ++ FileManager.generate_file_footer)
  = Ok (str_join [10%N]
          (FileManager.pop_blank_back isspace
             (length (FileManager.pop_blank_front isspace (str_split 10%N code)))
             (FileManager.pop_blank_front isspace (str_split 10%N code)))).
Proof.
  intros HT Hts.
  destruct (saved_content_lines str_title timestamp code code_type HT Hts)
    as (HB & FB & Hsplit & HHB & HFB).
  by apply (remove_framed isspace HB FB).
Qed.

Lemma saved_code_read_back_witness :
  FileManager.remove_file_headers_footers py_isspace
    (FileManager.generate_file_header ascii_title (str "2024-05-06 07:08:09")
       (str "encrypted")
       ++ ([10; 32; 10]%N ++ FileManager.triple_quote ++ [10; 9]%N)
       ++ FileManager.generate_file_footer)
  = Ok (str_join [10%N]
          (FileManager.pop_blank_back py_isspace
             (length (FileManager.pop_blank_front py_isspace
                        (str_split 10%N
                           ([10; 32; 10]%N ++ FileManager.triple_quote
                              ++ [10; 9]%N))))
             (FileManager.pop_blank_front py_isspace
                (str_split 10%N
                   ([10; 32; 10]%N ++ FileManager.triple_quote
                      ++ [10; 9]%N))))).
Proof.
  apply (saved_code_read_back py_isspace ascii_title
           (str "2024-05-06 07:08:09")
           ([10; 32; 10]%N ++ FileManager.triple_quote ++ [10; 9]%N)
           (str "encrypted"));
    apply (bool_decide_eq_true_1 _); vm_compute; reflexivity.
Defined.

(** ** Text files: reading back what was written *)

Lemma utf8_decode_char (c : char) (rest : list N) :
  utf8_encodable c = true →
  utf8_decode (utf8_char c ++ rest) = cons c <$> utf8_decode rest.
Proof.
  intros Hc. unfold utf8_encodable in Hc.
  apply andb_true_iff in Hc as [Hs Hmax]. apply N.ltb_lt in Hmax.
  apply orb_true_iff in Hs.
  rewrite N.ltb_lt in Hs. rewrite N.ltb_lt in Hs.
  unfold utf8_char.
  destruct (N.ltb_spec c 128) as [H1|H1].
  { cbn [app utf8_decode]. by rewrite (proj2 (N.ltb_lt c 128)). }
  destruct (N.ltb_spec c 2048) as [H2|H2].
  { cbn [app utf8_decode].
    pose proof (N.div_mod c 64 ltac:(lia)) as Hdm.
    pose proof (N.mod_lt c 64 ltac:(lia)) as Hm.
    set (q := (c / 64)%N) in *. set (r := (c mod 64)%N) in *.
    rewrite (proj2 (N.ltb_ge (192 + q) 128)) by lia.
    rewrite (proj2 (N.ltb_ge (192 + q) 192)) by lia.
    rewrite (proj2 (N.ltb_lt (192 + q) 224)) by lia.
    unfold is_continuation.
    rewrite (proj2 (N.leb_le 128 (128 + r))) by lia.
    rewrite (proj2 (N.ltb_lt (128 + r) 192)) by lia.
    replace ((192 + q - 192) * 64 + (128 + r - 128))%N with c by lia.
    by rewrite (proj2 (N.leb_le 128 c)). }
  assert (utf8_encodable c = true) as Henc.
  { unfold utf8_encodable. apply andb_true_iff. split.
    - apply orb_true_iff. rewrite !N.ltb_lt. done.
    - by apply N.ltb_lt. }
  destruct (N.ltb_spec c 65536) as [H3|H3].
  { cbn [app utf8_decode].
    pose proof (N.div_mod c 64 ltac:(lia)) as Hdm.
    pose proof (N.mod_lt c 64 ltac:(lia)) as Hm.
    pose proof (N.div_mod (c / 64) 64 ltac:(lia)) as Hdm'.
    pose proof (N.mod_lt (c / 64) 64 ltac:(lia)) as Hm'.
    rewrite N.Div0.div_div in Hdm'. change (64 * 64)%N with 4096%N in Hdm'.
    set (q := (c / 4096)%N) in *. set (r := (c mod 64)%N) in *.
    set (m := ((c / 64) mod 64)%N) in *.
    rewrite (proj2 (N.ltb_ge (224 + q) 128)) by lia.
    rewrite (proj2 (N.ltb_ge (224 + q) 192)) by lia.
    rewrite (proj2 (N.ltb_ge (224 + q) 224)) by lia.
    rewrite (proj2 (N.ltb_lt (224 + q) 240)) by lia.
    unfold is_continuation.
    rewrite (proj2 (N.leb_le 128 (128 + m))) by lia.
    rewrite (proj2 (N.ltb_lt (128 + m) 192)) by lia.
    rewrite (proj2 (N.leb_le 128 (128 + r))) by lia.
    rewrite (proj2 (N.ltb_lt (128 + r) 192)) by lia.
    replace ((224 + q - 224) * 4096 + (128 + m - 128) * 64 + (128 + r - 128))%N
      with c by lia.
    by rewrite (proj2 (N.leb_le 2048 c)), Henc. }
  cbn [app utf8_decode].
  pose proof (N.div_mod c 64 ltac:(lia)) as Hdm.
  pose proof (N.mod_lt c 64 ltac:(lia)) as Hm.
  pose proof (N.div_mod (c / 64) 64 ltac:(lia)) as Hdm'.
  pose proof (N.mod_lt (c / 64) 64 ltac:(lia)) as Hm'.
  rewrite N.Div0.div_div in Hdm'. change (64 * 64)%N with 4096%N in Hdm'.
  pose proof (N.div_mod (c / 4096) 64 ltac:(lia)) as Hdm''.
  pose proof (N.mod_lt (c / 4096) 64 ltac:(lia)) as Hm''.
  rewrite N.Div0.div_div in Hdm''. change (4096 * 64)%N with 262144%N in Hdm''.
  set (q := (c / 262144)%N) in *. set (r := (c mod 64)%N) in *.
  set (m := ((c / 64) mod 64)%N) in *. set (h := ((c / 4096) mod 64)%N) in *.
  rewrite (proj2 (N.ltb_ge (240 + q) 128)) by lia.
  rewrite (proj2 (N.ltb_ge (240 + q) 192)) by lia.
  rewrite (proj2 (N.ltb_ge (240 + q) 224)) by lia.
  rewrite (proj2 (N.ltb_ge (240 + q) 240)) by lia.
  rewrite (proj2 (N.ltb_lt (240 + q) 248)) by lia.
  unfold is_continuation.
  rewrite (proj2 (N.leb_le 128 (128 + h))) by lia.
  rewrite (proj2 (N.ltb_lt (128 + h) 192)) by lia.
  rewrite (proj2 (N.leb_le 128 (128 + m))) by lia.
  rewrite (proj2 (N.ltb_lt (128 + m) 192)) by lia.
  rewrite (proj2 (N.leb_le 128 (128 + r))) by lia.
  rewrite (proj2 (N.ltb_lt (128 + r) 192)) by lia.
  replace ((240 + q - 240) * 262144 + (128 + h - 128) * 4096
           + (128 + m - 128) * 64 + (128 + r - 128))%N with c by lia.
  by rewrite (proj2 (N.leb_le 65536 c)), Henc.
Qed.

(** Decoding undoes encoding. *)
Lemma utf8_decode_encode (s : pystr) (bytes : list N) :
  utf8_encode s = Some bytes → utf8_decode bytes = Some s.
Proof.
  unfold utf8_encode. destruct (forallb utf8_encodable s) eqn:Hall; [|done].
  intros [= <-]. induction s as [|c s IH]; [reflexivity |].
  cbn [forallb] in Hall. apply andb_true_iff in Hall as [Hc Hs].
  cbn [map concat]. rewrite utf8_decode_char by done.
  by rewrite (IH Hs).
Qed.

Lemma utf8_encode_app (s1 s2 : pystr) (b1 b2 : list N) :
  utf8_encode s1 = Some b1 → utf8_encode s2 = Some b2 →
  utf8_encode (s1 ++ s2) = Some (b1 ++ b2).
Proof.
  unfold utf8_encode. rewrite forallb_app.
  destruct (forallb utf8_encodable s1); [|done].
  destruct (forallb utf8_encodable s2); [|done].
  intros [= <-] [= <-]. cbn [andb]. by rewrite map_app, concat_app.
Qed.

Lemma utf8_encode_Forall (s : pystr) :
  Forall (λ c, utf8_encodable c = true) s →
  utf8_encode s = Some (concat (map utf8_char s)).
Proof.
  intros H. unfold utf8_encode.
  replace (forallb utf8_encodable s) with true; [done |].
  symmetry. apply forallb_forall. intros x Hx.
  rewrite Forall_forall in H. apply H. by apply list_elem_of_In.
Qed.

Lemma newline_write_app (linesep s1 s2 : pystr) :
  newline_write linesep (s1 ++ s2)
  = newline_write linesep s1 ++ newline_write linesep s2.
Proof. unfold newline_write. by rewrite map_app, concat_app. Qed.

(** Reading gives back what was written when the text holds no carriage
    return. *)
Lemma newline_read_write (linesep s : pystr) :
  linesep = [10%N] ∨ linesep = [13; 10]%N →
  13%N ∉ s →
  newline_read (newline_write linesep s) = s.
Proof.
  intros Hsep. induction s as [|c s IH]; intros Hcr; [reflexivity |].
  apply not_elem_of_cons in Hcr as [Hc Hs]. specialize (IH Hs).
  unfold newline_write in *. cbn [map concat].
  destruct (N.eqb_spec c 10) as [->|Hnl].
  - destruct Hsep as [-> | ->]; cbn [app newline_read N.eqb Pos.eqb];
      by rewrite IH.
  - cbn [app newline_read]. rewrite (proj2 (N.eqb_neq c 13)) by done.
    by rewrite IH.
Qed.

Lemma text_char_spec (c : char) :
  text_char c = true ↔ utf8_encodable c = true ∧ c ≠ 13%N.
Proof.
  unfold text_char. rewrite andb_true_iff, negb_true_iff, N.eqb_neq. done.
Qed.

Lemma newline_write_text_chars (linesep s : pystr) :
  linesep = [10%N] ∨ linesep = [13; 10]%N →
  Forall (λ c, text_char c = true) s →
  Forall (λ c, utf8_encodable c = true) (newline_write linesep s).
Proof.
  intros Hsep Hs. unfold newline_write.
  induction Hs as [|c s Hc Hs IH]; [constructor |].
  cbn [map concat]. apply Forall_app. split; [|exact IH].
  apply text_char_spec in Hc as [Hc _].
  destruct (c =? 10)%N; [|by constructor].
  destruct Hsep as [-> | ->]; by repeat constructor.
Qed.

(** What a text of such symbols leaves in the file, and what is read from
    these bytes. *)
Lemma text_file_round_trip (linesep s : pystr) :
  linesep = [10%N] ∨ linesep = [13; 10]%N →
  Forall (λ c, text_char c = true) s →
  utf8_encode (newline_write linesep s)
  = Some (concat (map utf8_char (newline_write linesep s)))
  ∧ newline_read
      <$> utf8_decode (concat (map utf8_char (newline_write linesep s)))
    = Some s.
Proof.
  intros Hsep Hs.
  pose proof (utf8_encode_Forall _ (newline_write_text_chars _ _ Hsep Hs))
    as Henc.
  split; [exact Henc |].
  rewrite (utf8_decode_encode _ _ Henc). cbn [fmap option_fmap option_map].
  f_equal. apply newline_read_write; [done |].
  intros Hcr. rewrite Forall_forall in Hs.
  by apply Hs, text_char_spec in Hcr as [_ Hcr].
Qed.

(** The header holds the symbols of its fixed lines, of the title and of
    the timestamp. *)
Lemma header_chars (P : char → bool) (str_title : pystr → pystr)
    (timestamp code_type : pystr) :
  forallb P (FileManager.generate_file_header (λ _, []) [] []) = true →
  forallb P (str_title code_type) = true →
  forallb P timestamp = true →
  forallb P (FileManager.generate_file_header str_title timestamp code_type)
  = true.
Proof.
  unfold FileManager.generate_file_header, FileManager.text_of_lines.
  cbn [map concat]. rewrite !forallb_app, !andb_true_iff.
  intros H Ht Hts. rewrite Ht, Hts. tauto.
Qed.

Lemma Forall_forallb {A} (P : A → bool) (l : list A) :
  Forall (λ x, P x = true) l ↔ forallb P l = true.
Proof.
  rewrite Forall_forall, forallb_forall. split; intros H x Hx; apply H.
  - by apply list_elem_of_In.
  - by apply list_elem_of_In.
Qed.

(** From header, code and footer, [_remove_file_headers_footers] gives
    the code back when its first and last lines are not blank. *)
Lemma remove_saved_content (isspace : char → bool)
    (str_title : pystr → pystr) (timestamp code code_type : pystr) :
  34%N ∉ str_title code_type → 34%N ∉ timestamp →
  (∀ line, head (str_split 10%N code) = Some line →
           line_is_blank isspace line = false) →
  (∀ line, last (str_split 10%N code) = Some line →
           line_is_blank isspace line = false) →
  str_strip isspace code ≠ []
  ∧ FileManager.remove_file_headers_footers isspace
      (FileManager.generate_file_header str_title timestamp code_type
         ++ code ++ FileManager.generate_file_footer)
    = Ok code.
Proof.
  intros HT Hts Hhead Hlast. split.
  - intros Hnil. apply str_strip_nil in Hnil.
    pose proof (str_split_nonempty 10%N code) as Hs.
    destruct (str_split 10%N code) as [|l0 ls] eqn:E; [done |].
    specialize (Hhead l0 eq_refl).
    assert (line_is_blank isspace l0 = true) as Hb; [|congruence].
    apply blank_true, Forall_forall. intros c Hc.
    rewrite Forall_forall in Hnil. apply Hnil.
    apply (str_split_elem_of 10%N code l0); [rewrite E; left | done].
  - destruct (saved_content_lines str_title timestamp code code_type HT Hts)
      as (HB & FB & Hsplit & HHB & HFB).
    rewrite (remove_framed isspace HB FB _ _ Hsplit HHB HFB).
    f_equal. rewrite <- (str_join_split 10%N code) at 3. f_equal.
    pose proof (str_split_nonempty 10%N code) as Hs.
    destruct (str_split 10%N code) as [|l0 ls] eqn:E; [done |].
    rewrite (pop_blank_front_keeps isspace l0 ls (Hhead l0 eq_refl)).
    destruct (exists_last (l := l0 :: ls) ltac:(done)) as (X & x & EX).
    rewrite EX in *. apply pop_blank_back_keeps.
    apply Hlast. by rewrite last_snoc.
Qed.

(** X11: a code is saved to a file and loaded back unchanged when it can
    be written to a text file as it is (no carriage return, no surrogate),
    its first and last lines are not blank, and the file can be found
    again: the name [save_code] returns has no directory part and the
    system refuses neither the writing nor the reading.  The title of the
    code type and the timestamp are assumed to be such text too, without
    double quotes; the newline of the system is LF or CR LF. *)
Theorem saved_code_round_trip (isspace : char → bool)
    (str_title : pystr → pystr) (timestamp file_stamp linesep : pystr)
    (path_join : pystr → pystr → pystr) (path_dirname : pystr → pystr)
    (open_refused read_refused : pystr → option pystr)
    (encode_error : pystr → pystr) (decode_error : list N → pystr)
    (base_directory code code_type : pystr) (fs : FileManager.files) :
  linesep = [10%N] ∨ linesep = [13; 10]%N →
  path_dirname (FileManager.file_name file_stamp code_type) = [] →
  open_refused
    (path_join base_directory (FileManager.file_name file_stamp code_type))
  = None →
  read_refused
    (path_join base_directory (FileManager.file_name file_stamp code_type))
  = None →
  Forall (λ c, text_char c = true) (str_title code_type ++ timestamp ++ code) →
  34%N ∉ str_title code_type ++ timestamp →
  (∀ line, head (str_split 10%N code) = Some line →
           line_is_blank isspace line = false) →
  (∀ line, last (str_split 10%N code) = Some line →
           line_is_blank isspace line = false) →
  ∃ fs' : FileManager.files,
    FileManager.save_code isspace str_title timestamp file_stamp linesep
      path_join open_refused encode_error base_directory code code_type fs
    = (FileManager.Returned (FileManager.file_name file_stamp code_type), fs')
    ∧ FileManager.load_code isspace path_join path_dirname read_refused
        decode_error base_directory
        (FileManager.file_name file_stamp code_type) fs'
      = FileManager.Returned code.
Proof.
  intros Hsep Hdir Hopen Hread Hchars Hquote Hhead Hlast.
  apply Forall_app in Hchars as [Ht Hchars].
  apply Forall_app in Hchars as [Hts Hcode].
  apply not_elem_of_app in Hquote as [Hq1 Hq2].
  destruct (remove_saved_content isspace str_title timestamp code code_type
              Hq1 Hq2 Hhead Hlast) as [Hne Hremove].
  set (header := FileManager.generate_file_header str_title timestamp
                   code_type) in *.
  set (footer := FileManager.generate_file_footer) in *.
  assert (Forall (λ c, text_char c = true) header) as Hheader.
  { apply Forall_forallb, header_chars; [reflexivity | |];
      by apply Forall_forallb. }
  assert (Forall (λ c, text_char c = true) footer) as Hfooter
    by (by apply Forall_forallb).
  destruct (text_file_round_trip linesep header Hsep Hheader) as [Hw1 _].
  destruct (text_file_round_trip linesep code Hsep Hcode) as [Hw2 _].
  destruct (text_file_round_trip linesep footer Hsep Hfooter) as [Hw3 _].
  destruct (text_file_round_trip linesep (header ++ code ++ footer) Hsep)
    as [_ Hback].
  { apply Forall_app. split; [done |]. by apply Forall_app. }
  unfold FileManager.save_code, FileManager.write_text.
  rewrite (truthy_nonempty _ Hne). cbn [negb].
  rewrite Hopen. fold header. rewrite Hw1, Hw2. fold footer. rewrite Hw3.
  eexists. split; [reflexivity |].
  unfold FileManager.load_code.
  assert (truthy (FileManager.file_name file_stamp code_type) = true) as ->.
  { unfold FileManager.file_name. by destruct code_type. }
  rewrite Hdir. cbn [negb truthy].
  rewrite Hread, lookup_insert_eq.
  rewrite <- !concat_app, <- !map_app, <- !newline_write_app.
  destruct (utf8_decode _) as [text|]; [|discriminate].
  cbn [fmap option_fmap option_map] in Hback.
  assert (newline_read text = header ++ code ++ footer) as ->
    by congruence.
  by rewrite Hremove.
Qed.

Lemma saved_code_round_trip_witness :
  ∃ fs' : FileManager.files,
    FileManager.save_code py_isspace ascii_title (str "2024-05-06 07:08:09")
      (str "20240506_070809") [13; 10]%N posix_join (λ _, None) (λ _, [])
      (str "generated_files")
      (str "def f():" ++ [10; 10]%N ++ str "    return 1") (str "generated") ∅
    = (FileManager.Returned
         (FileManager.file_name (str "20240506_070809") (str "generated")),
       fs')
    ∧ FileManager.load_code py_isspace posix_join posix_dirname (λ _, None)
        (λ _, []) (str "generated_files")
        (FileManager.file_name (str "20240506_070809") (str "generated")) fs'
      = FileManager.Returned
          (str "def f():" ++ [10; 10]%N ++ str "    return 1").
Proof.
  apply (saved_code_round_trip py_isspace ascii_title
           (str "2024-05-06 07:08:09") (str "20240506_070809") [13; 10]%N
           posix_join posix_dirname (λ _, None) (λ _, None) (λ _, [])
           (λ _, []) (str "generated_files")
           (str "def f():" ++ [10; 10]%N ++ str "    return 1")
           (str "generated") ∅).
  - by right.
  - vm_compute. reflexivity.
  - reflexivity.
  - reflexivity.
  - apply (bool_decide_eq_true_1 _). vm_compute. reflexivity.
  - apply (bool_decide_eq_true_1 _). vm_compute. reflexivity.
  - intros line. vm_compute. intros [= <-]. reflexivity.
  - intros line. vm_compute. intros [= <-]. reflexivity.
Defined.

(** X12: a content with no line holding a triple quote loses nothing but
    the blank lines at its two ends. *)
Theorem remove_without_triple_quotes (isspace : char → bool)
    (content : pystr) :
  Forall (λ line, str_in FileManager.triple_quote line = false)
    (str_split 10%N content) →
  FileManager.remove_file_headers_footers isspace content
  = Ok (str_join [10%N]
          (FileManager.pop_blank_back isspace
             (length (FileManager.pop_blank_front isspace
                        (str_split 10%N content)))
             (FileManager.pop_blank_front isspace (str_split 10%N content)))).
Proof.
  intros Hno. unfold FileManager.remove_file_headers_footers.
  rewrite (header_scan_none _ 0 (-1) 0 Hno).
  replace (negb (-1 =? -1) && negb (-1 =? -1)) with false by reflexivity.
  by rewrite (footer_scan_none _ (-1) 0 Hno).
Qed.

Lemma remove_without_triple_quotes_witness :
  FileManager.remove_file_headers_footers py_isspace
    ([10]%N ++ str "x = 1" ++ [10; 32]%N)
  = Ok (str_join [10%N]
          (FileManager.pop_blank_back py_isspace
             (length (FileManager.pop_blank_front py_isspace
                        (str_split 10%N ([10]%N ++ str "x = 1" ++ [10; 32]%N))))
             (FileManager.pop_blank_front py_isspace
                (str_split 10%N ([10]%N ++ str "x = 1" ++ [10; 32]%N))))).
Proof.
  apply (remove_without_triple_quotes py_isspace
           ([10]%N ++ str "x = 1" ++ [10; 32]%N)).
  repeat constructor.
Defined.

Example remove_without_triple_quotes_value :
  FileManager.remove_file_headers_footers py_isspace
    ([10]%N ++ str "x = 1" ++ [10; 32]%N) = Ok (str "x = 1").
Proof. vm_compute. reflexivity. Qed.

(** * Names made by the templates *)

(** ** Runs of a character class *)

Lemma findall_runs_spec (p : char → bool) (s cur : pystr) :
  Forall (λ c, p c = true) cur →
  Forall (λ w, w ≠ [] ∧ Forall (λ c, p c = true) w) (findall_runs p s cur).
Proof.
  revert cur. induction s as [|c s IH]; intros cur Hcur; cbn [findall_runs].
  - destruct cur; cbn; [constructor |].
    constructor; [by split | constructor].
  - destruct (p c) eqn:E.
    + apply IH. apply Forall_app. split; [done |].
      constructor; [done | constructor].
    + apply Forall_app. split; [|apply IH; constructor].
      destruct cur; cbn; [constructor |].
      constructor; [by split | constructor].
Qed.

Lemma str_join_nil (l : list pystr) : str_join [] l = concat l.
Proof.
  induction l as [|x l IH]; [reflexivity |].
  cbn [str_join concat]. rewrite <- IH.
  destruct l; [by rewrite app_nil_r | reflexivity].
Qed.

Lemma str_getitem_head (c : char) (r : pystr) : str_getitem (c :: r) 0 = Ok c.
Proof. reflexivity. Qed.


Lemma is_ascii_lower_spec (c : char) :
  is_ascii_lower c = true ↔ (97 ≤ c ≤ 122)%N.
Proof.
  unfold is_ascii_lower. rewrite andb_true_iff, !N.leb_le. done.
Qed.

Lemma is_ascii_upper_spec (c : char) :
  is_ascii_upper c = true ↔ (65 ≤ c ≤ 90)%N.
Proof.
  unfold is_ascii_upper. rewrite andb_true_iff, !N.leb_le. done.
Qed.

Lemma is_ascii_digit_spec (c : char) :
  is_ascii_digit c = true ↔ (48 ≤ c ≤ 57)%N.
Proof.
  unfold is_ascii_digit. rewrite andb_true_iff, !N.leb_le. done.
Qed.

Lemma is_alnum_spec (c : char) :
  is_alnum c = true ↔
    (97 ≤ c ≤ 122)%N ∨ (65 ≤ c ≤ 90)%N ∨ (48 ≤ c ≤ 57)%N.
Proof.
  unfold is_alnum.
  rewrite !orb_true_iff, is_ascii_lower_spec, is_ascii_upper_spec,
    is_ascii_digit_spec. tauto.
Qed.

Lemma is_alnum_ascii (c : char) : is_alnum c = true → (c <? 128)%N = true.
Proof. intros H%is_alnum_spec. apply N.ltb_lt. lia. Qed.

(** Capitalising a word of letters and digits gives letters and digits,
    the first an upper-case letter or a digit. *)
Lemma ascii_capitalize_alnum (c : char) (r : pystr) :
  Forall (λ x, is_alnum x = true) (c :: r) →
  ∃ c' r',
    ascii_capitalize (c :: r) = c' :: r'
    ∧ Forall (λ x, is_alnum x = true) (c' :: r')
    ∧ (is_ascii_upper c' = true ∨ is_ascii_digit c' = true).
Proof.
  intros H. apply Forall_cons in H as [Hc Hr].
  eexists _, _. split; [reflexivity |].
  apply is_alnum_spec in Hc.
  assert (is_ascii_upper (if is_ascii_lower c then (c - 32)%N else c) = true
          ∨ is_ascii_digit (if is_ascii_lower c then (c - 32)%N else c) = true)
    as Hfirst.
  { destruct (is_ascii_lower c) eqn:El.
    - left. apply is_ascii_lower_spec in El. apply is_ascii_upper_spec. lia.
    - assert (¬ (97 ≤ c ≤ 122)%N) as Hn
        by (rewrite <- is_ascii_lower_spec; congruence).
      destruct Hc as [?|[?|?]]; [done | left | right].
      + by apply is_ascii_upper_spec.
      + by apply is_ascii_digit_spec. }
  split; [|exact Hfirst]. constructor.
  - unfold is_alnum. destruct Hfirst as [H|H]; apply orb_true_iff;
      [left; apply orb_true_iff; right; exact H | right; exact H].
  - rewrite Forall_forall in Hr. apply Forall_forall. intros x Hx.
    apply list_elem_of_In, in_map_iff in Hx as (y & <- & Hy).
    apply list_elem_of_In, Hr, is_alnum_spec in Hy.
    destruct (is_ascii_upper y) eqn:Eu; apply is_alnum_spec; [|done].
    apply is_ascii_upper_spec in Eu. lia.
Qed.

Section ClassNames.

Variable unicode_capitalize : pystr → pystr.
Variable unicode_isalpha : char → bool.

Lemma str_capitalize_alnum (w : pystr) :
  w ≠ [] → Forall (λ x, is_alnum x = true) w →
  ∃ c' r',
    TextToCodeConverter.str_capitalize unicode_capitalize w = c' :: r'
    ∧ Forall (λ x, is_alnum x = true) (c' :: r')
    ∧ (is_ascii_upper c' = true ∨ is_ascii_digit c' = true).
Proof.
  intros Hne Hw. unfold TextToCodeConverter.str_capitalize.
  assert (forallb (λ c, (c <? 128)%N) w = true) as ->.
  { apply forallb_forall. intros x Hx. apply is_alnum_ascii.
    rewrite Forall_forall in Hw. by apply Hw, list_elem_of_In. }
  destruct w as [|c r]; [done |]. by apply ascii_capitalize_alnum.
Qed.

(** What [_create_class_name] returns. *)
Lemma create_class_name_shape (text : pystr) :
  ∃ (c : char) (rest : pystr),
    TextToCodeConverter.create_class_name unicode_capitalize unicode_isalpha text
    = Ok (c :: rest)
    ∧ is_ascii_upper c = true
    ∧ Forall (λ x, is_alnum x = true) (c :: rest).
Proof.
  unfold TextToCodeConverter.create_class_name.
  pose proof (findall_runs_spec is_alnum text [] (Forall_nil_2 _)) as Hwords.
  destruct (findall_runs is_alnum text []) as [|w ws].
  { cbn [truthy negb]. eexists _, _. split; [reflexivity |].
    split; [reflexivity |]. apply Forall_forall. intros x Hx.
    revert x Hx. apply Forall_forall. by vm_compute; repeat constructor. }
  cbn [truthy negb].
  assert (slice_to (w :: ws) 3 = w :: take 2 ws) as ->.
  { unfold slice_to, slice_bound, len. cbn [length].
    rewrite (proj2 (Z.ltb_ge 3 0)) by lia.
    destruct ws as [|w2 [|w3 ws]]; cbn; try reflexivity.
    replace (Z.to_nat _) with 3%nat by lia. reflexivity. }
  apply Forall_cons in Hwords as [[Hne Hw] Hws].
  destruct (str_capitalize_alnum w Hne Hw) as (c' & r' & Hcap & Hal & Hfirst).
  rewrite str_join_nil. cbn [map concat]. rewrite Hcap.
  assert (Forall (λ x, is_alnum x = true)
            (concat (map (TextToCodeConverter.str_capitalize unicode_capitalize)
                       (take 2 ws)))) as Hrest.
  { apply Forall_concat, Forall_forall. intros y Hy.
    apply list_elem_of_In, in_map_iff in Hy as (v & <- & Hv).
    apply list_elem_of_In in Hv.
    assert (v ∈ ws) as Hv' by (by eapply subseteq_take).
    rewrite Forall_forall in Hws. destruct (Hws v Hv') as [Hvne Hval].
    destruct (str_capitalize_alnum v Hvne Hval) as (? & ? & -> & ? & _).
    done. }
  cbn [app truthy negb]. rewrite str_getitem_head. cbn [mbind result_bind].
  assert ((c' <? 128)%N = true) as Hascii
    by (apply is_alnum_ascii; by apply Forall_inv in Hal).
  unfold TextToCodeConverter.char_isalpha. rewrite Hascii.
  destruct Hfirst as [Hup|Hdig].
  - rewrite Hup, orb_true_r. cbn [negb].
    eexists _, _. split; [reflexivity |]. split; [done |].
    apply Forall_cons in Hal as [? ?]. constructor; [done |].
    by apply Forall_app.
  - assert (is_ascii_lower c' || is_ascii_upper c' = false) as ->.
    { apply is_ascii_digit_spec in Hdig. apply orb_false_iff. split.
      - destruct (is_ascii_lower c') eqn:E; [|done].
        apply is_ascii_lower_spec in E. lia.
      - destruct (is_ascii_upper c') eqn:E; [|done].
        apply is_ascii_upper_spec in E. lia. }
    cbn [negb]. eexists _, _. split; [reflexivity |]. split; [reflexivity |].
    repeat (constructor; [reflexivity |]).
    apply (Forall_app _ (c' :: r')). by split.
Qed.

End ClassNames.

(** X13: for every text, [_create_class_name] returns a name that begins
    with an upper-case ASCII letter and consists of ASCII letters and
    digits only, so that it can follow [class]. *)
Theorem class_name_is_capitalised_alnum
    (unicode_capitalize : pystr → pystr) (unicode_isalpha : char → bool)
    (text : pystr) :
  ∃ name : pystr,
    TextToCodeConverter.create_class_name unicode_capitalize unicode_isalpha text
    = Ok name
    ∧ (∃ c, head name = Some c ∧ is_ascii_upper c = true)
    ∧ Forall (λ x, is_alnum x = true) name.
Proof.
  destruct (create_class_name_shape unicode_capitalize unicode_isalpha text)
    as (c & rest & Hname & Hc & Hall).
  exists (c :: rest). split; [exact Hname |].
  split; [|exact Hall]. exists c. by split.
Qed.

(** ** Identifiers *)

Lemma is_prefix_app (p m b : pystr) :
  is_prefix p m = true → is_prefix p (m ++ b) = true.
Proof.
  revert m. induction p as [|x p IH]; intros m; [done |].
  destruct m as [|y m]; cbn; [discriminate |].
  intros [-> H]%andb_true_iff. by rewrite IH.
Qed.

Lemma str_in_app_r (p m b : pystr) :
  str_in p m = true → str_in p (m ++ b) = true.
Proof.
  induction m as [|y m IH].
  - cbn. rewrite orb_false_r. intros H.
    destruct p; [|discriminate]. by destruct b.
  - cbn [str_in app]. intros [H|H]%orb_true_iff; apply orb_true_iff.
    + left. exact (is_prefix_app p (y :: m) b H).
    + right. exact (IH H).
Qed.

Lemma str_in_app_l (p a m : pystr) :
  str_in p m = true → str_in p (a ++ m) = true.
Proof.
  intros H. induction a as [|x a IH]; [done |].
  cbn [app str_in]. rewrite IH. apply orb_true_r.
Qed.

Section StripBothEnds.

Variable drop : char → bool.

Lemma str_lstrip_suffix_of (s : pystr) : ∃ a, s = a ++ str_lstrip drop s.
Proof.
  induction s as [|c s [a IH]]; [by exists [] |].
  cbn [str_lstrip]. destruct (drop c); [|by exists []].
  exists (c :: a). cbn. by f_equal.
Qed.

Lemma str_rstrip_prefix_of (s : pystr) : ∃ b, s = str_rstrip drop s ++ b.
Proof.
  unfold str_rstrip.
  destruct (str_lstrip_suffix_of (reverse s)) as [a Ha].
  exists (reverse a). rewrite <- reverse_app, <- Ha.
  by rewrite reverse_involutive.
Qed.

(** The stripped string is a part of the string. *)
Lemma str_strip_infix (s : pystr) : ∃ a b, s = a ++ str_strip drop s ++ b.
Proof.
  unfold str_strip.
  destruct (str_lstrip_suffix_of s) as [a Ha].
  destruct (str_rstrip_prefix_of (str_lstrip drop s)) as [b Hb].
  exists a, b. by rewrite <- Hb.
Qed.

(** Its first and its last symbol are not of the stripped class. *)
Lemma str_strip_head (s : pystr) (c : char) :
  head (str_strip drop s) = Some c → drop c = false.
Proof.
  unfold str_strip. intros Hh.
  destruct (str_rstrip_prefix_of (str_lstrip drop s)) as [b Hb].
  destruct (str_rstrip drop (str_lstrip drop s)) as [|x r]; [done |].
  injection Hh as ->. by apply (str_lstrip_head drop s c (r ++ b)).
Qed.

Lemma str_strip_last (s : pystr) (c : char) :
  last (str_strip drop s) = Some c → drop c = false.
Proof.
  unfold str_strip, str_rstrip. rewrite last_reverse. intros Hh.
  destruct (str_lstrip drop (reverse (str_lstrip drop s))) as [|x r] eqn:E;
    [done |].
  injection Hh as ->. by apply str_lstrip_head in E.
Qed.

End StripBothEnds.

Lemma sub_non_word_chars (s : pystr) :
  Forall (λ c, is_word_char c = true) (sub_non_word s).
Proof.
  apply Forall_forall. intros x Hx.
  apply list_elem_of_In, in_map_iff in Hx as (y & <- & _).
  by destruct (is_word_char y) eqn:E.
Qed.

Lemma sub_underscore_runs_elem_of (s : pystr) (x : char) :
  x ∈ sub_underscore_runs s → x ∈ s.
Proof.
  induction s as [|c s IH]; [done |].
  cbn [sub_underscore_runs]. destruct (N.eqb_spec c 95) as [->|Hc].
  - destruct s as [|c' s']; [done |].
    destruct (c' =? 95)%N.
    + intros H. right. by apply IH.
    + intros [->|H]%elem_of_cons; [left | right; by apply IH].
  - intros [->|H]%elem_of_cons; [left | right; by apply IH].
Qed.

Lemma sub_underscore_runs_head (s : pystr) :
  head (sub_underscore_runs s) = head s.
Proof.
  induction s as [|c s IH]; [done |].
  cbn [sub_underscore_runs]. destruct (N.eqb_spec c 95) as [->|Hc]; [|done].
  destruct s as [|c' s']; [done |].
  destruct (N.eqb_spec c' 95) as [->|Hc']; [|done].
  rewrite IH. done.
Qed.

(** After the substitution no two underscores are adjacent. *)
Lemma sub_underscore_runs_no_double (s : pystr) :
  str_in [95; 95]%N (sub_underscore_runs s) = false.
Proof.
  induction s as [|c s IH]; [done |].
  cbn [sub_underscore_runs]. destruct (N.eqb_spec c 95) as [->|Hc].
  - destruct s as [|c' s']; [done |].
    destruct (N.eqb_spec c' 95) as [->|Hc']; [exact IH |].
    cbn [str_in]. rewrite IH, orb_false_r.
    pose proof (sub_underscore_runs_head (c' :: s')) as Hh.
    destruct (sub_underscore_runs (c' :: s')) as [|x r]; [done |].
    injection Hh as ->. cbn [is_prefix]. rewrite N.eqb_refl.
    by rewrite (proj2 (N.eqb_neq 95 c')) by congruence.
  - cbn [str_in]. rewrite IH, orb_false_r.
    destruct (sub_underscore_runs s); cbn [is_prefix];
      by rewrite (proj2 (N.eqb_neq 95 c)) by congruence.
Qed.

Section Identifiers.

Variable str_lower : pystr → pystr.
Variable unicode_isdigit : char → bool.

(** What [_create_identifier] returns. *)
Lemma create_identifier_shape (text : pystr) :
  ∃ identifier : pystr,
    TextToCodeConverter.create_identifier str_lower unicode_isdigit text
    = Ok identifier
    ∧ 3 ≤ len identifier
    ∧ Forall (λ c, is_word_char c = true) identifier
    ∧ head identifier ≠ Some 95%N
    ∧ last identifier ≠ Some 95%N
    ∧ str_in [95; 95]%N identifier = false.
Proof.
  unfold TextToCodeConverter.create_identifier.
  pose proof (sub_non_word_chars (str_lower text)) as Hw.
  set (s0 := sub_non_word (str_lower text)) in *.
  assert (∃ d : bool,
            (if truthy s0
             then c ← str_getitem s0 0;
                  Ok (TextToCodeConverter.char_isdigit unicode_isdigit c)
             else Ok false) = Ok d) as [d ->].
  { destruct s0 as [|c r]; cbn; eauto. }
  cbn [mbind result_bind].
  set (s1 := if d then str "func_" ++ s0 else s0).
  assert (Forall (λ c, is_word_char c = true) s1) as Hw1.
  { unfold s1. destruct d; [|done]. apply Forall_app. split; [|done].
    by vm_compute; repeat constructor. }
  set (s2 := sub_underscore_runs s1).
  set (s3 := str_strip (λ c, (c =? 95)%N) s2).
  destruct (negb (truthy s3) || (len s3 <? 3)) eqn:E.
  { eexists. split; [reflexivity |].
    split; [by vm_compute |]. split; [by vm_compute; repeat constructor |].
    by vm_compute. }
  apply orb_false_iff in E as [_ Hlen]. apply Z.ltb_ge in Hlen.
  exists s3. split; [reflexivity |]. split; [exact Hlen |].
  destruct (str_strip_infix (λ c, (c =? 95)%N) s2) as (a & b & Hs2).
  fold s3 in Hs2. split; [|split; [|split]].
  - apply Forall_forall. intros x Hx.
    rewrite Forall_forall in Hw1. apply Hw1.
    apply sub_underscore_runs_elem_of. fold s2. rewrite Hs2.
    apply elem_of_app. right. apply elem_of_app. by left.
  - intros Hh. by apply str_strip_head in Hh.
  - intros Hl. by apply str_strip_last in Hl.
  - destruct (str_in [95; 95]%N s3) eqn:Hin; [|done].
    pose proof (sub_underscore_runs_no_double s1) as Hno. fold s2 in Hno.
    rewrite Hs2 in Hno.
    by rewrite (str_in_app_l _ a _ (str_in_app_r _ _ b Hin)) in Hno.
Qed.

End Identifiers.

(** X14: for every text, [_create_identifier] returns a name of at least
    three symbols, all of them ASCII letters, digits or underscores, that
    neither begins nor ends with an underscore and holds no two
    underscores in a row. *)
Theorem identifier_shape (str_lower : pystr → pystr)
    (unicode_isdigit : char → bool) (text : pystr) :
  ∃ identifier : pystr,
    TextToCodeConverter.create_identifier str_lower unicode_isdigit text
    = Ok identifier
    ∧ 3 ≤ len identifier
    ∧ Forall (λ c, is_word_char c = true) identifier
    ∧ (∀ c, head identifier = Some c → c ≠ 95%N)
    ∧ (∀ c, last identifier = Some c → c ≠ 95%N)
    ∧ str_in (str "__") identifier = false.
Proof.
  destruct (create_identifier_shape str_lower unicode_isdigit text)
    as (identifier & Hid & Hlen & Hall & Hhead & Hlast & Hno).
  exists identifier. split; [exact Hid |]. split; [exact Hlen |].
  split; [exact Hall |]. split; [|split; [|exact Hno]].
  - intros c Hc ->. by apply Hhead.
  - intros c Hc ->. by apply Hlast.
Qed.

(** The name can begin with a digit: an underscore before the digit keeps
    [func_] away and is then stripped. *)
Example identifier_begins_with_digit :
  TextToCodeConverter.create_identifier ascii_lower (λ _, false) (str "_1ab")
  = Ok (str "1ab").
Proof. vm_compute. reflexivity. Qed.

(** * Sentences *)

(** Every piece is a part of the text that was split. *)
Lemma split_runs_infix (p : char → bool) (s cur : pystr) (in_run : bool)
    (piece : pystr) :
  piece ∈ split_runs p s cur in_run → ∃ a b, cur ++ s = a ++ piece ++ b.
Proof.
  revert cur in_run. induction s as [|c s IH]; intros cur in_run;
    cbn [split_runs].
  - intros ->%list_elem_of_singleton. exists [], []. by rewrite !app_nil_r.
  - destruct (p c).
    + assert (piece ∈ split_runs p s [] true →
              ∃ a b, cur ++ c :: s = a ++ piece ++ b) as Hrest.
      { intros H. destruct (IH [] true H) as (a & b & E). cbn in E.
        exists (cur ++ c :: a), b. rewrite E, <- app_assoc. done. }
      destruct in_run; [exact Hrest |].
      intros [->|H]%elem_of_cons; [|by apply Hrest].
      exists [], (c :: s). done.
    + intros H. destruct (IH _ _ H) as (a & b & E).
      exists a, b. rewrite <- E, <- app_assoc. done.
Qed.

(** No piece holds a symbol of the class. *)
Lemma split_runs_free (p : char → bool) (s cur : pystr) (in_run : bool) :
  Forall (λ c, p c = false) cur →
  Forall (λ piece, Forall (λ c, p c = false) piece)
    (split_runs p s cur in_run).
Proof.
  revert cur in_run. induction s as [|c s IH]; intros cur in_run Hcur;
    cbn [split_runs].
  - by repeat constructor.
  - destruct (p c) eqn:E.
    + destruct in_run; [by apply IH |].
      constructor; [done | by apply IH].
    + apply IH. apply Forall_app. split; [done |]. by repeat constructor.
Qed.

(** X15: every sentence [_split_into_sentences] returns is a non-empty
    part of the text that holds none of [.], [!] and [?] and neither
    begins nor ends with whitespace. *)
Theorem sentences_are_clean (isspace : char → bool) (text sentence : pystr) :
  sentence ∈ TextToCodeConverter.split_into_sentences isspace text →
  sentence ≠ []
  ∧ Forall (λ c, is_sentence_end c = false) sentence
  ∧ (∀ c, head sentence = Some c → isspace c = false)
  ∧ (∀ c, last sentence = Some c → isspace c = false)
  ∧ ∃ a b, text = a ++ sentence ++ b.
Proof.
  unfold TextToCodeConverter.split_into_sentences. intros Hs.
  apply list_elem_of_In, in_map_iff in Hs as (piece & <- & Hp).
  apply filter_In in Hp as [Hp Hne]. apply list_elem_of_In in Hp.
  destruct (str_strip_infix isspace piece) as (a1 & b1 & E1).
  destruct (split_runs_infix _ _ _ _ _ Hp) as (a2 & b2 & E2). cbn in E2.
  pose proof (split_runs_free is_sentence_end text [] false (Forall_nil_2 _))
    as Hfree.
  rewrite Forall_forall in Hfree. specialize (Hfree piece Hp).
  split; [by destruct (str_strip isspace piece) |].
  split; [|split; [|split]].
  - rewrite E1 in Hfree.
    apply Forall_app in Hfree as [_ Hfree].
    by apply Forall_app in Hfree as [Hfree _].
  - apply str_strip_head.
  - apply str_strip_last.
  - exists (a2 ++ a1), (b1 ++ b2).
    rewrite E2. rewrite E1 at 1. by rewrite <- !app_assoc.
Qed.

Lemma sentences_are_clean_witness :
  str "Bye" ≠ []
  ∧ Forall (λ c, is_sentence_end c = false) (str "Bye")
  ∧ (∀ c, head (str "Bye") = Some c → py_isspace c = false)
  ∧ (∀ c, last (str "Bye") = Some c → py_isspace c = false)
  ∧ ∃ a b, str "Hi there...  Bye !" = a ++ str "Bye" ++ b.
Proof.
  apply (sentences_are_clean py_isspace (str "Hi there...  Bye !") (str "Bye")).
  vm_compute. right. left.
Defined.

(** * The comment block *)

Lemma str_join_snoc (sep : pystr) (l : list pystr) (x : pystr) :
  l ≠ [] → str_join sep (l ++ [x]) = str_join sep l ++ sep ++ x.
Proof.
  induction l as [|y l IH]; [done |]. intros _.
  destruct l as [|z l]; [reflexivity |].
  change (str_join sep ((y :: z :: l) ++ [x]))
    with (y ++ sep ++ str_join sep ((z :: l) ++ [x])).
  rewrite IH by done.
  change (str_join sep (y :: z :: l)) with (y ++ sep ++ str_join sep (z :: l)).
  by rewrite <- !app_assoc.
Qed.

Lemma str_join_snoc_grow (sep : pystr) (l : list pystr) (x y : pystr) :
  str_join sep (l ++ [x ++ sep ++ y]) = str_join sep (l ++ [x]) ++ sep ++ y.
Proof.
  destruct l as [|z l]; [reflexivity |].
  rewrite !str_join_snoc by done. by rewrite <- !app_assoc.
Qed.

Section Wrapping.

Variable max_width : Z.

(** The loop loses no word and reorders none: joined by spaces, the lines
    are the words; and a line longer than the width is one of the
    words. *)
Lemma wrap_loop_spec (words : list pystr) :
  ∀ (current_line : pystr) (code_lines appended processed : list pystr),
    Forall (λ w, w ≠ []) words →
    (current_line = [] ↔ processed = []) →
    (processed = [] → appended = []) →
    str_join (str " ") (lines_so_far appended current_line)
    = str_join (str " ") processed →
    ∃ (appended' : list pystr) (current_line' : pystr),
      TextToCodeConverter.wrap_loop max_width words current_line
        (code_lines ++ appended)
      = (current_line', code_lines ++ appended')
      ∧ str_join (str " ") (lines_so_far appended' current_line')
        = str_join (str " ") (processed ++ words)
      ∧ (∀ l, l ∈ lines_so_far appended' current_line' →
              l ∈ lines_so_far appended current_line
              ∨ len l ≤ max_width ∨ l ∈ words).
Proof.
  induction words as [|word rest IH];
    intros current_line code_lines appended processed Hwords Hcur Happ Hjoin.
  - exists appended, current_line. rewrite app_nil_r. by repeat split; auto.
  - apply Forall_cons in Hwords as [Hword Hrest].
    cbn [TextToCodeConverter.wrap_loop].
    destruct (Z.leb_spec (len (current_line ++ str " " ++ word)) max_width)
      as [Hfit|Hlong].
    + set (current_line' :=
             current_line
               ++ (if truthy current_line then str " " ++ word else word)).
      assert (current_line' ≠ []) as Hne.
      { unfold current_line'. destruct current_line; [by destruct word | done]. }
      destruct (IH current_line' code_lines appended (processed ++ [word]))
        as (appended' & cur' & Hloop & Hj & Hin); [done | | | |].
      * split; [done | by destruct processed].
      * by destruct processed.
      * unfold lines_so_far. rewrite (truthy_nonempty _ Hne).
        unfold current_line'. destruct current_line as [|c0 cur0].
        -- rewrite (proj1 Hcur eq_refl) in *. by rewrite (Happ eq_refl).
        -- cbn [truthy].
           rewrite (str_join_snoc_grow (str " ") appended (c0 :: cur0) word).
           unfold lines_so_far in Hjoin. cbn [truthy] in Hjoin. rewrite Hjoin.
           rewrite str_join_snoc; [done |].
           intros Hp. by apply Hcur in Hp.
      * exists appended', cur'. split; [exact Hloop |].
        split; [by rewrite <- app_assoc in Hj |].
        intros l Hl. destruct (Hin l Hl) as [H|[H|H]].
        -- unfold lines_so_far in H. rewrite (truthy_nonempty _ Hne) in H.
           apply elem_of_app in H as [H|H].
           ++ left. unfold lines_so_far. apply elem_of_app. by left.
           ++ apply list_elem_of_singleton in H as ->. right. left.
              unfold current_line'. unfold len in *.
              destruct current_line; cbn [truthy app] in *;
                [|exact Hfit].
              rewrite length_app in Hfit. cbn [length] in Hfit. lia.
        -- right. by left.
        -- right. right. by right.
    + destruct (IH word code_lines
                  (if truthy current_line then appended ++ [current_line]
                   else appended) (processed ++ [word]))
        as (appended' & cur' & Hloop & Hj & Hin); [done | | | |].
      * split; [done | by destruct processed].
      * by destruct processed.
      * unfold lines_so_far. rewrite (truthy_nonempty _ Hword).
        destruct current_line as [|c0 cur0].
        -- cbn [truthy]. rewrite (proj1 Hcur eq_refl) in *.
           by rewrite (Happ eq_refl).
        -- cbn [truthy]. unfold lines_so_far in Hjoin. cbn [truthy] in Hjoin.
           rewrite str_join_snoc by (by destruct appended).
           rewrite Hjoin. rewrite str_join_snoc; [done |].
           intros Hp. by apply Hcur in Hp.
      * exists appended', cur'. split.
        { rewrite <- Hloop. f_equal.
          destruct (truthy current_line); [by rewrite app_assoc | done]. }
        split; [by rewrite <- app_assoc in Hj |].
        intros l Hl. destruct (Hin l Hl) as [H|[H|H]].
        -- unfold lines_so_far in H. rewrite (truthy_nonempty _ Hword) in H.
           apply elem_of_app in H as [H|H].
           ++ left. unfold lines_so_far.
              destruct (truthy current_line); [done |].
              apply elem_of_app. by left.
           ++ apply list_elem_of_singleton in H as ->. right. right. left.
        -- right. by left.
        -- right. right. by right.
Qed.

End Wrapping.

Section CommentBlock.

Variable isspace : char → bool.

Lemma comment_lines_loop_spec (max_width : Z) (lines code_lines : list pystr) :
  ∃ blocks : list (list pystr),
    TextToCodeConverter.comment_lines_loop isspace max_width lines code_lines
    = code_lines ++ concat (map (λ b, b ++ [[]]) blocks)
    ∧ Forall2 (block_of isspace max_width)
        (List.filter (λ line, truthy (str_strip isspace line)) lines) blocks.
Proof.
  revert code_lines. induction lines as [|line rest IH]; intros code_lines.
  - exists []. cbn. by rewrite app_nil_r.
  - cbn [TextToCodeConverter.comment_lines_loop List.filter].
    destruct (truthy (str_strip isspace line)) eqn:Hline; [|apply IH].
    set (words := TextToCodeConverter.str_words isspace
                    (str_strip isspace line)).
    assert (Forall (λ w, w ≠ []) words) as Hwords.
    { pose proof (findall_runs_spec (λ c, negb (isspace c))
                    (str_strip isspace line) [] (Forall_nil_2 _)) as H.
      eapply Forall_impl; [exact H |]. by intros w [? _]. }
    destruct (wrap_loop_spec max_width words [] code_lines [] [])
      as (appended & cur & Hloop & Hjoin & Hin); [done | done | done | done |].
    rewrite app_nil_r in Hloop. rewrite Hloop.
    set (block := lines_so_far appended cur).
    destruct (IH ((if truthy cur then (code_lines ++ appended) ++ [cur]
                   else code_lines ++ appended) ++ [[]]))
      as (blocks & Hrest & Hall).
    exists (block :: blocks). split.
    + rewrite Hrest. cbn [map concat]. unfold block, lines_so_far.
      destruct (truthy cur); by rewrite <- ?app_assoc.
    + constructor; [|exact Hall]. split; [exact Hjoin |].
      apply Forall_forall. intros l Hl.
      destruct (Hin l Hl) as [H|[H|H]]; [inversion H | by left | by right].
Qed.

End CommentBlock.

(** X16: the comment block is its four heading lines, one block of lines
    for every line of the text that is not blank, each followed by an
    empty line, and its five closing lines.  Joined by spaces, the lines
    of a block are the words of its line of the text, in order; and a
    line of a block longer than 70 symbols is one word of the text. *)
Theorem comment_block_wraps_words (isspace : char → bool) (now text : pystr) :
  ∃ blocks : list (list pystr),
    TextToCodeConverter.create_comment_block isspace now text
    = Ok (str_join [10%N]
            ([ FileManager.triple_quote;
               str "Generated Comment Block - " ++ now;
               repeat 61%N 70;
               [] ]
             ++ concat (map (λ b, b ++ [[]]) blocks)
             ++ [ repeat 61%N 70;
                  FileManager.triple_quote;
                  [];
                  str "# This is a comment block generated from your text";
                  str "# You can use this as documentation in your Python projects" ]))
    ∧ Forall2
        (λ (line : pystr) (block : list pystr),
           str_join (str " ") block
           = str_join (str " ")
               (TextToCodeConverter.str_words isspace (str_strip isspace line))
           ∧ Forall (λ l, len l ≤ 70
                          ∨ l ∈ TextToCodeConverter.str_words isspace
                                  (str_strip isspace line)) block)
        (List.filter (λ line, truthy (str_strip isspace line))
           (str_split 10%N text))
        blocks.
Proof.
  unfold TextToCodeConverter.create_comment_block.
  match goal with
  | |- context [TextToCodeConverter.comment_lines_loop _ ?w ?l ?c] =>
      destruct (comment_lines_loop_spec isspace w l c) as (blocks & Hloop & Hall)
  end.
  exists blocks. split; [|exact Hall].
  rewrite Hloop, <- app_assoc. reflexivity.
Qed.

Example comment_block_long_word :
  TextToCodeConverter.create_comment_block py_isspace (str "T")
    (str "ab " ++ repeat 120%N 71 ++ str " cd")
  = Ok (str_join [10%N]
          [ FileManager.triple_quote; str "Generated Comment Block - T";
            repeat 61%N 70; [];
            str "ab"; repeat 120%N 71; str "cd"; [];
            repeat 61%N 70; FileManager.triple_quote; [];
            str "# This is a comment block generated from your text";
            str "# You can use this as documentation in your Python projects" ]).
Proof. vm_compute. reflexivity. Qed.

(** * Choosing a template *)

Section ConvertText.

Variable isspace : char → bool.
Variable str_lower : pystr → pystr.
Variable unicode_capitalize : pystr → pystr.
Variable unicode_isalpha : char → bool.
Variable unicode_isdigit : char → bool.
Variable now : pystr.

Lemma class_methods_loop_returns (sentences : list pystr) (i : Z)
    (code_lines : list pystr) :
  ∃ code_lines',
    TextToCodeConverter.class_methods_loop isspace str_lower unicode_isdigit
      sentences i code_lines = Ok code_lines'.
Proof.
  revert i code_lines. induction sentences as [|sentence rest IH];
    intros i code_lines; [by eexists |].
  cbn [TextToCodeConverter.class_methods_loop].
  destruct (truthy (str_strip isspace sentence)); [|apply IH].
  destruct (create_identifier_shape str_lower unicode_isdigit
              (str "method_" ++ str (int_str i))) as (name & -> & _).
  cbn [mbind result_bind]. apply IH.
Qed.

(** Each of the four templates returns. *)
Lemma templates_return (k : Z) (text : pystr) :
  1 ≤ k ≤ 4 →
  ∃ template,
    TextToCodeConverter.templates isspace str_lower unicode_capitalize
      unicode_isalpha unicode_isdigit now !! k = Some template
    ∧ ∃ code, template text = Ok code.
Proof.
  intros Hk. unfold TextToCodeConverter.templates.
  assert (k = 1 ∨ k = 2 ∨ k = 3 ∨ k = 4) as [-> | [-> | [-> | ->]]] by lia.
  - rewrite lookup_insert_eq. eexists. split; [reflexivity |]. by eexists.
  - rewrite lookup_insert_ne, lookup_insert_eq by done.
    eexists. split; [reflexivity |].
    unfold TextToCodeConverter.create_function_definition.
    destruct (create_identifier_shape str_lower unicode_isdigit
                (str_join (str "_")
                   (slice_to (TextToCodeConverter.str_words isspace text) 3)))
      as (name & -> & _).
    by eexists.
  - rewrite !lookup_insert_ne, lookup_insert_eq by done.
    eexists. split; [reflexivity |].
    unfold TextToCodeConverter.create_class_definition.
    destruct (create_class_name_shape unicode_capitalize unicode_isalpha
                (str_join (str "_")
                   (slice_to (TextToCodeConverter.str_words isspace text) 2)))
      as (c & r & -> & _).
    cbn [mbind result_bind].
    match goal with
    | |- context [TextToCodeConverter.class_methods_loop _ _ _ ?l ?i ?cl] =>
        destruct (class_methods_loop_returns l i cl) as (cl' & ->)
    end.
    by eexists.
  - rewrite !lookup_insert_ne, lookup_insert_eq by done.
    eexists. split; [reflexivity |]. by eexists.
Qed.

End ConvertText.

(** X17: [convert_text] has three outcomes.  A template type other than
    1, 2, 3 and 4 raises [ValueError] with the message naming it, whatever
    the text; with a template type among them, a text that strips to
    nothing raises [ValueError] for an empty input; and otherwise the
    template returns a code: no template raises. *)
Theorem convert_text_outcomes (isspace : char → bool)
    (str_lower unicode_capitalize : pystr → pystr)
    (unicode_isalpha unicode_isdigit : char → bool) (now text : pystr)
    (template_type : Z) :
  (¬ (1 ≤ template_type ≤ 4) →
   TextToCodeConverter.convert_text isspace str_lower unicode_capitalize
     unicode_isalpha unicode_isdigit now text template_type
   = Raise (ValueError
              (String.append "Invalid template type: " (int_str template_type))))
  ∧ (1 ≤ template_type ≤ 4 → str_strip isspace text = [] →
     TextToCodeConverter.convert_text isspace str_lower unicode_capitalize
       unicode_isalpha unicode_isdigit now text template_type
     = Raise (ValueError "Input text cannot be empty"))
  ∧ (1 ≤ template_type ≤ 4 → str_strip isspace text ≠ [] →
     ∃ code,
       TextToCodeConverter.convert_text isspace str_lower unicode_capitalize
         unicode_isalpha unicode_isdigit now text template_type
       = Ok code).
Proof.
  unfold TextToCodeConverter.convert_text. split; [|split].
  - intros Hk. unfold TextToCodeConverter.templates.
    rewrite !lookup_insert_ne by lia. by rewrite lookup_empty.
  - intros Hk Hblank.
    destruct (templates_return isspace str_lower unicode_capitalize
                unicode_isalpha unicode_isdigit now template_type text Hk)
      as (template & -> & _).
    by rewrite Hblank.
  - intros Hk Htext.
    destruct (templates_return isspace str_lower unicode_capitalize
                unicode_isalpha unicode_isdigit now template_type text Hk)
      as (template & -> & Hcode).
    by rewrite (truthy_nonempty _ Htext).
Qed.

Lemma convert_text_outcomes_witness :
  TextToCodeConverter.convert_text py_isspace ascii_lower id (λ _, false)
    (λ _, false) (str "2024-05-06 07:08:09") [] 0
  = Raise (ValueError "Invalid template type: 0")
  ∧ TextToCodeConverter.convert_text py_isspace ascii_lower id (λ _, false)
      (λ _, false) (str "2024-05-06 07:08:09") (str "  ") 3
    = Raise (ValueError "Input text cannot be empty")
  ∧ ∃ code,
      TextToCodeConverter.convert_text py_isspace ascii_lower id (λ _, false)
        (λ _, false) (str "2024-05-06 07:08:09") (str "9 lives. ?") 3
      = Ok code.
Proof.
  split; [|split].
  - apply (proj1 (convert_text_outcomes py_isspace ascii_lower id (λ _, false)
                    (λ _, false) (str "2024-05-06 07:08:09") [] 0)). lia.
  - apply (proj1 (proj2 (convert_text_outcomes py_isspace ascii_lower id
                           (λ _, false) (λ _, false)
                           (str "2024-05-06 07:08:09") (str "  ") 3)));
      [lia | reflexivity].
  - apply (proj2 (proj2 (convert_text_outcomes py_isspace ascii_lower id
                           (λ _, false) (λ _, false)
                           (str "2024-05-06 07:08:09") (str "9 lives. ?") 3)));
      [lia | discriminate].
Defined.

(** * The handlers of the application *)

(** X18: whatever is typed, [encrypt_code] leaves the generated code as it
    is and either leaves the whole state as it is or stores a ciphertext
    that [decrypt] takes back to the generated code with the shift that
    was typed, a shift in [1,25]; and it never reports an error of the
    cipher, since it checks the shift and the presence of a code before it
    calls [encrypt]. *)
Theorem encrypt_code_outcome (isspace : char → bool)
    (py_int : pystr → option Z) (self : TextToCodeApp.app)
    (raw_shift : pystr) :
  ∃ (self' : TextToCodeApp.app) (out : list event),
    TextToCodeApp.encrypt_code isspace py_int self raw_shift = (self', out)
    ∧ TextToCodeApp.generated_code self' = TextToCodeApp.generated_code self
    ∧ (self' = self
       ∨ ∃ shift,
           py_int (str_strip isspace raw_shift) = Some shift
           ∧ 1 ≤ shift ≤ 25
           ∧ CaesarCipher.encrypt (TextToCodeApp.generated_code self) shift
             = Ok (TextToCodeApp.encrypted_code self')
           ∧ CaesarCipher.decrypt (TextToCodeApp.encrypted_code self') shift
             = Ok (TextToCodeApp.generated_code self))
    ∧ ∀ message,
        Print (TextToCodeApp.cross ++ str " Error encrypting code: " ++ message)
        ∉ out.
Proof.
  unfold TextToCodeApp.encrypt_code.
  destruct (TextToCodeApp.generated_code self) as [|c0 code] eqn:Hcode.
  { cbn [truthy negb]. eexists _, _. split; [reflexivity |].
    split; [done |]. split; [by left |].
    intros message H. apply list_elem_of_singleton in H.
    vm_compute in H. discriminate. }
  cbn [truthy negb].
  assert (∀ (message : pystr) (tail : list event),
            (∀ e, e ∈ tail →
                  e ≠ Print (TextToCodeApp.cross
                               ++ str " Error encrypting code: " ++ message)) →
            Print (TextToCodeApp.cross ++ str " Error encrypting code: "
                     ++ message)
            ∉ [ Print ([10%N] ++ TextToCodeApp.lock ++ str " CODE ENCRYPTION");
                Print (repeat 45%N 20);
                Prompt (str "Enter Caesar cipher shift value (1-25): ") ]
              ++ tail) as Hout.
  { intros message tail Htail H. apply elem_of_app in H as [H|H].
    - repeat (apply elem_of_cons in H as [H|H];
              [vm_compute in H; discriminate |]).
      inversion H.
    - by apply (Htail _ H). }
  destruct (py_int (str_strip isspace raw_shift)) as [shift|] eqn:Hint.
  - destruct (negb ((1 <=? shift) && (shift <=? 25))) eqn:Hrange.
    + eexists _, _. split; [reflexivity |]. split; [done |].
      split; [by left |]. intros message. apply Hout.
      intros e ->%list_elem_of_singleton H. vm_compute in H. discriminate.
    + assert (1 ≤ shift ≤ 25) as Hs.
      { apply negb_false_iff, andb_true_iff in Hrange as [H1 H2].
        apply Z.leb_le in H1, H2. lia. }
      rewrite (encrypt_valid (c0 :: code) shift) by done.
      eexists _, _. split; [reflexivity |].
      cbn [TextToCodeApp.generated_code TextToCodeApp.encrypted_code].
      split; [done |]. split.
      * right. exists shift. split; [done |]. split; [done |].
        split; [by apply encrypt_valid |].
        rewrite decrypt_valid by done. f_equal. apply shift_symbol_roundtrip.
      * intros message. apply Hout. intros e He H. subst e.
        apply elem_of_cons in He as [He|He];
          [vm_compute in He; discriminate |].
        apply list_elem_of_singleton in He.
        cbn in He. discriminate.
  - eexists _, _. split; [reflexivity |]. split; [done |].
    split; [by left |]. intros message. apply Hout.
    intros e ->%list_elem_of_singleton H. vm_compute in H. discriminate.
Qed.

(** X19: what [encrypt_code] stores, [decrypt_code] shows as it was: when
    there is a generated code and the same valid shift is typed both
    times, [decrypt_code] takes the encrypted code from memory and prints
    the generated code between its two rules. *)
Theorem encrypt_then_decrypt_code (isspace : char → bool)
    (py_int : pystr → option Z) (self : TextToCodeApp.app)
    (raw_shift raw_code : pystr) (shift : Z) :
  TextToCodeApp.generated_code self ≠ [] →
  py_int (str_strip isspace raw_shift) = Some shift →
  1 ≤ shift ≤ 25 →
  ∃ (self' : TextToCodeApp.app) (out : list event),
    TextToCodeApp.encrypt_code isspace py_int self raw_shift = (self', out)
    ∧ TextToCodeApp.decrypt_code isspace py_int self' raw_code raw_shift
      = [ Print ([10%N] ++ TextToCodeApp.open_lock ++ str " CODE DECRYPTION");
          Print (repeat 45%N 20);
          Print (str "Using encrypted code from memory.");
          Prompt (str "Enter Caesar cipher shift value used for encryption: ");
          Print ([10%N] ++ TextToCodeApp.check
                   ++ str " Code decrypted successfully!");
          Print ([10%N] ++ str "Decrypted Code:");
          Print (repeat 45%N 40);
          Print (TextToCodeApp.generated_code self);
          Print (repeat 45%N 40) ].
Proof.
  intros Hcode Hint Hs.
  unfold TextToCodeApp.encrypt_code.
  rewrite (truthy_nonempty _ Hcode), Hint, (shift_in_range shift Hs).
  cbn [negb]. rewrite (encrypt_valid _ shift) by done.
  eexists _, _. split; [reflexivity |].
  unfold TextToCodeApp.decrypt_code, TextToCodeApp.decrypt_chosen.
  cbn [TextToCodeApp.encrypted_code].
  rewrite (truthy_nonempty (map (shift_symbol shift) _))
    by (by apply map_nonempty).
  cbn [negb]. rewrite Hint, (shift_in_range shift Hs).
  rewrite decrypt_valid by (by apply map_nonempty || done).
  by rewrite shift_symbol_roundtrip.
Qed.

Lemma encrypt_then_decrypt_code_witness :
  ∃ (self' : TextToCodeApp.app) (out : list event),
    TextToCodeApp.encrypt_code py_isspace
      (λ s, if bool_decide (s = str "7") then Some 7 else None)
      {| TextToCodeApp.generated_code := str "print(1)";
         TextToCodeApp.encrypted_code := [] |} (str " 7 ")
    = (self', out)
    ∧ TextToCodeApp.decrypt_code py_isspace
        (λ s, if bool_decide (s = str "7") then Some 7 else None)
        self' [] (str " 7 ")
      = [ Print ([10%N] ++ TextToCodeApp.open_lock ++ str " CODE DECRYPTION");
          Print (repeat 45%N 20);
          Print (str "Using encrypted code from memory.");
          Prompt (str "Enter Caesar cipher shift value used for encryption: ");
          Print ([10%N] ++ TextToCodeApp.check
                   ++ str " Code decrypted successfully!");
          Print ([10%N] ++ str "Decrypted Code:");
          Print (repeat 45%N 40);
          Print (str "print(1)");
          Print (repeat 45%N 40) ].
Proof.
  apply (encrypt_then_decrypt_code py_isspace
           (λ s, if bool_decide (s = str "7") then Some 7 else None)
           {| TextToCodeApp.generated_code := str "print(1)";
              TextToCodeApp.encrypted_code := [] |} (str " 7 ") [] 7);
    [discriminate | vm_compute; reflexivity | lia].
Defined.

(** A string that neither begins nor ends with a symbol of the stripped
    class is left as it is by [str.strip]. *)
Lemma str_strip_unchanged (drop : char → bool) (s : pystr) :
  (∀ c, head s = Some c → drop c = false) →
  (∀ c, last s = Some c → drop c = false) →
  str_strip drop s = s.
Proof.
  intros Hhead Hlast.
  assert (∀ l : pystr, (∀ c, head l = Some c → drop c = false) →
                       str_lstrip drop l = l) as Hl.
  { intros [|c l] H; [done |]. cbn [str_lstrip]. by rewrite (H c). }
  unfold str_strip, str_rstrip. rewrite (Hl s Hhead), Hl.
  - apply reverse_involutive.
  - intros c. rewrite head_reverse. apply Hlast.
Qed.

(** X20: a ciphertext typed in is decrypted to the text it came from,
    provided that it neither begins nor ends with whitespace: with no
    encrypted code in memory, [decrypt_code] asks for the ciphertext,
    strips it, and prints the original text between its two rules when
    the shift of the encryption is typed. *)
Theorem typed_ciphertext_round_trip (isspace : char → bool)
    (py_int : pystr → option Z) (self : TextToCodeApp.app)
    (plain ciphertext raw_shift : pystr) (shift : Z) :
  TextToCodeApp.encrypted_code self = [] →
  CaesarCipher.encrypt plain shift = Ok ciphertext →
  py_int (str_strip isspace raw_shift) = Some shift →
  (∀ c, head ciphertext = Some c → isspace c = false) →
  (∀ c, last ciphertext = Some c → isspace c = false) →
  TextToCodeApp.decrypt_code isspace py_int self ciphertext raw_shift
  = [ Print ([10%N] ++ TextToCodeApp.open_lock ++ str " CODE DECRYPTION");
      Print (repeat 45%N 20);
      Print (str "No encrypted code in memory. Please enter encrypted code:");
      Prompt (str "Encrypted code: ");
      Prompt (str "Enter Caesar cipher shift value used for encryption: ");
      Print ([10%N] ++ TextToCodeApp.check
               ++ str " Code decrypted successfully!");
      Print ([10%N] ++ str "Decrypted Code:");
      Print (repeat 45%N 40);
      Print plain;
      Print (repeat 45%N 40) ].
Proof.
  intros Hmem Henc Hint Hhead Hlast.
  assert (1 ≤ shift ≤ 25 ∧ plain ≠ []) as [Hs Hplain].
  { unfold CaesarCipher.encrypt in Henc.
    destruct (negb ((1 <=? shift) && (shift <=? 25))) eqn:Hrange;
      [discriminate |].
    destruct plain; [discriminate |]. split; [|done].
    apply negb_false_iff, andb_true_iff in Hrange as [H1 H2].
    apply Z.leb_le in H1, H2. lia. }
  rewrite encrypt_valid in Henc by done. injection Henc as <-.
  unfold TextToCodeApp.decrypt_code, TextToCodeApp.decrypt_chosen.
  rewrite Hmem, (str_strip_unchanged isspace _ Hhead Hlast).
  cbn [truthy negb].
  rewrite (truthy_nonempty (map (shift_symbol shift) plain))
    by (by apply map_nonempty).
  cbn [negb]. rewrite Hint, (shift_in_range shift Hs).
  rewrite decrypt_valid by (by apply map_nonempty || done).
  by rewrite shift_symbol_roundtrip.
Qed.

Lemma typed_ciphertext_round_trip_witness :
  TextToCodeApp.decrypt_code py_isspace
    (λ s, if bool_decide (s = str "3") then Some 3 else None)
    {| TextToCodeApp.generated_code := []; TextToCodeApp.encrypted_code := [] |}
    (str "sulqw+4,") (str "3 ")
  = [ Print ([10%N] ++ TextToCodeApp.open_lock ++ str " CODE DECRYPTION");
      Print (repeat 45%N 20);
      Print (str "No encrypted code in memory. Please enter encrypted code:");
      Prompt (str "Encrypted code: ");
      Prompt (str "Enter Caesar cipher shift value used for encryption: ");
      Print ([10%N] ++ TextToCodeApp.check
               ++ str " Code decrypted successfully!");
      Print ([10%N] ++ str "Decrypted Code:");
      Print (repeat 45%N 40);
      Print (str "print(1)");
      Print (repeat 45%N 40) ].
Proof.
  apply (typed_ciphertext_round_trip py_isspace
           (λ s, if bool_decide (s = str "3") then Some 3 else None)
           {| TextToCodeApp.generated_code := [];
              TextToCodeApp.encrypted_code := [] |}
           (str "print(1)") (str "sulqw+4,") (str "3 ") 3);
    [reflexivity | vm_compute; reflexivity | vm_compute; reflexivity
    | intros c [= <-]; reflexivity | intros c [= <-]; reflexivity].
Defined.

(** The condition on the ends of the ciphertext is needed: the tilde is
    encrypted to a space by the shift 1, which [decrypt_code] strips from
    what is typed, so that the text comes back without its tilde. *)
Example typed_ciphertext_loses_boundary_whitespace :
  CaesarCipher.encrypt (str "~x") 1 = Ok (str " y")
  ∧ TextToCodeApp.decrypt_code py_isspace
      (λ s, if bool_decide (s = str "1") then Some 1 else None)
      {| TextToCodeApp.generated_code := []; TextToCodeApp.encrypted_code := [] |}
      (str " y") (str "1")
    = [ Print ([10%N] ++ TextToCodeApp.open_lock ++ str " CODE DECRYPTION");
        Print (repeat 45%N 20);
        Print (str "No encrypted code in memory. Please enter encrypted code:");
        Prompt (str "Encrypted code: ");
        Prompt (str "Enter Caesar cipher shift value used for encryption: ");
        Print ([10%N] ++ TextToCodeApp.check
                 ++ str " Code decrypted successfully!");
        Print ([10%N] ++ str "Decrypted Code:");
        Print (repeat 45%N 40);
        Print (str "x");
        Print (repeat 45%N 40) ].
Proof. split; vm_compute; reflexivity. Qed.
